(** * sdn-openapi: the OFAC ingestion pipeline and its read API

    A shallow embedding of [netlify/functions/ofac-parser.ts],
    [ofac-update.ts], [ofac-search.ts], [ofac-entity.ts] and
    [ofac-meta.ts], and the properties of the design specification that
    were checked against them.

    Conventions.  A JavaScript string is the list of its UTF-16 code units
    ([list N]); an object used as a dictionary is a [gmap]; an array of
    object references is a list whose positions are the identities of the
    objects; [undefined] is [None] wherever a value is [string | undefined].
    Calls into the platform or into third-party packages (Unicode case
    conversion, zlib, csv-parse, fuse.js, fetch) are section variables. *)

From Stdlib Require Import NArith ZArith QArith Ascii String List Lia Bool.
From stdpp Require Import base option list gmap pretty.

Local Open Scope N_scope.

(* ===================================================================== *)
(** * JavaScript strings *)
(* ===================================================================== *)

Module JsString.

(** [jsstring] is only an abbreviation, so that list lemmas apply as is. *)
Abbreviation jsstring := (list N).

(** The code units of an ASCII literal. *)
Definition u16 (s : string) : jsstring :=
  List.map N_of_ascii (list_ascii_of_string s).

Definition BOM : N := 0xFEFF.

(** ECMAScript [WhiteSpace] and [LineTerminator]: what
    [String.prototype.trim] strips and what [\s] matches. *)
Definition isWhiteSpace (c : N) : bool :=
  (c =? 0x09) || (c =? 0x0A) || (c =? 0x0B) || (c =? 0x0C) || (c =? 0x0D)
  || (c =? 0x20) || (c =? 0xA0) || (c =? 0x1680)
  || ((0x2000 <=? c) && (c <=? 0x200A))
  || (c =? 0x2028) || (c =? 0x2029) || (c =? 0x202F) || (c =? 0x205F)
  || (c =? 0x3000) || (c =? BOM).

(** [\w] without the unicode and ignoreCase flags: [A-Za-z0-9_]. *)
Definition isWordChar (c : N) : bool :=
  ((0x41 <=? c) && (c <=? 0x5A)) || ((0x61 <=? c) && (c <=? 0x7A))
  || ((0x30 <=? c) && (c <=? 0x39)) || (c =? 0x5F).

Definition HYPHEN : N := 0x2D.

Fixpoint trimStart (s : jsstring) : jsstring :=
  match s with
  | c :: t => if isWhiteSpace c then trimStart t else s
  | [] => []
  end.

Definition trimEnd (s : jsstring) : jsstring := rev (trimStart (rev s)).

Definition trim (s : jsstring) : jsstring := trimEnd (trimStart s).

(** A string is blank when trimming leaves nothing. *)
Definition isBlank (s : jsstring) : bool :=
  match trim s with [] => true | _ => false end.

Definition isAscii (c : N) : bool := c <? 0x80.

Definition asciiLower (c : N) : N :=
  if (0x41 <=? c) && (c <=? 0x5A) then c + 0x20 else c.

(** [String.prototype.toLowerCase].  On a string of ASCII characters it is
    the ASCII mapping; what Unicode case conversion does to any other
    string is left to [toLowerUnicode]. *)
Definition toLowerCase (toLowerUnicode : jsstring -> jsstring)
    (s : jsstring) : jsstring :=
  if forallb isAscii s then List.map asciiLower s else toLowerUnicode s.

(** [s.replace(/[class]/g, rep)]: every character of the class is replaced. *)
Fixpoint replaceClass (cls : N -> bool) (rep s : jsstring) : jsstring :=
  match s with
  | [] => []
  | c :: t =>
      if cls c then rep ++ replaceClass cls rep t
      else c :: replaceClass cls rep t
  end.

(** [s.replace(/[class]+/g, rep)]: the matcher is greedy, so every maximal
    run of the class is replaced once.  [inRun] tells that the previous
    character belonged to the run being replaced. *)
Fixpoint replaceRuns_from (inRun : bool) (cls : N -> bool)
    (rep s : jsstring) : jsstring :=
  match s with
  | [] => []
  | c :: t =>
      if cls c then
        if inRun then replaceRuns_from true cls rep t
        else rep ++ replaceRuns_from true cls rep t
      else c :: replaceRuns_from false cls rep t
  end.

Definition replaceRuns := replaceRuns_from false.

End JsString.

Import JsString.

(* ===================================================================== *)
(** * ofac-parser.ts *)
(* ===================================================================== *)

Module Parser.

Record Address := {
  address : option jsstring;
  city : option jsstring;
  country : option jsstring
}.

Record OfacEntity := {
  uid : jsstring;
  name : jsstring;
  type : option jsstring;
  programs : list jsstring;
  remarks : option jsstring;
  aka : list jsstring;
  addresses : list Address
}.

(** ** normalizeHeader *)

Section NormalizeHeader.

Variable toLowerUnicode : jsstring -> jsstring.

(** The class [[^\w\s-]]. *)
Definition isPunctuation (c : N) : bool :=
  negb (isWordChar c || isWhiteSpace c || (c =? HYPHEN)).

(** The class [[-\s]]. *)
Definition isSeparator (c : N) : bool :=
  (c =? HYPHEN) || isWhiteSpace c.

Definition normalizeHeader (header : jsstring) : jsstring :=
  replaceRuns isSeparator (u16 "_")
    (replaceClass isPunctuation []
      (replaceClass (N.eqb BOM) []
        (toLowerCase toLowerUnicode (trim header)))).

End NormalizeHeader.

(** ** firstDefined *)

(** A row is a [Record<string, string>]; the code also guards against
    cells that hold [undefined] or [null]. *)
Inductive cell :=
  | CUndefined
  | CNull
  | CString (s : jsstring).

Abbreviation row := (gmap jsstring cell).

(** [row[k]] *)
Definition rowGet (r : row) (k : jsstring) : cell :=
  match r !! k with
  | Some c => c
  | None => CUndefined
  end.

Fixpoint firstDefined (r : row) (keys : list jsstring) : option jsstring :=
  match keys with
  | [] => None
  | k :: ks =>
      match rowGet r k with
      | CString v => if negb (isBlank v) then Some v else firstDefined r ks
      | CUndefined | CNull => firstDefined r ks
      end
  end.

(** Truthiness of a [string | undefined]: [undefined] and the empty
    string are falsy. *)
Definition truthy (v : option jsstring) : bool :=
  match v with
  | Some (_ :: _) => true
  | _ => false
  end.

(** [String(v)] *)
Definition toString (v : option jsstring) : jsstring :=
  match v with
  | Some s => s
  | None => u16 "undefined"
  end.

(** [v ? String(v) : undefined] *)
Definition orUndefined (v : option jsstring) : option jsstring :=
  if truthy v then Some (toString v) else None.

(** [v || d] *)
Definition orElse (v : option jsstring) (d : jsstring) : jsstring :=
  if truthy v then toString v else d.

(** ** extractEntities *)

Definition UID_KEYS : list jsstring :=
  [u16 "ent_num"; u16 "entnum"; u16 "uid"; u16 "id"].
Definition NAME_KEYS : list jsstring :=
  [u16 "sdn_name"; u16 "sdnname"; u16 "name"; u16 "full_name"].
Definition TYPE_KEYS : list jsstring :=
  [u16 "sdn_type"; u16 "sdntype"; u16 "type"].
Definition PROGRAM_KEYS : list jsstring :=
  [u16 "program"; u16 "programs"; u16 "sanctions_program"].
Definition REMARKS_KEYS : list jsstring :=
  [u16 "remarks"; u16 "comment"; u16 "comments"].

(** [s.split(/[class]+/)]: the pieces between maximal runs of the class;
    [cur] is the piece being read, reversed. *)
Fixpoint splitRuns_from (inRun : bool) (cls : N -> bool)
    (cur s : jsstring) : list jsstring :=
  match s with
  | [] => [rev cur]
  | c :: t =>
      if cls c then
        if inRun then splitRuns_from true cls [] t
        else rev cur :: splitRuns_from true cls [] t
      else splitRuns_from false cls (c :: cur) t
  end.

Definition splitRuns (cls : N -> bool) (s : jsstring) : list jsstring :=
  splitRuns_from false cls [] s.

(** The class [[,;]]. *)
Definition isProgramSeparator (c : N) : bool := (c =? 0x2C) || (c =? 0x3B).

Definition nonEmpty (s : jsstring) : bool :=
  match s with [] => false | _ => true end.

Definition parsePrograms (programRaw : jsstring) : list jsstring :=
  if nonEmpty programRaw
  then List.filter nonEmpty
         (List.map trim (splitRuns isProgramSeparator programRaw))
  else [].

(** The callback of [rows.map]: [None] is the [null] of a skipped row.
    (The skip counter only feeds the log.) *)
Definition extractRow (r : row) : option OfacEntity :=
  let uid := firstDefined r UID_KEYS in
  let name := firstDefined r NAME_KEYS in
  if negb (truthy uid) || negb (truthy name) then None
  else
    let type := firstDefined r TYPE_KEYS in
    let programRaw := orElse (firstDefined r PROGRAM_KEYS) [] in
    let remarks := firstDefined r REMARKS_KEYS in
    Some {| uid := toString uid;
            name := toString name;
            type := orUndefined type;
            programs := parsePrograms programRaw;
            remarks := orUndefined remarks;
            aka := [];
            addresses := [] |}.

(** [.filter(Boolean)] on an array of objects and [null]s. *)
Fixpoint filterBoolean {A} (l : list (option A)) : list A :=
  match l with
  | [] => []
  | Some x :: t => x :: filterBoolean t
  | None :: t => filterBoolean t
  end.

Definition extractEntities (rows : list row) : list OfacEntity :=
  filterBoolean (List.map extractRow rows).

(** ** consolidateAltData, consolidateAddData *)

Definition ALT_NAME_KEYS : list jsstring :=
  [u16 "alt_name"; u16 "altname"; u16 "name"; u16 "alternate_name"].
Definition ADDRESS_KEYS : list jsstring :=
  [u16 "address"; u16 "addr"; u16 "street"].
Definition CITY_KEYS : list jsstring := [u16 "city"; u16 "city_name"].
Definition COUNTRY_KEYS : list jsstring := [u16 "country"; u16 "country_name"].

(** The entity objects are shared between the array and the [Map]: an
    object is identified by its position in the array, and the map sends a
    uid to the position of the object it holds.  [entities.forEach] sets
    the keys in array order, a later [set] replacing an earlier one. *)
Fixpoint entityMap_from (i : nat) (entities : list OfacEntity)
    (m : gmap jsstring nat) : gmap jsstring nat :=
  match entities with
  | [] => m
  | e :: t => entityMap_from (S i) t (<[uid e := i]> m)
  end.

Definition entityMap (entities : list OfacEntity) : gmap jsstring nat :=
  entityMap_from 0 entities ∅.

(** [entity.aka.push(altName)] *)
Definition pushAka (altName : jsstring) (e : OfacEntity) : OfacEntity :=
  {| uid := uid e; name := name e; type := type e; programs := programs e;
     remarks := remarks e; aka := aka e ++ [altName];
     addresses := addresses e |}.

(** [entity.addresses.push(a)] *)
Definition pushAddress (a : Address) (e : OfacEntity) : OfacEntity :=
  {| uid := uid e; name := name e; type := type e; programs := programs e;
     remarks := remarks e; aka := aka e;
     addresses := addresses e ++ [a] |}.

(** The callback of [altRows.forEach], acting on the shared objects. *)
Definition altStep (m : gmap jsstring nat) (entities : list OfacEntity)
    (r : row) : list OfacEntity :=
  let uid := firstDefined r UID_KEYS in
  let altName := firstDefined r ALT_NAME_KEYS in
  if negb (truthy uid) || negb (truthy altName) then entities
  else
    match m !! toString uid with
    | Some i => alter (pushAka (toString altName)) i entities
    | None => entities
    end.

Definition consolidateAltData (entities : list OfacEntity)
    (altRows : list row) : list OfacEntity :=
  foldl (altStep (entityMap entities)) entities altRows.

(** The callback of [addRows.forEach]. *)
Definition addStep (m : gmap jsstring nat) (entities : list OfacEntity)
    (r : row) : list OfacEntity :=
  let uid := firstDefined r UID_KEYS in
  if negb (truthy uid) then entities
  else
    match m !! toString uid with
    | Some i =>
        let address := firstDefined r ADDRESS_KEYS in
        let city := firstDefined r CITY_KEYS in
        let country := firstDefined r COUNTRY_KEYS in
        if truthy address || truthy city || truthy country
        then alter (pushAddress {| address := orUndefined address;
                                   city := orUndefined city;
                                   country := orUndefined country |})
                   i entities
        else entities
    | None => entities
    end.

Definition consolidateAddData (entities : list OfacEntity)
    (addRows : list row) : list OfacEntity :=
  foldl (addStep (entityMap entities)) entities addRows.

End Parser.

Import Parser.

(* ===================================================================== *)
(** * JSON.stringify and JSON.parse *)
(* ===================================================================== *)

Module Json.

(** The values that occur in a dataset: no number is ever stored in an
    entity, so number literals are left out of the model ([parse] answers
    [None] on them, as it does on a syntax error).  The properties of an
    object are listed in insertion order. *)
#[warnings="-register-all"]
Inductive jsval :=
  | Undefined
  | Null
  | Bool (b : bool)
  | Str (s : jsstring)
  | Arr (l : list jsval)
  | Obj (l : list (jsstring * jsval)).

Inductive token :=
  | TLBrace
  | TRBrace
  | TLBracket
  | TRBracket
  | TColon
  | TComma
  | TNull
  | TTrue
  | TFalse
  | TString (s : jsstring).

Definition QUOTE : N := 0x22.
Definition BACKSLASH : N := 0x5C.

Definition isHighSurrogate (c : N) : bool := (0xD800 <=? c) && (c <=? 0xDBFF).
Definition isLowSurrogate (c : N) : bool := (0xDC00 <=? c) && (c <=? 0xDFFF).

Definition hexDigit (d : N) : N :=
  if d <? 10 then 0x30 + d else 0x61 + (d - 10).

(** [UnicodeEscape]: a backslash, [u] and four lower-case hexadecimal digits. *)
Definition unicodeEscape (c : N) : jsstring :=
  [BACKSLASH; 0x75; hexDigit ((c / 4096) mod 16); hexDigit ((c / 256) mod 16);
   hexDigit ((c / 16) mod 16); hexDigit (c mod 16)].

(** One code unit that is not a surrogate, as [QuoteJSONString] writes it. *)
Definition escapeUnit (c : N) : jsstring :=
  if c =? 0x08 then [BACKSLASH; 0x62]
  else if c =? 0x09 then [BACKSLASH; 0x74]
  else if c =? 0x0A then [BACKSLASH; 0x6E]
  else if c =? 0x0C then [BACKSLASH; 0x66]
  else if c =? 0x0D then [BACKSLASH; 0x72]
  else if c =? QUOTE then [BACKSLASH; QUOTE]
  else if c =? BACKSLASH then [BACKSLASH; BACKSLASH]
  else if c <? 0x20 then unicodeEscape c
  else [c].

(** The body of [QuoteJSONString], code point by code point: a surrogate
    pair is copied, a lone surrogate is escaped. *)
Fixpoint quoteBody (s : jsstring) : jsstring :=
  match s with
  | [] => []
  | c :: t =>
      if isHighSurrogate c then
        match t with
        | d :: t' =>
            if isLowSurrogate d then c :: d :: quoteBody t'
            else unicodeEscape c ++ quoteBody t
        | [] => unicodeEscape c
        end
      else if isLowSurrogate c then unicodeEscape c ++ quoteBody t
      else escapeUnit c ++ quoteBody t
  end.

Definition quoteJSONString (s : jsstring) : jsstring :=
  QUOTE :: quoteBody s ++ [QUOTE].

Definition renderToken (t : token) : jsstring :=
  match t with
  | TLBrace => u16 "{"
  | TRBrace => u16 "}"
  | TLBracket => u16 "["
  | TRBracket => u16 "]"
  | TColon => u16 ":"
  | TComma => u16 ","
  | TNull => u16 "null"
  | TTrue => u16 "true"
  | TFalse => u16 "false"
  | TString s => quoteJSONString s
  end.

Definition render (ts : list token) : jsstring :=
  List.concat (List.map renderToken ts).

(** The pieces of a list, separated by commas. *)
Fixpoint joinComma (parts : list (list token)) : list token :=
  match parts with
  | [] => []
  | [p] => p
  | p :: rest => p ++ TComma :: joinComma rest
  end.

(** [SerializeJSONProperty]: [None] is the [undefined] that the caller
    drops from an object and writes as [null] in an array. *)
Fixpoint serialize (v : jsval) : option (list token) :=
  match v with
  | Undefined => None
  | Null => Some [TNull]
  | Bool b => Some [if b then TTrue else TFalse]
  | Str s => Some [TString s]
  | Arr l =>
      Some (TLBracket ::
            joinComma (List.map (fun x => default [TNull] (serialize x)) l)
            ++ [TRBracket])
  | Obj kvs =>
      Some (TLBrace ::
            joinComma
              (List.concat
                 (List.map (fun kv =>
                    match serialize (snd kv) with
                    | Some ts => [TString (fst kv) :: TColon :: ts]
                    | None => []
                    end) kvs))
            ++ [TRBrace])
  end.

(** [JSON.stringify(v)] without replacer and indentation. *)
Definition stringify (v : jsval) : option jsstring :=
  render <$> serialize v.

(** *** JSON.parse *)

Definition isJsonWhiteSpace (c : N) : bool :=
  (c =? 0x09) || (c =? 0x0A) || (c =? 0x0D) || (c =? 0x20).

Definition hexValue (c : N) : option N :=
  if (0x30 <=? c) && (c <=? 0x39) then Some (c - 0x30)
  else if (0x61 <=? c) && (c <=? 0x66) then Some (c - 0x61 + 10)
  else if (0x41 <=? c) && (c <=? 0x46) then Some (c - 0x41 + 10)
  else None.

Definition hex4Value (a b c d : N) : option N :=
  match hexValue a, hexValue b, hexValue c, hexValue d with
  | Some x, Some y, Some z, Some w => Some (((x * 16 + y) * 16 + z) * 16 + w)
  | _, _, _, _ => None
  end.

(** The character named by a one-letter escape. *)
Definition simpleEscape (c : N) : option N :=
  if c =? QUOTE then Some QUOTE
  else if c =? BACKSLASH then Some BACKSLASH
  else if c =? 0x2F then Some 0x2F
  else if c =? 0x62 then Some 0x08
  else if c =? 0x66 then Some 0x0C
  else if c =? 0x6E then Some 0x0A
  else if c =? 0x72 then Some 0x0D
  else if c =? 0x74 then Some 0x09
  else None.

(** The scanner.  [inString] is [Some acc] inside a string literal, [acc]
    being the characters read so far, last first. *)
Fixpoint lexFrom (inString : option jsstring) (s : jsstring)
    : option (list token) :=
  match inString, s with
  | None, [] => Some []
  | Some _, [] => None
  | None, c :: t =>
      if isJsonWhiteSpace c then lexFrom None t
      else if c =? 0x7B then cons TLBrace <$> lexFrom None t
      else if c =? 0x7D then cons TRBrace <$> lexFrom None t
      else if c =? 0x5B then cons TLBracket <$> lexFrom None t
      else if c =? 0x5D then cons TRBracket <$> lexFrom None t
      else if c =? 0x3A then cons TColon <$> lexFrom None t
      else if c =? 0x2C then cons TComma <$> lexFrom None t
      else if c =? QUOTE then lexFrom (Some []) t
      else if c =? 0x6E then
        match t with
        | 0x75 :: 0x6C :: 0x6C :: t' => cons TNull <$> lexFrom None t'
        | _ => None
        end
      else if c =? 0x74 then
        match t with
        | 0x72 :: 0x75 :: 0x65 :: t' => cons TTrue <$> lexFrom None t'
        | _ => None
        end
      else if c =? 0x66 then
        match t with
        | 0x61 :: 0x6C :: 0x73 :: 0x65 :: t' => cons TFalse <$> lexFrom None t'
        | _ => None
        end
      else None
  | Some acc, c :: t =>
      if c =? QUOTE then cons (TString (rev acc)) <$> lexFrom None t
      else if c =? BACKSLASH then
        match t with
        | e :: t' =>
            if e =? 0x75 then
              match t' with
              | h1 :: h2 :: h3 :: h4 :: t'' =>
                  match hex4Value h1 h2 h3 h4 with
                  | Some u => lexFrom (Some (u :: acc)) t''
                  | None => None
                  end
              | _ => None
              end
            else
              match simpleEscape e with
              | Some u => lexFrom (Some (u :: acc)) t'
              | None => None
              end
        | [] => None
        end
      else if c <? 0x20 then None
      else lexFrom (Some (c :: acc)) t
  end.

Definition lex (s : jsstring) : option (list token) := lexFrom None s.

(** [CreateDataProperty] while an object literal is read: a repeated key
    keeps its place and takes the later value. *)
Fixpoint objSet (k : jsstring) (v : jsval) (kvs : list (jsstring * jsval))
    : list (jsstring * jsval) :=
  match kvs with
  | [] => [(k, v)]
  | (k', v') :: rest =>
      if decide (k' = k) then (k, v) :: rest else (k', v') :: objSet k v rest
  end.

(** The grammar, on tokens.  Every call consumes a token, so a budget of
    one call per token is enough. *)
Fixpoint parseValue (fuel : nat) (ts : list token)
    : option (jsval * list token) :=
  match fuel with
  | O => None
  | S fuel =>
      match ts with
      | TNull :: r => Some (Null, r)
      | TTrue :: r => Some (Bool true, r)
      | TFalse :: r => Some (Bool false, r)
      | TString s :: r => Some (Str s, r)
      | TLBracket :: TRBracket :: r => Some (Arr [], r)
      | TLBracket :: r => parseElements fuel r []
      | TLBrace :: TRBrace :: r => Some (Obj [], r)
      | TLBrace :: r => parseMembers fuel r []
      | _ => None
      end
  end
with parseElements (fuel : nat) (ts : list token) (acc : list jsval)
    : option (jsval * list token) :=
  match fuel with
  | O => None
  | S fuel =>
      match parseValue fuel ts with
      | Some (v, TComma :: r) => parseElements fuel r (acc ++ [v])
      | Some (v, TRBracket :: r) => Some (Arr (acc ++ [v]), r)
      | _ => None
      end
  end
with parseMembers (fuel : nat) (ts : list token)
    (acc : list (jsstring * jsval)) : option (jsval * list token) :=
  match fuel with
  | O => None
  | S fuel =>
      match ts with
      | TString k :: TColon :: r =>
          match parseValue fuel r with
          | Some (v, TComma :: r') => parseMembers fuel r' (objSet k v acc)
          | Some (v, TRBrace :: r') => Some (Obj (objSet k v acc), r')
          | _ => None
          end
      | _ => None
      end
  end.

(** [JSON.parse(text)]; [None] is the [SyntaxError]. *)
Definition parse (text : jsstring) : option jsval :=
  match lex text with
  | Some ts =>
      match parseValue (S (length ts)) ts with
      | Some (v, []) => Some v
      | _ => None
      end
  | None => None
  end.

(** What [JSON.stringify] makes of a value before it is written: a
    property that holds [undefined] is dropped, an array element that is
    [undefined] becomes [null]. *)
Fixpoint normalize (v : jsval) : jsval :=
  match v with
  | Arr l =>
      Arr (List.map (fun x => match x with
                              | Undefined => Null
                              | _ => normalize x
                              end) l)
  | Obj kvs =>
      Obj (List.concat
             (List.map (fun kv =>
                match snd kv with
                | Undefined => []
                | _ => [(fst kv, normalize (snd kv))]
                end) kvs))
  | _ => v
  end.

(** An object has each key once. *)
Fixpoint distinctKeys (v : jsval) : bool :=
  match v with
  | Arr l => forallb distinctKeys l
  | Obj kvs =>
      bool_decide (NoDup (List.map fst kvs))
      && forallb (fun kv => distinctKeys (snd kv)) kvs
  | _ => true
  end.

(** [o[k]] *)
Fixpoint lookupProp (k : jsstring) (kvs : list (jsstring * jsval)) : jsval :=
  match kvs with
  | [] => Undefined
  | (k', v) :: rest => if decide (k' = k) then v else lookupProp k rest
  end.

Definition get (o : jsval) (k : jsstring) : jsval :=
  match o with
  | Obj kvs => lookupProp k kvs
  | _ => Undefined
  end.

End Json.

Import Json.

(* ===================================================================== *)
(** * What the handlers share *)
(* ===================================================================== *)

Module Runtime.

(** A [Buffer], as the list of its byte values. *)
Abbreviation buffer := (list N).

(** A computation that returns or throws an [Error] with a message. *)
Inductive result (A : Type) :=
  | Return (a : A)
  | Throw (message : jsstring).

Arguments Return {A} a.
Arguments Throw {A} message.

#[global] Instance result_ret : MRet result := @Return.

#[global] Instance result_bind : MBind result := fun A B k c =>
  match c with
  | Return a => k a
  | Throw m => Throw m
  end.

(** [meta.json] as the three-table handler writes it. *)
Record Meta := {
  fetchedAt : jsstring;
  meta_sdnUrl : jsstring; meta_altUrl : jsstring; meta_addUrl : jsstring;
  count_sdnRows : nat; count_altRows : nat; count_addRows : nat;
  count_entities : nat;
  sdnSha256 : jsstring; altSha256 : jsstring; addSha256 : jsstring
}.

(** The blob store [ofac]: the two keys the functions use. *)
Record Store := {
  dataset_json_gz : option buffer;
  meta_json : option Meta
}.

Definition emptyStore : Store :=
  {| dataset_json_gz := None; meta_json := None |}.

(** What [fuse.search] yields for one hit; the score is a double. *)
Record FuseResult := {
  item : OfacEntity;
  score : option Q
}.

(** One line of [results] in the search response. *)
Record SearchItem := {
  r_score : option Q;
  r_uid : jsstring;
  r_name : jsstring;
  r_type : option jsstring;
  r_programs : list jsstring
}.

(** The JSON body of a response, before [JSON.stringify]: [ErrorBody m] is
    [{ ok: false, error: m }], [NotFoundBody u] is
    [{ ok: false, error: "Not found", uid: u }], the others are the
    bodies with [ok: true]. *)
Inductive Body :=
  | ErrorBody (error : jsstring)
  | NotFoundBody (uid : jsstring)
  | SearchBody (q : jsstring) (count : nat) (results : list SearchItem)
  | EntityBody (entity : OfacEntity)
  | MetaBody (meta : Meta)
  | UpdateBody (meta : Meta)
  | DebugBody (sdnSample altSample addSample : option row)
      (sdn alt add : nat).

(** What the caller of a handler gets: a [Response], or the rejection of
    the handler's promise by an uncaught [Error]. *)
Inductive Outcome :=
  | Response (status : N) (body : Body)
  | Uncaught (message : jsstring).

(** A number, as far as the search handler tells numbers apart: it
    compares the limit with [50] and [-1] and truncates it.  [JFraction f]
    is a number that is not an integer and lies between [f] and [f + 1]. *)
Inductive jsnum :=
  | JNaN
  | JInfinity (positive : bool)
  | JInteger (z : Z)
  | JFraction (floor : Z).

(** The calls a handler makes to its collaborators. *)
Inductive Event :=
  | StoreGet (key : string)
  | FuseSearch (query : jsstring) (limit : jsnum).

End Runtime.

Import Runtime.

(* ===================================================================== *)
(** * The dataset codec *)
(* ===================================================================== *)

Module Codec.

Definition jsOfOption (v : option jsstring) : jsval :=
  match v with
  | Some s => Str s
  | None => Undefined
  end.

Definition jsOfStrings (l : list jsstring) : jsval := Arr (List.map Str l).

(** The object literal that [consolidateAddData] pushes. *)
Definition jsOfAddress (a : Address) : jsval :=
  Obj [(u16 "address", jsOfOption (address a));
       (u16 "city", jsOfOption (city a));
       (u16 "country", jsOfOption (country a))].

(** The object literal that [extractEntities] returns. *)
Definition jsOfEntity (e : OfacEntity) : jsval :=
  Obj [(u16 "uid", Str (uid e));
       (u16 "name", Str (name e));
       (u16 "type", jsOfOption (type e));
       (u16 "programs", jsOfStrings (programs e));
       (u16 "remarks", jsOfOption (remarks e));
       (u16 "aka", jsOfStrings (aka e));
       (u16 "addresses", Arr (List.map jsOfAddress (addresses e)))].

Definition jsOfEntities (l : list OfacEntity) : jsval :=
  Arr (List.map jsOfEntity l).

(** The properties that are left of an entity object once those holding
    [undefined] are dropped; [P], [A] and [D] stand for the three arrays. *)
Definition optionalProp (k : jsstring) (v : option jsstring)
    : list (jsstring * jsval) :=
  match v with
  | Some s => [(k, Str s)]
  | None => []
  end.

Definition entityProps (u n : jsstring) (t r : option jsstring)
    (P A D : jsval) : list (jsstring * jsval) :=
  [(u16 "uid", Str u); (u16 "name", Str n)]
  ++ optionalProp (u16 "type") t
  ++ [(u16 "programs", P)]
  ++ optionalProp (u16 "remarks") r
  ++ [(u16 "aka", A); (u16 "addresses", D)].

(** Reading a parsed value at the type [OfacEntity[]]: a required field
    must hold a string or an array, an optional field reads as [undefined]
    when its key is missing.  [None] means that the value is not of that
    type. *)
Definition asString (v : jsval) : option jsstring :=
  match v with
  | Str s => Some s
  | _ => None
  end.

Definition asOptionalString (v : jsval) : option (option jsstring) :=
  match v with
  | Str s => Some (Some s)
  | Undefined => Some None
  | _ => None
  end.

Fixpoint sequence {A} (l : list (option A)) : option (list A) :=
  match l with
  | [] => Some []
  | Some x :: t =>
      match sequence t with
      | Some r => Some (x :: r)
      | None => None
      end
  | None :: _ => None
  end.

Definition asArray {A} (f : jsval -> option A) (v : jsval) : option (list A) :=
  match v with
  | Arr l => sequence (List.map f l)
  | _ => None
  end.

Definition addressOfJs (v : jsval) : option Address :=
  match v with
  | Obj _ =>
      match asOptionalString (get v (u16 "address")),
            asOptionalString (get v (u16 "city")),
            asOptionalString (get v (u16 "country")) with
      | Some a, Some c, Some n =>
          Some {| address := a; city := c; country := n |}
      | _, _, _ => None
      end
  | _ => None
  end.

Definition entityOfJs (v : jsval) : option OfacEntity :=
  match v with
  | Obj _ =>
      match asString (get v (u16 "uid")), asString (get v (u16 "name")),
            asOptionalString (get v (u16 "type")),
            asArray asString (get v (u16 "programs")),
            asOptionalString (get v (u16 "remarks")),
            asArray asString (get v (u16 "aka")),
            asArray addressOfJs (get v (u16 "addresses")) with
      | Some u, Some n, Some t, Some p, Some r, Some a, Some d =>
          Some {| uid := u; name := n; type := t; programs := p;
                  remarks := r; aka := a; addresses := d |}
      | _, _, _, _, _, _, _ => None
      end
  | _ => None
  end.

Definition entitiesOfJs (v : jsval) : option (list OfacEntity) :=
  asArray entityOfJs v.

(** [String.prototype.isWellFormed]: no surrogate stands alone. *)
Fixpoint isWellFormed (s : jsstring) : bool :=
  match s with
  | [] => true
  | c :: t =>
      if isHighSurrogate c then
        match t with
        | d :: t' => isLowSurrogate d && isWellFormed t'
        | [] => false
        end
      else negb (isLowSurrogate c) && isWellFormed t
  end.

Section Codec.

(** [zlib.gzipSync], [zlib.gunzipSync] (which throws on a corrupt
    stream), [Buffer.from(s, "utf8")] and [buf.toString("utf8")]. *)
Variable gzipSync : buffer -> buffer.
Variable gunzipSync : buffer -> option buffer.
Variable utf8Encode : jsstring -> buffer.
Variable utf8Decode : buffer -> jsstring.

(** [zlib.gzipSync(Buffer.from(JSON.stringify(entities), "utf8"))];
    [None] only if [JSON.stringify] were to answer [undefined]. *)
Definition encode (entities : list OfacEntity) : option buffer :=
  match stringify (jsOfEntities entities) with
  | Some payloadJson => Some (gzipSync (utf8Encode payloadJson))
  | None => None
  end.

(** [JSON.parse(zlib.gunzipSync(Buffer.from(gz)).toString("utf8"))];
    [None] when one of the two throws. *)
Definition decodeJs (gz : buffer) : option jsval :=
  match gunzipSync gz with
  | Some raw => parse (utf8Decode raw)
  | None => None
  end.

(** The decoded value, read [as OfacEntity[]]. *)
Definition decode (gz : buffer) : option (list OfacEntity) :=
  match decodeJs gz with
  | Some v => entitiesOfJs v
  | None => None
  end.

End Codec.

End Codec.

Import Codec.

(* ===================================================================== *)
(** * ofac-update.ts *)
(* ===================================================================== *)

(** The single-table version of the function, whose own copy of
    [normalizeHeader] predates the hyphen rule. *)
Module UpdateLegacy.

Section NormalizeHeader.

Variable toLowerUnicode : jsstring -> jsstring.

(** The class [[^\w\s]]. *)
Definition isPunctuation (c : N) : bool :=
  negb (isWordChar c || isWhiteSpace c).

Definition normalizeHeader (header : jsstring) : jsstring :=
  replaceRuns isWhiteSpace (u16 "_")
    (replaceClass isPunctuation []
      (replaceClass (N.eqb BOM) []
        (toLowerCase toLowerUnicode (trim header)))).

End NormalizeHeader.

End UpdateLegacy.

(** The three-table version. *)
Module Update.

Definition OFAC_EXPORT_BASE : jsstring :=
  u16 "https://sanctionslistservice.ofac.treas.gov/api/PublicationPreview/exports".

Definition sdnUrl : jsstring := OFAC_EXPORT_BASE ++ u16 "/SDN.CSV".
Definition altUrl : jsstring := OFAC_EXPORT_BASE ++ u16 "/ALT.CSV".
Definition addUrl : jsstring := OFAC_EXPORT_BASE ++ u16 "/ADD.CSV".

(** What [fetch(url)] does: the promise rejects, or it resolves to a
    response, whose [text()] may reject in turn ([None]). *)
Inductive FetchResult :=
  | FetchRejected (message : jsstring)
  | FetchResolved (ok : bool) (status : N) (statusText : jsstring)
      (text : option jsstring).

(** The query of the request: [url.searchParams.get("debug")]. *)
Record Request := {
  debug : option jsstring
}.

Section Handler.

Variable fetch : jsstring -> FetchResult.
(** [parse] of csv-parse/sync, given the [columns] callback; it throws on
    text that is not CSV. *)
Variable csvParseSync : (jsstring -> jsstring) -> jsstring -> result (list row).
Variable toLowerUnicode : jsstring -> jsstring.
Variable gzipSync : buffer -> buffer.
Variable utf8Encode : jsstring -> buffer.
Variable sha256 : jsstring -> jsstring.

Definition fetchText (url : jsstring) : result jsstring :=
  match fetch url with
  | FetchRejected m => Throw m
  | FetchResolved ok status statusText text =>
      let body := default [] text in
      if negb ok then
        Throw (u16 "OFAC fetch failed " ++ u16 (pretty status) ++ u16 " "
               ++ statusText ++ u16 " :: " ++ url ++ [0x0A]
               ++ firstn 500 body)
      else Return body
  end.

Definition parseCSV (csvText : jsstring) : result (list row) :=
  csvParseSync (normalizeHeader toLowerUnicode) csvText.

(** The body of the [try] block: the response, and what is written to the
    store on the way ([None] in debug mode, which returns before any
    write). *)
Definition tryBlock (req : Request) (now : jsstring)
    : result (Body * option (buffer * Meta)) :=
  sdnCsv ← fetchText sdnUrl;
  altCsv ← fetchText altUrl;
  addCsv ← fetchText addUrl;
  sdnRows ← parseCSV sdnCsv;
  altRows ← parseCSV altCsv;
  addRows ← parseCSV addCsv;
  if decide (debug req = Some (u16 "1")) then
    Return (DebugBody (head sdnRows) (head altRows) (head addRows)
              (length sdnRows) (length altRows) (length addRows), None)
  else
    let entities := extractEntities sdnRows in
    let entities := consolidateAltData entities altRows in
    let entities := consolidateAddData entities addRows in
    match stringify (jsOfEntities entities) with
    | None => Throw (u16 "The first argument must be of type string")
    | Some payloadJson =>
        let payloadGz := gzipSync (utf8Encode payloadJson) in
        let meta :=
          {| fetchedAt := now;
             meta_sdnUrl := sdnUrl; meta_altUrl := altUrl;
             meta_addUrl := addUrl;
             count_sdnRows := length sdnRows;
             count_altRows := length altRows;
             count_addRows := length addRows;
             count_entities := length entities;
             sdnSha256 := sha256 sdnCsv;
             altSha256 := sha256 altCsv;
             addSha256 := sha256 addCsv |} in
        Return (UpdateBody meta, Some (payloadGz, meta))
    end.

(** The handler: the two [store.set] calls of a completed run, or the
    [catch] clause, which answers 500 and writes nothing. *)
Definition handler (req : Request) (now : jsstring) (store : Store)
    : Outcome * Store :=
  match tryBlock req now with
  | Return (body, Some (payloadGz, meta)) =>
      (Response 200 body,
       {| dataset_json_gz := Some payloadGz; meta_json := Some meta |})
  | Return (body, None) => (Response 200 body, store)
  | Throw m => (Response 500 (ErrorBody m), store)
  end.

End Handler.

End Update.

(* ===================================================================== *)
(** * fuse.js *)
(* ===================================================================== *)

(** The search library is not part of the repository; the handler is
    written against [fuse.search(q, { limit })] as a black box.  This
    module records the one rule of the library that the handler relies
    on: the ranked hits are cut with [results.slice(0, limit)] when
    [limit] is a number greater than [-1], and returned whole
    otherwise. *)
Module Fuse.

(** [limit > -1] *)
Definition greaterThanMinusOne (x : jsnum) : bool :=
  match x with
  | JNaN => false
  | JInfinity positive => positive
  | JInteger z => (-1 <? z)%Z
  | JFraction f => (-1 <=? f)%Z
  end.

(** The end index of [slice(0, limit)] for such a limit: it is truncated
    towards zero and capped by the length. *)
Definition sliceEnd (x : jsnum) (len : nat) : nat :=
  match x with
  | JInteger z => Z.to_nat z
  | JFraction f => Z.to_nat f
  | JInfinity true => len
  | _ => 0%nat
  end.

Definition applyLimit {A} (limit : jsnum) (results : list A) : list A :=
  if greaterThanMinusOne limit
  then firstn (sliceEnd limit (length results)) results
  else results.

(** [search] with the ranking left open: [allHits] gives every hit, best
    first. *)
Definition search (allHits : list OfacEntity -> jsstring -> list FuseResult)
    (entities : list OfacEntity) (q : jsstring) (limit : jsnum)
    : list FuseResult :=
  applyLimit limit (allHits entities q).

(** The number of results that a limit allows, for a limit that is a
    number and not negative. *)
Definition limitValue (limit : jsnum) : option nat :=
  match limit with
  | JInteger z => if (0 <=? z)%Z then Some (Z.to_nat z) else None
  | JFraction f => if (0 <=? f)%Z then Some (Z.to_nat f) else None
  | _ => None
  end.

(** What the specification grants of the black box: the result is bounded
    by a caller-supplied limit. *)
Definition respectsLimit
    (fuseSearch : list OfacEntity -> jsstring -> jsnum -> list FuseResult)
    : Prop :=
  forall entities q limit n,
    limitValue limit = Some n ->
    (length (fuseSearch entities q limit) <= n)%nat.

End Fuse.

(* ===================================================================== *)
(** * ofac-search.ts *)
(* ===================================================================== *)

Module Search.

(** The module variable [cached]; the fuse index is determined by the
    entities it was built from. *)
Record Cached := {
  loadedAt : Z;
  entities : list OfacEntity
}.

(** [url.searchParams.get("q")] and [url.searchParams.get("limit")]. *)
Record Request := {
  q : option jsstring;
  limit : option jsstring
}.

Definition isDigit (c : N) : bool := (0x30 <=? c) && (c <=? 0x39).

Fixpoint digitsValue (acc : Z) (s : jsstring) : Z :=
  match s with
  | [] => acc
  | c :: t => digitsValue (10 * acc + Z.of_N (c - 0x30)) t
  end.

Definition isDigits (s : jsstring) : bool := nonEmpty s && forallb isDigit s.

Section Handler.

Variable gunzipSync : buffer -> option buffer.
Variable utf8Decode : buffer -> jsstring.
(** [new Fuse(entities, options).search(q, { limit })] *)
Variable fuseSearch : list OfacEntity -> jsstring -> jsnum -> list FuseResult.
(** [Number(s)] for a string that is not a signed run of decimal digits:
    a literal with a fraction, an exponent or a radix prefix, [Infinity],
    or text that gives [NaN]. *)
Variable numberOther : jsstring -> jsnum.

(** [Number(s)].  An integer literal is read exactly; rounding to a double
    does not change how it compares with [50] and [-1]. *)
Definition Number (s : jsstring) : jsnum :=
  match trim s with
  | [] => JInteger 0
  | c :: r =>
      if isDigits (c :: r) then JInteger (digitsValue 0 (c :: r))
      else if (c =? 0x2B) && isDigits r then JInteger (digitsValue 0 r)
      else if (c =? 0x2D) && isDigits r then JInteger (- digitsValue 0 r)
      else numberOther s
  end.

(** [Math.min(x, 50)] *)
Definition mathMin50 (x : jsnum) : jsnum :=
  match x with
  | JNaN => JNaN
  | JInfinity true => JInteger 50
  | JInfinity false => x
  | JInteger z => if (z <=? 50)%Z then x else JInteger 50
  | JFraction f => if (f <? 50)%Z then x else JInteger 50
  end.

Definition TTL : Z := 10 * 60 * 1000.

Definition loadDataset (store : Store) (now : Z) (cached : option Cached)
    : result (list OfacEntity) * option Cached * list Event :=
  let load :=
    match dataset_json_gz store with
    | None =>
        (Throw (u16 "No dataset yet. Call /api/update or wait for schedule."),
         cached, [StoreGet "dataset.json.gz"])
    | Some gz =>
        match decode gunzipSync utf8Decode gz with
        | Some entities =>
            (Return entities,
             Some {| loadedAt := now; entities := entities |},
             [StoreGet "dataset.json.gz"])
        | None =>
            (Throw (u16 "unexpected end of file"), cached,
             [StoreGet "dataset.json.gz"])
        end
    end in
  match cached with
  | Some c =>
      if (now - loadedAt c <? TTL)%Z then (Return (entities c), cached, [])
      else load
  | None => load
  end.

Definition searchItem (r : FuseResult) : SearchItem :=
  {| r_score := score r;
     r_uid := uid (item r);
     r_name := name (item r);
     r_type := type (item r);
     r_programs := programs (item r) |}.

Definition handler (req : Request) (now : Z) (store : Store)
    (cached : option Cached) : Outcome * option Cached * list Event :=
  let q := trim (orElse (q req) []) in
  let limit := mathMin50 (Number (orElse (limit req) (u16 "20"))) in
  if negb (nonEmpty q) then
    (Response 400 (ErrorBody (u16 "Missing ?q=")), cached, [])
  else
    match loadDataset store now cached with
    | (Return entities, cached', events) =>
        let results := List.map searchItem (fuseSearch entities q limit) in
        (Response 200 (SearchBody q (length results) results), cached',
         events ++ [FuseSearch q limit])
    | (Throw m, cached', events) => (Uncaught m, cached', events)
    end.

End Handler.

End Search.

(* ===================================================================== *)
(** * ofac-entity.ts *)
(* ===================================================================== *)

Module Entity.

(** The module variable [cachedEntities]. *)
Record Cached := {
  loadedAt : Z;
  byId : gmap jsstring OfacEntity
}.

(** [new Map(entities.map(e => [e.uid, e]))]: a later entry replaces an
    earlier one with the same key. *)
Definition mapById (entities : list OfacEntity) : gmap jsstring OfacEntity :=
  foldl (fun m e => <[uid e := e]> m) ∅ entities.

Section Handler.

Variable gunzipSync : buffer -> option buffer.
Variable utf8Decode : buffer -> jsstring.

Definition loadById (store : Store) (now : Z) (cached : option Cached)
    : result (gmap jsstring OfacEntity) * option Cached * list Event :=
  let load :=
    match dataset_json_gz store with
    | None =>
        (Throw (u16 "No dataset yet."), cached, [StoreGet "dataset.json.gz"])
    | Some gz =>
        match decode gunzipSync utf8Decode gz with
        | Some entities =>
            let byId := mapById entities in
            (Return byId, Some {| loadedAt := now; byId := byId |},
             [StoreGet "dataset.json.gz"])
        | None =>
            (Throw (u16 "unexpected end of file"), cached,
             [StoreGet "dataset.json.gz"])
        end
    end in
  match cached with
  | Some c =>
      if (now - loadedAt c <? Search.TTL)%Z then (Return (byId c), cached, [])
      else load
  | None => load
  end.

(** [uid] is [context.params?.uid]. *)
Definition handler (uid : option jsstring) (now : Z) (store : Store)
    (cached : option Cached) : Outcome * option Cached * list Event :=
  match uid with
  | Some (c :: u) =>
      match loadById store now cached with
      | (Return byId, cached', events) =>
          match byId !! (c :: u) with
          | Some entity => (Response 200 (EntityBody entity), cached', events)
          | None =>
              (Response 404 (NotFoundBody (c :: u)), cached', events)
          end
      | (Throw m, cached', events) => (Uncaught m, cached', events)
      end
  | _ => (Response 400 (ErrorBody (u16 "Missing :uid")), cached, [])
  end.

End Handler.

End Entity.

(* ===================================================================== *)
(** * ofac-meta.ts *)
(* ===================================================================== *)

Module MetaFn.

Definition handler (store : Store) : Outcome * list Event :=
  match meta_json store with
  | None =>
      (Response 404
         (ErrorBody (u16 "No dataset yet. Wait for schedule or call /api/update.")),
       [StoreGet "meta.json"])
  | Some meta => (Response 200 (MetaBody meta), [StoreGet "meta.json"])
  end.

End MetaFn.

(* ===================================================================== *)
(** * The read path as one system *)
(* ===================================================================== *)

Module ReadPath.

Inductive ReadRequest :=
  | SearchRequest (r : Search.Request)
  | EntityRequest (uid : option jsstring)
  | MetaRequest.

(** The module variables of a warm function instance; both start as
    [null]. *)
Record Instance := {
  searchCache : option Search.Cached;
  entityCache : option Entity.Cached
}.

Definition coldInstance : Instance :=
  {| searchCache := None; entityCache := None |}.

Section ReadPath.

Variable gunzipSync : buffer -> option buffer.
Variable utf8Decode : buffer -> jsstring.
Variable fuseSearch : list OfacEntity -> jsstring -> jsnum -> list FuseResult.
Variable numberOther : jsstring -> jsnum.

Definition serve (store : Store) (inst : Instance) (now : Z)
    (req : ReadRequest) : Outcome * Instance :=
  match req with
  | SearchRequest r =>
      let '(out, c, _) :=
        Search.handler gunzipSync utf8Decode fuseSearch numberOther r now
          store (searchCache inst) in
      (out, {| searchCache := c; entityCache := entityCache inst |})
  | EntityRequest u =>
      let '(out, c, _) :=
        Entity.handler gunzipSync utf8Decode u now store (entityCache inst) in
      (out, {| searchCache := searchCache inst; entityCache := c |})
  | MetaRequest => (fst (MetaFn.handler store), inst)
  end.

(** A sequence of requests, each with the time at which it is served,
    against a store that no update run writes to in the meantime. *)
Fixpoint serveAll (store : Store) (inst : Instance)
    (reqs : list (Z * ReadRequest)) : list Outcome :=
  match reqs with
  | [] => []
  | (now, req) :: rest =>
      let '(out, inst') := serve store inst now req in
      out :: serveAll store inst' rest
  end.

End ReadPath.

End ReadPath.

(* ===================================================================== *)
(** * The specification's vocabulary *)
(* ===================================================================== *)

(** Definitions that follow the words of the design specification; the
    theorems below compare them with the code. *)
Module Spec.

(** A cell that holds a value which is not blank. *)
Definition hasValue (c : cell) : bool :=
  match c with
  | CString v => negb (isBlank v)
  | CUndefined | CNull => false
  end.

(** Field Resolver: some candidate key resolves to a non-blank value. *)
Definition resolves (r : row) (keys : list jsstring) : bool :=
  existsb (fun k => hasValue (rowGet r k)) keys.

(** A primary row that yields an entity: uid and name both resolve. *)
Definition acceptedRow (r : row) : bool :=
  resolves r UID_KEYS && resolves r NAME_KEYS.

(** The position of the last entity with a given uid. *)
Fixpoint lastIndexOf (u : jsstring) (entities : list OfacEntity) : option nat :=
  match entities with
  | [] => None
  | e :: t =>
      match lastIndexOf u t with
      | Some j => Some (S j)
      | None => if decide (uid e = u) then Some 0%nat else None
      end
  end.

(** Field Resolver (§4.2): "returns the first present, non-blank value" -
    the cell of the first candidate key that holds a value which is not
    blank; absent if there is no such key. *)
Definition resolve (r : row) (keys : list jsstring) : option jsstring :=
  match List.filter (fun k => hasValue (rowGet r k)) keys with
  | k :: _ =>
      match rowGet r k with
      | CString v => Some v
      | CUndefined | CNull => None
      end
  | [] => None
  end.

(** An alias row with a valid payload (§4.4): its uid and its alternate
    name both resolve; the payload is the uid and the name. *)
Definition aliasPayload (r : row) : option (jsstring * jsstring) :=
  match resolve r UID_KEYS, resolve r ALT_NAME_KEYS with
  | Some u, Some a => Some (u, a)
  | _, _ => None
  end.

(** An address row with a valid payload (§4.5): its uid resolves and at
    least one of address, city and country does; the payload is the uid
    and the record of the three, each possibly absent. *)
Definition addressPayload (r : row) : option (jsstring * Address) :=
  match resolve r UID_KEYS with
  | Some u =>
      let a := resolve r ADDRESS_KEYS in
      let c := resolve r CITY_KEYS in
      let n := resolve r COUNTRY_KEYS in
      if resolves r ADDRESS_KEYS || resolves r CITY_KEYS
         || resolves r COUNTRY_KEYS
      then Some (u, {| address := a; city := c; country := n |})
      else None
  | None => None
  end.

(** The payloads of the rows that carry uid [u], in row order. *)
Fixpoint payloadsFor {A} (payload : row -> option (jsstring * A))
    (u : jsstring) (rows : list row) : list A :=
  match rows with
  | [] => []
  | r :: rest =>
      match payload r with
      | Some (u', a) =>
          if decide (u' = u) then a :: payloadsFor payload u rest
          else payloadsFor payload u rest
      | None => payloadsFor payload u rest
      end
  end.

(** A row with a valid payload whose uid is the uid of some entity. *)
Definition joins {A} (payload : row -> option (jsstring * A))
    (entities : list OfacEntity) (r : row) : bool :=
  match payload r with
  | Some (u, _) => bool_decide (u ∈ List.map uid entities)
  | None => false
  end.

(** A row whose uid is missing or is the uid of no entity. *)
Definition unmatched (entities : list OfacEntity) (r : row) : bool :=
  match resolve r UID_KEYS with
  | Some u => negb (bool_decide (u ∈ List.map uid entities))
  | None => true
  end.

Definition appendAka (l : list jsstring) (e : OfacEntity) : OfacEntity :=
  {| uid := uid e; name := name e; type := type e; programs := programs e;
     remarks := remarks e; aka := aka e ++ l; addresses := addresses e |}.

Definition appendAddresses (l : list Address) (e : OfacEntity) : OfacEntity :=
  {| uid := uid e; name := name e; type := type e; programs := programs e;
     remarks := remarks e; aka := aka e; addresses := addresses e ++ l |}.

(** The loop that both consolidators run, with the payload of a row and
    the push on an entity as parameters. *)
Section JoinLoop.

Context {A : Type}.
Variable payload : row -> option (jsstring * A).
Variable push : A -> OfacEntity -> OfacEntity.

Definition joinStep (m : gmap jsstring nat) (cur : list OfacEntity)
    (r : row) : list OfacEntity :=
  match payload r with
  | Some (u, a) =>
      match m !! u with
      | Some i => alter (push a) i cur
      | None => cur
      end
  | None => cur
  end.

(** The payloads that the loop sends to position [i]. *)
Fixpoint sentTo (m : gmap jsstring nat) (i : nat) (rows : list row) : list A :=
  match rows with
  | [] => []
  | r :: rest =>
      match payload r with
      | Some (u, a) =>
          if decide (m !! u = Some i) then a :: sentTo m i rest
          else sentTo m i rest
      | None => sentTo m i rest
      end
  end.

End JoinLoop.

(** The sum of a measure over a collection; with the two measures below,
    the number of alias names and of address records it holds. *)
Definition totalSize (size : OfacEntity -> nat) (l : list OfacEntity) : nat :=
  list_sum (List.map size l).

Definition akaCount (e : OfacEntity) : nat := length (aka e).
Definition addressCount (e : OfacEntity) : nat := length (addresses e).

(** *** Error conditions (§7) *)

Fixpoint startsWith (prefix s : jsstring) : bool :=
  match prefix, s with
  | [], _ => true
  | p :: prefix', c :: s' => (p =? c) && startsWith prefix' s'
  | _ :: _, [] => false
  end.

(** The message of the error that the caller is given, if any. *)
Definition errorMessage (o : Outcome) : option jsstring :=
  match o with
  | Uncaught m => Some m
  | Response _ (ErrorBody m) => Some m
  | Response _ (NotFoundBody _) => Some (u16 "Not found")
  | Response _ _ => None
  end.

(** "Dataset absent on read": a "no data available yet" condition. *)
Definition isNoDataYet (o : Outcome) : bool :=
  match errorMessage o with
  | Some m => startsWith (u16 "No dataset yet") m
  | None => false
  end.

(** "Entity-not-found on lookup". *)
Definition isNotFound (o : Outcome) : bool :=
  match o with
  | Response status (NotFoundBody _) => status =? 404
  | _ => false
  end.

(** A query parameter that is absent, empty or whitespace-only. *)
Definition blankQuery (q : option jsstring) : bool :=
  match q with
  | None => true
  | Some s => forallb isWhiteSpace s
  end.

(** A read request that carries what its endpoint requires. *)
Definition wellFormedRead (r : ReadPath.ReadRequest) : bool :=
  match r with
  | ReadPath.SearchRequest r => negb (blankQuery (Search.q r))
  | ReadPath.EntityRequest (Some (_ :: _)) => true
  | ReadPath.EntityRequest _ => false
  | ReadPath.MetaRequest => true
  end.

(** A fetch that does not deliver the table. *)
Definition fetchFails (r : Update.FetchResult) : bool :=
  match r with
  | Update.FetchRejected _ => true
  | Update.FetchResolved ok _ _ _ => negb ok
  end.

(** *** Header Normalizer (§4.1) *)

(** The White_Space property of Unicode; unlike [\s] it does not hold of
    the byte-order mark. *)
Definition unicodeWhiteSpace (c : N) : bool :=
  isWhiteSpace c && negb (c =? BOM).

Definition isAlphanumeric (c : N) : bool :=
  ((0x41 <=? c) && (c <=? 0x5A)) || ((0x61 <=? c) && (c <=? 0x7A))
  || ((0x30 <=? c) && (c <=? 0x39)).

Definition UNDERSCORE : N := 0x5F.

Fixpoint dropWhile (p : N -> bool) (s : jsstring) : jsstring :=
  match s with
  | c :: t => if p c then dropWhile p t else s
  | [] => []
  end.

Section HeaderSpec.

(** The two ways to read the words: which characters are whitespace, and
    whether one leading byte-order mark or every leading one is meant. *)
Variable whitespace : N -> bool.
Variable everyLeadingBom : bool.
Variable lowercase : jsstring -> jsstring.

(** "strip a leading byte-order-mark if present" *)
Definition stripLeadingBom (s : jsstring) : jsstring :=
  match s with
  | c :: t =>
      if c =? BOM
      then if everyLeadingBom then dropWhile (N.eqb BOM) t else t
      else s
  | [] => []
  end.

(** "trim surrounding whitespace" *)
Definition trimSurrounding (s : jsstring) : jsstring :=
  rev (dropWhile whitespace (rev (dropWhile whitespace s))).

(** "remove all characters that are not alphanumeric, underscore,
    whitespace, or hyphen" *)
Definition isKept (c : N) : bool :=
  isAlphanumeric c || (c =? UNDERSCORE) || whitespace c || (c =? HYPHEN).

(** "collapse any run of whitespace or hyphens into a single underscore":
    the first character of a run becomes the underscore, the others go. *)
Definition collapseRuns (isRun : N -> bool) (s : jsstring) : jsstring :=
  flat_map
    (fun pc : option N * N =>
       let (prev, c) := pc in
       if isRun c
       then match prev with
            | Some p => if isRun p then [] else [UNDERSCORE]
            | None => [UNDERSCORE]
            end
       else [c])
    (combine (None :: List.map Some s) s).

Definition normalizeHeaderSpec (header : jsstring) : jsstring :=
  collapseRuns (fun c => whitespace c || (c =? HYPHEN))
    (List.filter isKept
      (lowercase (trimSurrounding (stripLeadingBom header)))).

End HeaderSpec.

(** The algorithm with the byte-order mark treated as the code treats it:
    it is whitespace for the trim, and wherever else it occurs it is
    removed. *)
Definition normalizeHeaderAmended (lowercase : jsstring -> jsstring)
    (header : jsstring) : jsstring :=
  collapseRuns (fun c => isWhiteSpace c || (c =? HYPHEN))
    (List.filter (isKept isWhiteSpace)
      (List.filter (fun c => negb (c =? BOM))
        (lowercase (trim header)))).

(** The same for the copy in the single-table function, for which a
    hyphen is punctuation. *)
Definition normalizeHeaderLegacy (lowercase : jsstring -> jsstring)
    (header : jsstring) : jsstring :=
  collapseRuns isWhiteSpace
    (List.filter (fun c => isAlphanumeric c || (c =? UNDERSCORE) || isWhiteSpace c)
      (List.filter (fun c => negb (c =? BOM))
        (lowercase (trim header)))).

End Spec.

Import Spec.

(* ===================================================================== *)
(** * Concrete inputs *)
(* ===================================================================== *)

Module Samples.

Definition mkRow (l : list (string * string)) : row :=
  list_to_map (List.map (fun kv => (u16 (fst kv), CString (u16 (snd kv)))) l).

(** The scenario of the specification. *)
Definition sdnRows : list row :=
  [mkRow [("ent_num", "123"); ("sdn_name", "John Doe")]%string].
Definition altRows : list row :=
  [mkRow [("ent_num", "123"); ("alt_name", "Johnny Doe")]%string].
Definition addRows : list row :=
  [mkRow [("ent_num", "123"); ("address", "123 Main St"); ("city", "NY")]%string].

(** A primary table in which one identifier occurs twice. *)
Definition duplicateRows : list row :=
  [mkRow [("ent_num", "7"); ("sdn_name", "First")]%string;
   mkRow [("ent_num", "7"); ("sdn_name", "Second")]%string].

(** Alias rows for a known and for an unknown identifier. *)
Definition aliasRows7 : list row :=
  [mkRow [("ent_num", "7"); ("alt_name", "Seven")]%string;
   mkRow [("ent_num", "8"); ("alt_name", "Eight")]%string].

Definition addressRows7 : list row :=
  [mkRow [("ent_num", "7"); ("city", "Lima")]%string;
   mkRow [("ent_num", "8"); ("city", "Oslo")]%string].

(** A codec that stores the text as it is: enough to run the pipeline. *)
Definition storeSync (b : buffer) : buffer := b.
Definition unstoreSync (b : buffer) : option buffer := Some b.
Definition unitsEncode (s : jsstring) : buffer := s.
Definition unitsDecode (b : buffer) : jsstring := b.

(** An entity without optional fields and one with all of them. *)
Definition bare : OfacEntity :=
  {| uid := u16 "1"; name := u16 "A"; type := None; programs := [];
     remarks := None; aka := []; addresses := [] |}.

Definition full : OfacEntity :=
  {| uid := u16 "2"; name := u16 "B" ++ [QUOTE; BACKSLASH];
     type := Some (u16 "Individual");
     programs := [u16 "SDN"; u16 "CAPTA"]; remarks := Some [];
     aka := [[0xD83D; 0xDE00]; [0xD800; 0x09]];
     addresses := [ {| address := None; city := Some (u16 "Lima");
                       country := None |};
                    {| address := None; city := None; country := None |} ] |}.

(** The export host answers for the primary table and has no alias
    table. *)
Definition fetchAltMissing (url : jsstring) : Update.FetchResult :=
  if decide (url = Update.altUrl)
  then Update.FetchResolved false 404 (u16 "Not Found") (Some [])
  else Update.FetchResolved true 200 (u16 "OK") (Some (u16 "ent_num,sdn_name")).

Definition csvNoRows (columns : jsstring -> jsstring) (text : jsstring)
    : result (list row) := Return [].

Definition noHash (text : jsstring) : jsstring := [].

(** A store whose dataset holds 51 entities, a search in which every
    entity is a hit, and a request for at most [-1] results. *)
Definition corpus51 : list OfacEntity := replicate 51 bare.

Definition store51 : Store :=
  {| dataset_json_gz := encode storeSync unitsEncode corpus51;
     meta_json := None |}.

Definition everyEntityHits (entities : list OfacEntity) (q : jsstring)
    : list FuseResult :=
  List.map (fun e => {| item := e; score := None |}) entities.

Definition notANumber (s : jsstring) : jsnum := JNaN.

(** A store whose dataset holds two entities, and a request whose [q] has
    a space on either side. *)
Definition store2 : Store :=
  {| dataset_json_gz := encode storeSync unitsEncode [bare; full];
     meta_json := None |}.

Definition paddedRequest : Search.Request :=
  {| Search.q := Some (u16 " a "); Search.limit := None |}.

Definition minusOneRequest : Search.Request :=
  {| Search.q := Some (u16 "a"); Search.limit := Some (u16 "-1") |}.

(** A header with a byte-order mark after a leading space and another
    one between two letters. *)
Definition bomHeader : jsstring := [0x20; BOM; 0x20; 0x61; BOM; 0x62].

(** A case conversion for strings with characters outside ASCII that have
    no lower-case form of their own. *)
Definition caseless (s : jsstring) : jsstring := s.

End Samples.

(* ===================================================================== *)
(** * The update function that tolerates missing auxiliary tables *)
(* ===================================================================== *)

(** The version of the update function that reads the raw column names,
    keeps the entities in a [Map] keyed by uid and treats ALT.CSV and
    ADD.CSV as optional. *)
Module UpdateSibling.

(** A row of [parse(text, { columns: true, ... })]: the cells by the
    column names of the file. *)
Abbreviation row := (gmap jsstring jsstring).

(** [a || b] on values of type [string | undefined]. *)
Definition or_ (a b : option jsstring) : option jsstring :=
  if truthy a then a else b.

Infix "|||" := or_ (at level 50, left associativity).

(** The string that a truthy [string | undefined] is. *)
Definition the (v : option jsstring) : jsstring := default [] v.

Definition normalizeProgramField (v : option jsstring) : list jsstring :=
  if negb (truthy v) then []
  else List.filter nonEmpty (List.map trim (splitRuns isProgramSeparator (the v))).

(** A [Map<string, OfacEntity>]: its entries in insertion order.  [set]
    on a key that is present replaces the value where it stands. *)
Abbreviation entityTable := (list (jsstring * OfacEntity)).

Fixpoint mapSet (k : jsstring) (v : OfacEntity) (m : entityTable) : entityTable :=
  match m with
  | [] => [(k, v)]
  | (k', v') :: t =>
      if decide (k' = k) then (k, v) :: t else (k', v') :: mapSet k v t
  end.

Fixpoint mapGet (k : jsstring) (m : entityTable) : option OfacEntity :=
  match m with
  | [] => None
  | (k', v') :: t => if decide (k' = k) then Some v' else mapGet k t
  end.

(** A change made to the object that the map holds for [k]. *)
Fixpoint mapUpdate (k : jsstring) (f : OfacEntity -> OfacEntity)
    (m : entityTable) : entityTable :=
  match m with
  | [] => []
  | (k', v') :: t =>
      if decide (k' = k) then (k', f v') :: t else (k', v') :: mapUpdate k f t
  end.

(** [Array.from(entities.values())] *)
Definition values (m : entityTable) : list OfacEntity := List.map snd m.

(** The uid and the name that the first loop reads from a row. *)
Definition sdnUid (r : row) : option jsstring :=
  r !! u16 "ent_num" ||| r !! u16 "ENT_NUM" ||| r !! u16 "uid" ||| r !! u16 "UID".

Definition sdnName (r : row) : option jsstring :=
  r !! u16 "sdn_name" ||| r !! u16 "SDN_NAME" ||| r !! u16 "name"
  ||| r !! u16 "NAME".

(** The object literal that the first loop stores for a row. *)
Definition entityOf (r : row) : OfacEntity :=
  let uid := sdnUid r in
  let name := sdnName r in
  let type :=
    r !! u16 "sdn_type" ||| r !! u16 "SDN_TYPE" ||| r !! u16 "type"
    ||| r !! u16 "TYPE" in
  let programs :=
    normalizeProgramField (r !! u16 "program" ||| r !! u16 "PROGRAM") in
  let remarks := r !! u16 "remarks" ||| r !! u16 "REMARKS" in
  {| Parser.uid := the uid; name := the name; type := type;
     programs := programs; remarks := remarks; aka := []; addresses := [] |}.

(** The body of the loop over the rows of SDN.CSV. *)
Definition sdnStep (entities : entityTable) (r : row) : entityTable :=
  let uid := sdnUid r in
  let name := sdnName r in
  if negb (truthy uid) || negb (truthy name) then entities
  else mapSet (the uid) (entityOf r) entities.

(** The uid that the second and the third loop read from a row. *)
Definition auxUid (r : row) : option jsstring :=
  r !! u16 "ent_num" ||| r !! u16 "ENT_NUM".

Definition altName (r : row) : option jsstring :=
  r !! u16 "alt_name" ||| r !! u16 "ALT_NAME" ||| r !! u16 "name"
  ||| r !! u16 "NAME".

(** The body of the loop over the rows of ALT.CSV. *)
Definition altStep (entities : entityTable) (r : row) : entityTable :=
  let uid := auxUid r in
  let altName := altName r in
  if negb (truthy uid) || negb (truthy altName) then entities
  else
    match mapGet (the uid) entities with
    | None => entities
    | Some _ => mapUpdate (the uid) (pushAka (the altName)) entities
    end.

(** The object literal that the third loop pushes. *)
Definition addressOf (r : row) : Address :=
  {| address := r !! u16 "address" ||| r !! u16 "ADDRESS";
     city := r !! u16 "city" ||| r !! u16 "CITY";
     country := r !! u16 "country" ||| r !! u16 "COUNTRY" |}.

(** The body of the loop over the rows of ADD.CSV. *)
Definition addStep (entities : entityTable) (r : row) : entityTable :=
  let uid := auxUid r in
  if negb (truthy uid) then entities
  else
    match mapGet (the uid) entities with
    | None => entities
    | Some _ => mapUpdate (the uid) (pushAddress (addressOf r)) entities
    end.

(** The map after the three loops, and the array made of its values. *)
Definition entityTableOf (sdnRows altRows addRows : list row) : entityTable :=
  foldl addStep (foldl altStep (foldl sdnStep [] sdnRows) altRows) addRows.

Definition dataset (sdnRows altRows addRows : list row) : list OfacEntity :=
  values (entityTableOf sdnRows altRows addRows).

(** [meta.json] as this version writes it; the hash of a table that was
    not delivered is [null]. *)
Record Meta := {
  fetchedAt : jsstring;
  meta_sdnUrl : jsstring; meta_altUrl : jsstring; meta_addUrl : jsstring;
  count_sdnRows : nat; count_altRows : nat; count_addRows : nat;
  count_entities : nat;
  sdnSha256 : jsstring;
  altSha256 : option jsstring;
  addSha256 : option jsstring
}.

(** The two keys of the blob store; the writes to it are taken to
    succeed. *)
Record Store := {
  dataset_json_gz : option buffer;
  meta_json : option Meta
}.

(** The handler has no [try]: it answers [{ ok: true, meta }] or its
    promise rejects. *)
Inductive Outcome :=
  | Responded (meta : Meta)
  | Rejected (message : jsstring).

Section Handler.

Variable fetch : jsstring -> Update.FetchResult.
(** The message of the error with which [res.text()] rejects. *)
Variable textRejection : jsstring.
(** [parse] of csv-parse/sync with [columns: true]. *)
Variable csvParseSync : jsstring -> result (list row).
Variable gzipSync : buffer -> buffer.
Variable utf8Encode : jsstring -> buffer.
Variable sha256 : jsstring -> jsstring.

Definition fetchText (url : jsstring) : result jsstring :=
  match fetch url with
  | Update.FetchRejected m => Throw m
  | Update.FetchResolved ok status statusText text =>
      if negb ok then
        let body := default [] text in
        Throw (u16 "Fetch failed " ++ u16 (pretty status) ++ u16 " "
               ++ statusText ++ u16 " :: " ++ url ++ [0x0A] ++ body)
      else
        match text with
        | Some body => Return body
        | None => Throw textRejection
        end
  end.

(** [promise.catch(() => "")] *)
Definition catchEmpty (c : result jsstring) : jsstring :=
  match c with
  | Return s => s
  | Throw _ => []
  end.

Definition parseCsv (text : jsstring) : result (list row) := csvParseSync text.

(** [csv ? parseCsv(csv) : []] *)
Definition parseOptional (csv : jsstring) : result (list row) :=
  if nonEmpty csv then parseCsv csv else Return [].

(** [csv ? sha256(csv) : null] *)
Definition hashOptional (csv : jsstring) : option jsstring :=
  if nonEmpty csv then Some (sha256 csv) else None.

Definition handler (now : jsstring) (store : Store) : Outcome * Store :=
  match fetchText Update.sdnUrl with
  | Throw m => (Rejected m, store)
  | Return sdnCsv =>
      let altCsv := catchEmpty (fetchText Update.altUrl) in
      let addCsv := catchEmpty (fetchText Update.addUrl) in
      match
        sdnRows ← parseCsv sdnCsv;
        altRows ← parseOptional altCsv;
        addRows ← parseOptional addCsv;
        Return (sdnRows, altRows, addRows)
      with
      | Throw m => (Rejected m, store)
      | Return (sdnRows, altRows, addRows) =>
          let dataset := dataset sdnRows altRows addRows in
          match stringify (jsOfEntities dataset) with
          | None =>
              (Rejected (u16 "The first argument must be of type string"),
               store)
          | Some payloadJson =>
              let payloadGz := gzipSync (utf8Encode payloadJson) in
              let meta :=
                {| fetchedAt := now;
                   meta_sdnUrl := Update.sdnUrl;
                   meta_altUrl := Update.altUrl;
                   meta_addUrl := Update.addUrl;
                   count_sdnRows := length sdnRows;
                   count_altRows := length altRows;
                   count_addRows := length addRows;
                   count_entities := length dataset;
                   sdnSha256 := sha256 sdnCsv;
                   altSha256 := hashOptional altCsv;
                   addSha256 := hashOptional addCsv |} in
              (Responded meta,
               {| dataset_json_gz := Some payloadGz; meta_json := Some meta |})
          end
      end
  end.

End Handler.

End UpdateSibling.

(* ===================================================================== *)
(** * The single-table update function *)
(* ===================================================================== *)

(** The version of [ofac-update.ts] that reads SDN.CSV only.  Its
    [fetchText] has the text of the one in the three-table version, and
    the callback of its [rows.map] is, but for the log, the one of
    [extractEntities]; its [normalizeHeader] is [UpdateLegacy]'s. *)
Module UpdateSingle.

Record Meta := {
  meta_list : jsstring;
  sourceUrl : jsstring;
  fetchedAt : jsstring;
  contentSha256 : jsstring;
  bytes : N;
  count_rows : nat;
  count_entities : nat
}.

(** The two keys of the blob store; the writes to it are taken to
    succeed. *)
Record Store := {
  dataset_json_gz : option buffer;
  meta_json : option Meta
}.

(** The bodies of its responses; the [normalizedHeaders] of the debug
    report are the keys of its [sampleRow]. *)
Inductive Body :=
  | ErrorBody (error : jsstring)
  | DebugBody (sampleRow : option Parser.row) (rowCount : nat)
  | UpdateBody (meta : Meta).

Inductive Outcome :=
  | Response (status : N) (body : Body).

Section Handler.

Variable fetch : jsstring -> Update.FetchResult.
Variable csvParseSync :
  (jsstring -> jsstring) -> jsstring -> result (list Parser.row).
Variable toLowerUnicode : jsstring -> jsstring.
Variable gzipSync : buffer -> buffer.
Variable utf8Encode : jsstring -> buffer.
Variable sha256 : jsstring -> jsstring.
(** [Buffer.byteLength(text, "utf8")] *)
Variable byteLength : jsstring -> N.

Definition tryBlock (req : Update.Request) (now : jsstring)
    : result (Body * option (buffer * Meta)) :=
  sdnCsv ← Update.fetchText fetch Update.sdnUrl;
  rows ← csvParseSync (UpdateLegacy.normalizeHeader toLowerUnicode) sdnCsv;
  if decide (Update.debug req = Some (u16 "1")) then
    Return (DebugBody (head rows) (length rows), None)
  else
    let entities := extractEntities rows in
    match stringify (jsOfEntities entities) with
    | None => Throw (u16 "The first argument must be of type string")
    | Some payloadJson =>
        let payloadGz := gzipSync (utf8Encode payloadJson) in
        let meta :=
          {| meta_list := u16 "SDN";
             sourceUrl := Update.sdnUrl;
             fetchedAt := now;
             contentSha256 := sha256 sdnCsv;
             bytes := byteLength sdnCsv;
             count_rows := length rows;
             count_entities := length entities |} in
        Return (UpdateBody meta, Some (payloadGz, meta))
    end.

Definition handler (req : Update.Request) (now : jsstring) (store : Store)
    : Outcome * Store :=
  match tryBlock req now with
  | Return (body, Some (payloadGz, meta)) =>
      (Response 200 body,
       {| dataset_json_gz := Some payloadGz; meta_json := Some meta |})
  | Return (body, None) => (Response 200 body, store)
  | Throw m => (Response 500 (ErrorBody m), store)
  end.

End Handler.

End UpdateSingle.

(* ===================================================================== *)
(** * The two writes of the update function *)
(* ===================================================================== *)

(** The three-table handler again, with writes to the blob store that can
    fail: [store.set] and [store.setJSON] are awaited inside the [try]
    block, one after the other, so a write that rejects is answered by
    the [catch] clause.  A write that rejects is taken to leave its key
    as it was. *)
Module UpdateWrites.

Section Handler.

Variable fetch : jsstring -> Update.FetchResult.
Variable csvParseSync : (jsstring -> jsstring) -> jsstring -> result (list row).
Variable toLowerUnicode : jsstring -> jsstring.
Variable gzipSync : buffer -> buffer.
Variable utf8Encode : jsstring -> buffer.
Variable sha256 : jsstring -> jsstring.
(** The message with which [store.set("dataset.json.gz", payloadGz)] and
    [store.setJSON("meta.json", meta)] reject, if they do. *)
Variable setDataset : buffer -> option jsstring.
Variable setMeta : Meta -> option jsstring.

Definition handler (req : Update.Request) (now : jsstring) (store : Store)
    : Outcome * Store :=
  match Update.tryBlock fetch csvParseSync toLowerUnicode gzipSync utf8Encode
          sha256 req now with
  | Return (body, Some (payloadGz, meta)) =>
      match setDataset payloadGz with
      | Some m => (Response 500 (ErrorBody m), store)
      | None =>
          let written :=
            {| dataset_json_gz := Some payloadGz;
               meta_json := meta_json store |} in
          match setMeta meta with
          | Some m => (Response 500 (ErrorBody m), written)
          | None =>
              (Response 200 body,
               {| dataset_json_gz := Some payloadGz;
                  meta_json := Some meta |})
          end
      end
  | Return (body, None) => (Response 200 body, store)
  | Throw m => (Response 500 (ErrorBody m), store)
  end.

End Handler.

End UpdateWrites.

(* ===================================================================== *)
(** * csv-parse *)
(* ===================================================================== *)

(** The CSV reader is not part of the repository.  [parseCSV] and the
    single-table handler call it as
    [parse(text, { columns: (h) => normalizeHeader(h), ... })].  This
    module records the one rule of the library that decides what these
    calls do: when [columns] is a function, the library calls it once,
    with the array of the cells of the first record, to learn the column
    names.  [normalizeHeader] begins with [header.trim()], and an array
    has no [trim]: the call throws a [TypeError] before any name is
    computed, and [parse] throws it.  A text without any record never
    reaches the callback and parses to no rows. *)
Module CsvParse.

(** The message of the [TypeError]. *)
Definition NOT_A_FUNCTION : jsstring := u16 "header.trim is not a function".

Section Parse.

(** The records of a text, each the array of its cells: what the library
    reads before it looks at [columns]; it throws on text that is not
    CSV. *)
Variable records : jsstring -> result (list (list jsstring)).
(** The objects that the library builds from the column names and the
    records after the first. *)
Variable objects : list jsstring -> list (list jsstring) -> list row.

(** [(h) => normalizeHeader(h)], called with the array of header cells. *)
Definition columns (normalizeHeader : jsstring -> jsstring)
    (header : list jsstring) : result (list jsstring) :=
  Throw NOT_A_FUNCTION.

Definition parse (normalizeHeader : jsstring -> jsstring) (text : jsstring)
    : result (list row) :=
  recs ← records text;
  match recs with
  | [] => Return []
  | header :: rest =>
      names ← columns normalizeHeader header;
      Return (objects names rest)
  end.

End Parse.

End CsvParse.

(* ===================================================================== *)
(** * Vocabulary of the further properties *)
(* ===================================================================== *)

Module Vocabulary.

Definition isUpperAscii (c : N) : bool := (0x41 <=? c) && (c <=? 0x5A).

(** What a normalized header is made of: [a-z], [0-9] and the underscore. *)
Definition isHeaderChar (c : N) : bool :=
  ((0x61 <=? c) && (c <=? 0x7A)) || ((0x30 <=? c) && (c <=? 0x39))
  || (c =? 0x5F).

(** The pieces of a string between its separators: it is cut at every
    character of the class, so that an empty piece lies between two
    separators that follow each other. *)
Fixpoint splitEach (cls : N -> bool) (s : jsstring) : list jsstring :=
  match s with
  | [] => [[]]
  | c :: t =>
      if cls c then [] :: splitEach cls t
      else
        match splitEach cls t with
        | p :: ps => (c :: p) :: ps
        | [] => [[c]]
        end
  end.


(** The entity that a uid names in a collection: the last one with it. *)
Definition lastWithUid (u : jsstring) (entities : list OfacEntity)
    : option OfacEntity :=
  match lastIndexOf u entities with
  | Some j => entities !! j
  | None => None
  end.

(** A list without the repetitions of what occurred before. *)
Fixpoint firstOccurrences_from (seen l : list jsstring) : list jsstring :=
  match l with
  | [] => []
  | x :: t =>
      if bool_decide (x ∈ seen) then firstOccurrences_from seen t
      else x :: firstOccurrences_from (x :: seen) t
  end.

Definition firstOccurrences (l : list jsstring) : list jsstring :=
  firstOccurrences_from [] l.

(** The cached dataset is still served at [now]. *)
Definition fresh (loadedAt now : Z) : bool := (now - loadedAt <? Search.TTL)%Z.

(** A limit that is a number greater than 50. *)
Definition exceeds50 (x : jsnum) : bool :=
  match x with
  | JNaN => false
  | JInfinity positive => positive
  | JInteger z => (50 <? z)%Z
  | JFraction f => (50 <=? f)%Z
  end.

(** A row of the sibling update function that its first loop accepts. *)
Definition acceptedRaw (r : UpdateSibling.row) : bool :=
  truthy (UpdateSibling.sdnUid r) && truthy (UpdateSibling.sdnName r).

(** The last row of SDN.CSV that the sibling update function accepts for
    a uid, and the aliases and addresses that its other two loops read
    for that uid. *)
Definition lastAcceptedRaw (u : jsstring) (rows : list UpdateSibling.row)
    : option UpdateSibling.row :=
  last (List.filter
          (fun r => acceptedRaw r
                    && bool_decide (UpdateSibling.the (UpdateSibling.sdnUid r) = u))
          rows).

Definition rawAliases (u : jsstring) (rows : list UpdateSibling.row)
    : list jsstring :=
  List.map (fun r => UpdateSibling.the (UpdateSibling.altName r))
    (List.filter
       (fun r => truthy (UpdateSibling.auxUid r)
                 && truthy (UpdateSibling.altName r)
                 && bool_decide (UpdateSibling.the (UpdateSibling.auxUid r) = u))
       rows).

Definition rawAddresses (u : jsstring) (rows : list UpdateSibling.row)
    : list Address :=
  List.map UpdateSibling.addressOf
    (List.filter
       (fun r => truthy (UpdateSibling.auxUid r)
                 && bool_decide (UpdateSibling.the (UpdateSibling.auxUid r) = u))
       rows).

(** The collection that the three-table update function builds from the
    rows of the three tables. *)
Definition collection (sdnRows altRows addRows : list Parser.row)
    : list OfacEntity :=
  consolidateAddData (consolidateAltData (extractEntities sdnRows) altRows)
    addRows.

(** What an update run reads before it decides anything: the three texts
    and their rows. *)
Record Tables := {
  sdnCsv : jsstring; altCsv : jsstring; addCsv : jsstring;
  sdnRows : list Parser.row; altRows : list Parser.row;
  addRows : list Parser.row
}.

Section Inputs.

Variable fetch : jsstring -> Update.FetchResult.
Variable csvParseSync :
  (jsstring -> jsstring) -> jsstring -> result (list Parser.row).
Variable toLowerUnicode : jsstring -> jsstring.

(** The texts are fetched one after the other and then parsed one after
    the other; the first step that throws ends the reading. *)
Definition readTables : result Tables :=
  sdnCsv ← Update.fetchText fetch Update.sdnUrl;
  altCsv ← Update.fetchText fetch Update.altUrl;
  addCsv ← Update.fetchText fetch Update.addUrl;
  sdnRows ← Update.parseCSV csvParseSync toLowerUnicode sdnCsv;
  altRows ← Update.parseCSV csvParseSync toLowerUnicode altCsv;
  addRows ← Update.parseCSV csvParseSync toLowerUnicode addCsv;
  Return {| sdnCsv := sdnCsv; altCsv := altCsv; addCsv := addCsv;
            sdnRows := sdnRows; altRows := altRows; addRows := addRows |}.

End Inputs.

(** The metadata that a completed run writes for these inputs. *)
Definition metaOf (sha256 : jsstring -> jsstring) (now : jsstring) (t : Tables)
    : Meta :=
  {| fetchedAt := now;
     meta_sdnUrl := Update.sdnUrl; meta_altUrl := Update.altUrl;
     meta_addUrl := Update.addUrl;
     count_sdnRows := length (sdnRows t);
     count_altRows := length (altRows t);
     count_addRows := length (addRows t);
     count_entities :=
       length (collection (sdnRows t) (altRows t) (addRows t));
     sdnSha256 := sha256 (sdnCsv t);
     altSha256 := sha256 (altCsv t);
     addSha256 := sha256 (addCsv t) |}.

End Vocabulary.

Import Vocabulary.

(* ===================================================================== *)
(** * Further concrete inputs *)
(* ===================================================================== *)

Module MoreSamples.

(** Case conversion that maps the ASCII letters only. *)
Definition lowerAscii (s : jsstring) : jsstring := List.map asciiLower s.

(** csv-parse on a text without quotes: the lines that are not empty,
    each cut at its commas, the cells trimmed; and the objects it makes
    of the column names and the cells of a record. *)
Definition plainRecords (text : jsstring) : result (list (list jsstring)) :=
  Return
    (List.map (fun line => List.map trim (splitEach (N.eqb 0x2C) line))
       (List.filter nonEmpty (splitEach (N.eqb 0x0A) text))).

Definition plainObjects (names : list jsstring) (rest : list (list jsstring))
    : list Parser.row :=
  List.map (fun cells => list_to_map (zip names (CString <$> cells))) rest.

(** An export host that delivers the three tables of the scenario of the
    specification, and one whose three tables are empty. *)
Definition sdnText : jsstring :=
  u16 "ent_num,sdn_name" ++ [0x0A] ++ u16 "123,John Doe".
Definition altText : jsstring :=
  u16 "ent_num,alt_name" ++ [0x0A] ++ u16 "123,Johnny Doe".
Definition addText : jsstring :=
  u16 "ent_num,address,city" ++ [0x0A] ++ u16 "123,123 Main St,NY".

Definition fetchTables (url : jsstring) : Update.FetchResult :=
  Update.FetchResolved true 200 (u16 "OK")
    (Some (if decide (url = Update.sdnUrl) then sdnText
           else if decide (url = Update.altUrl) then altText
           else addText)).

Definition fetchEmptyTables (url : jsstring) : Update.FetchResult :=
  Update.FetchResolved true 200 (u16 "OK") (Some []).

(** What a run reads from [fetchEmptyTables]. *)
Definition emptyTables : Tables :=
  {| sdnCsv := []; altCsv := []; addCsv := [];
     sdnRows := []; altRows := []; addRows := [] |}.

(** A host that has the primary table only: the alias table is missing
    and the request for the address table fails. *)
Definition fetchOnlySdn (url : jsstring) : Update.FetchResult :=
  if decide (url = Update.sdnUrl)
  then Update.FetchResolved true 200 (u16 "OK") (Some (u16 "SDN"))
  else if decide (url = Update.altUrl)
  then Update.FetchResolved false 404 (u16 "Not Found") (Some [])
  else Update.FetchRejected (u16 "fetch failed").

Definition mkRaw (l : list (string * string)) : UpdateSibling.row :=
  list_to_map (List.map (fun kv => (u16 (fst kv), u16 (snd kv))) l).

Definition rawSdnRows : list UpdateSibling.row :=
  [mkRaw [("ent_num", "7"); ("SDN_NAME", "First")]%string;
   mkRaw [("ent_num", "9"); ("SDN_NAME", "Other")]%string;
   mkRaw [("ent_num", "7"); ("SDN_NAME", "Second")]%string].

Definition csvRaw (text : jsstring) : result (list UpdateSibling.row) :=
  if decide (text = u16 "SDN") then Return rawSdnRows
  else Throw (u16 "Invalid Record Length").

(** The entity of the scenario of the specification, with its alias and
    its address. *)
Definition johnDoe : OfacEntity :=
  {| uid := u16 "123"; name := u16 "John Doe"; type := None; programs := [];
     remarks := None; aka := [u16 "Johnny Doe"];
     addresses := [ {| address := Some (u16 "123 Main St");
                       city := Some (u16 "NY"); country := None |} ] |}.

(** The rows of the scenario, with names in place of the three texts. *)
Definition scenarioTables : Tables :=
  {| sdnCsv := u16 "SDN"; altCsv := u16 "ALT"; addCsv := u16 "ADD";
     sdnRows := Samples.sdnRows; altRows := Samples.altRows;
     addRows := Samples.addRows |}.

Definition debugRequest : Update.Request := {| Update.debug := Some (u16 "1") |}.
Definition plainRequest : Update.Request := {| Update.debug := None |}.

(** A store that takes a write, and one that rejects it. *)
Definition acceptWrite {A} (x : A) : option jsstring := None.
Definition rejectWrite {A} (x : A) : option jsstring :=
  Some (u16 "The blob store is unavailable").


(** A store that holds the entity of the scenario and its metadata, and
    requests to read it. *)
Definition filledStore : Store :=
  {| dataset_json_gz :=
       encode Samples.storeSync Samples.unitsEncode [johnDoe];
     meta_json := Some (metaOf Samples.noHash [] scenarioTables) |}.

Definition sampleReads : list (Z * ReadPath.ReadRequest) :=
  [(0%Z, ReadPath.SearchRequest Samples.paddedRequest);
   (1%Z, ReadPath.EntityRequest (Some (u16 "123")));
   (700000%Z, ReadPath.EntityRequest (Some (u16 "9")));
   (700001%Z, ReadPath.MetaRequest)].

End MoreSamples.

(* ===================================================================== *)
(** * Properties of the parser *)
(* ===================================================================== *)

Section ParserFacts.

Lemma isBlank_nonEmpty (v : jsstring) : isBlank v = false -> nonEmpty v = true.
Proof. destruct v; [discriminate | reflexivity]. Qed.

(** What [firstDefined] returns is not blank. *)
Lemma firstDefined_not_blank (r : row) (keys : list jsstring) (v : jsstring) :
  firstDefined r keys = Some v -> isBlank v = false.
Proof.
  induction keys as [|k ks IH]; simpl; [discriminate|].
  destruct (rowGet r k) as [| |s]; auto.
  destruct (isBlank s) eqn:Hs; simpl; auto.
  intros [= <-]. exact Hs.
Qed.

Lemma firstDefined_truthy (r : row) (keys : list jsstring) (v : jsstring) :
  firstDefined r keys = Some v -> truthy (Some v) = true.
Proof.
  intros H. apply firstDefined_not_blank, isBlank_nonEmpty in H.
  destruct v; [discriminate | reflexivity].
Qed.

Lemma firstDefined_orUndefined (r : row) (keys : list jsstring) :
  orUndefined (firstDefined r keys) = firstDefined r keys.
Proof.
  unfold orUndefined. destruct (firstDefined r keys) as [v|] eqn:H; [|reflexivity].
  now rewrite (firstDefined_truthy _ _ _ H).
Qed.

Lemma firstDefined_orElse (r : row) (keys : list jsstring) :
  orElse (firstDefined r keys) [] = default [] (firstDefined r keys).
Proof.
  unfold orElse. destruct (firstDefined r keys) as [v|] eqn:H; [|reflexivity].
  now rewrite (firstDefined_truthy _ _ _ H).
Qed.

(** [firstDefined] finds a value exactly when some candidate resolves. *)
Lemma firstDefined_resolves (r : row) (keys : list jsstring) :
  resolves r keys = bool_decide (is_Some (firstDefined r keys)).
Proof.
  induction keys as [|k ks IH]; simpl.
  - reflexivity.
  - unfold resolves in *. simpl. rewrite IH.
    destruct (rowGet r k) as [| |s]; simpl; try reflexivity.
    destruct (isBlank s); reflexivity.
Qed.

(** The value found is the one of the first candidate with a value. *)
Lemma firstDefined_first (r : row) (keys : list jsstring) (v : jsstring) :
  firstDefined r keys = Some v <->
  exists pre k post, keys = pre ++ k :: post /\
    rowGet r k = CString v /\ isBlank v = false /\
    Forall (fun k' => hasValue (rowGet r k') = false) pre.
Proof.
  induction keys as [|k ks IH]; simpl.
  - split; [discriminate|]. intros (pre & k & post & H & _). now destruct pre.
  - split.
    + destruct (rowGet r k) as [| |s] eqn:Hk.
      1,2: intros H; apply IH in H as (pre & k' & post & -> & ? & ? & ?);
           exists (k :: pre), k', post; repeat split; auto;
           constructor; auto; now rewrite Hk.
      destruct (isBlank s) eqn:Hs; simpl.
      * intros H; apply IH in H as (pre & k' & post & -> & ? & ? & ?).
        exists (k :: pre), k', post; repeat split; auto.
        constructor; auto. rewrite Hk. simpl. now rewrite Hs.
      * intros [= <-]. exists [], k, ks. repeat split; auto.
    + intros (pre & k' & post & Heq & Hget & Hnb & Hpre).
      destruct pre as [|p pre]; simpl in Heq; injection Heq as <- ->.
      * rewrite Hget, Hnb. reflexivity.
      * inversion Hpre as [|? ? Hp Hpre']; subst.
        assert (firstDefined r (pre ++ k' :: post) = Some v) as Hrec
          by (apply IH; eauto 10).
        destruct (rowGet r k) as [| |s]; auto.
        simpl in Hp. apply negb_false_iff in Hp. now rewrite Hp.
Qed.

(** The code's resolver does what the Field Resolver is said to do. *)
Lemma firstDefined_resolve (r : row) (keys : list jsstring) :
  firstDefined r keys = resolve r keys.
Proof.
  unfold resolve. induction keys as [|k ks IH]; simpl; [reflexivity|].
  destruct (rowGet r k) as [| |s] eqn:Hk; simpl; try exact IH.
  destruct (isBlank s); simpl; [exact IH|]. now rewrite Hk.
Qed.

(** A row is turned into an entity exactly when uid and name are found. *)
Lemma extractRow_spec (r : row) :
  extractRow r =
  match firstDefined r UID_KEYS, firstDefined r NAME_KEYS with
  | Some u, Some n =>
      Some {| uid := u; name := n;
              type := firstDefined r TYPE_KEYS;
              programs := parsePrograms (default [] (firstDefined r PROGRAM_KEYS));
              remarks := firstDefined r REMARKS_KEYS;
              aka := []; addresses := [] |}
  | _, _ => None
  end.
Proof.
  unfold extractRow. rewrite !firstDefined_orUndefined, firstDefined_orElse.
  destruct (firstDefined r UID_KEYS) as [u|] eqn:Hu; [|reflexivity].
  rewrite (firstDefined_truthy _ _ _ Hu). cbn [negb orb].
  destruct (firstDefined r NAME_KEYS) as [n|] eqn:Hn; [|reflexivity].
  now rewrite (firstDefined_truthy _ _ _ Hn).
Qed.

Lemma extractRow_accepted (r : row) :
  acceptedRow r = bool_decide (is_Some (extractRow r)).
Proof.
  unfold acceptedRow. rewrite !firstDefined_resolves, extractRow_spec.
  destruct (firstDefined r UID_KEYS), (firstDefined r NAME_KEYS); simpl;
    try (rewrite bool_decide_eq_true_2 by eauto);
    try (rewrite (bool_decide_eq_false_2 (is_Some None)) by (intros [? [=]]));
    reflexivity.
Qed.

End ParserFacts.

Section ExtractFacts.

(** The entities stand in one-to-one, ordered correspondence with the
    accepted rows. *)
Lemma extractEntities_Forall2 (rows : list row) :
  Forall2 (fun r e => extractRow r = Some e)
    (List.filter acceptedRow rows) (extractEntities rows).
Proof.
  unfold extractEntities.
  induction rows as [|r rows IH]; simpl; [constructor|].
  rewrite extractRow_accepted.
  destruct (extractRow r) as [e|] eqn:He; simpl.
  - constructor; assumption.
  - assumption.
Qed.

Lemma extractRow_uid_name (r : row) (e : OfacEntity) :
  extractRow r = Some e ->
  firstDefined r UID_KEYS = Some (uid e) /\
  firstDefined r NAME_KEYS = Some (name e) /\
  aka e = [] /\ addresses e = [].
Proof.
  rewrite extractRow_spec.
  destruct (firstDefined r UID_KEYS), (firstDefined r NAME_KEYS); try discriminate.
  intros [= <-]. simpl. auto.
Qed.

(** The uid column of the extracted collection. *)
Lemma extractEntities_uids (rows : list row) :
  List.map uid (extractEntities rows) =
  List.map (fun r => default [] (firstDefined r UID_KEYS))
    (List.filter acceptedRow rows).
Proof.
  generalize (extractEntities_Forall2 rows).
  generalize (extractEntities rows), (List.filter acceptedRow rows).
  intros es rs H.
  induction H as [|r e rs es Hre _ IH]; [reflexivity|].
  apply extractRow_uid_name in Hre as (Hu & _).
  cbn [List.map]. rewrite Hu, IH. reflexivity.
Qed.

End ExtractFacts.

(** ** The join *)

Section JoinFacts.

Lemma entityMap_from_lookup (u : jsstring) (entities : list OfacEntity) :
  forall (i : nat) (m : gmap jsstring nat),
  entityMap_from i entities m !! u =
  match lastIndexOf u entities with
  | Some j => Some (i + j)%nat
  | None => m !! u
  end.
Proof.
  induction entities as [|e t IH]; intros i m; simpl; [reflexivity|].
  rewrite IH. destruct (lastIndexOf u t) as [j|].
  - f_equal. lia.
  - destruct (decide (uid e = u)) as [->|Hne].
    + rewrite lookup_insert_eq. f_equal. lia.
    + now rewrite lookup_insert_ne.
Qed.

(** The map sends a uid to the last entity that carries it. *)
Lemma entityMap_lookup (u : jsstring) (entities : list OfacEntity) :
  entityMap entities !! u = lastIndexOf u entities.
Proof.
  unfold entityMap. rewrite entityMap_from_lookup, lookup_empty.
  now destruct (lastIndexOf u entities).
Qed.

Lemma lastIndexOf_Some (u : jsstring) (entities : list OfacEntity) (j : nat) :
  lastIndexOf u entities = Some j <->
  (exists e, entities !! j = Some e /\ uid e = u) /\
  (forall k e, (j < k)%nat -> entities !! k = Some e -> uid e <> u).
Proof.
  revert j. induction entities as [|e t IH]; intros j; simpl.
  - split; [discriminate|]. intros [(e & He & _) _]. discriminate.
  - destruct (lastIndexOf u t) as [j'|] eqn:Hl.
    + split.
      * intros [= <-]. destruct (proj1 (IH j') eq_refl) as [(e' & He' & Hu) Hlast].
        split; [exists e'; auto|].
        intros [|k] e'' Hk; [lia|]. simpl. apply Hlast. lia.
      * intros [(e' & He' & Hu) Hlast]. destruct j as [|j].
        -- destruct (proj1 (IH j') eq_refl) as [(e'' & He'' & Hu'') _].
           exfalso. apply (Hlast (S j') e''); [lia|exact He''|exact Hu''].
        -- f_equal. f_equal. assert (Some j' = Some j) as [=]; [|done].
           apply IH. split; [exists e'; auto|].
           intros k e'' Hk Hk'. apply (Hlast (S k) e''); [lia|exact Hk'].
    + split.
      * destruct (decide (uid e = u)) as [Hu|]; [|discriminate].
        intros [= <-]. split; [exists e; auto|].
        intros [|k] e' Hk Hk'; [lia|]. simpl in Hk'. intros Hu'.
        assert (is_Some (lastIndexOf u t)) as [? Hs]; [|congruence].
        clear -Hk' Hu'. revert k Hk'. induction t as [|x t IHt]; intros k Hk'.
        { destruct k; discriminate. }
        simpl. destruct (lastIndexOf u t); [eauto|].
        destruct k as [|k]; simpl in Hk'.
        { injection Hk' as ->. rewrite decide_True by done. eauto. }
        destruct (IHt k Hk') as [? [=]].
      * intros [(e' & He' & Hu) Hlast]. destruct j as [|j]; simpl in He'.
        -- injection He' as ->. now rewrite decide_True.
        -- exfalso. assert (None = Some j) as Hj; [|congruence].
           apply IH. split; [eauto|].
           intros k e'' Hk Hk'. apply (Hlast (S k) e''); [lia|exact Hk'].
Qed.

Lemma lastIndexOf_None (u : jsstring) (entities : list OfacEntity) :
  lastIndexOf u entities = None <-> u ∉ List.map uid entities.
Proof.
  induction entities as [|e t IH]; simpl.
  - split; [intros _; apply not_elem_of_nil | reflexivity].
  - rewrite not_elem_of_cons. destruct (lastIndexOf u t) as [j|].
    + split; [discriminate|]. intros [_ H]. now apply IH in H.
    + destruct (decide (uid e = u)) as [Hu|Hu].
      * split; [discriminate|]. intros [H _]. now destruct H.
      * split; [|reflexivity]. intros _. split; [congruence|]. now apply IH.
Qed.

Lemma lastIndexOf_lt (u : jsstring) (entities : list OfacEntity) (j : nat) :
  lastIndexOf u entities = Some j -> (j < length entities)%nat.
Proof.
  intros H. apply lastIndexOf_Some in H as [(e & He & _) _].
  now apply lookup_lt_Some in He.
Qed.

End JoinFacts.

(** Both consolidators run the same loop: a row with a valid payload whose
    uid is in the map changes the entity at the mapped position. *)
Section JoinLoop.

Context {A : Type}.
Variable payload : row -> option (jsstring * A).
Variable push : A -> OfacEntity -> OfacEntity.
Variable append : list A -> OfacEntity -> OfacEntity.
Variable size : OfacEntity -> nat.

Hypothesis append_nil : forall e, append [] e = e.
Hypothesis append_append :
  forall l1 l2 e, append l2 (append l1 e) = append (l1 ++ l2) e.
Hypothesis push_append : forall a e, push a e = append [a] e.
Hypothesis uid_append : forall l e, uid (append l e) = uid e.
Hypothesis size_push : forall a e, size (push a e) = S (size e).

Local Abbreviation joinStep := (joinStep payload push).
Local Abbreviation sentTo := (sentTo payload).
Local Abbreviation totalSize := (totalSize size).

Lemma joinStep_lookup (m : gmap jsstring nat) (cur : list OfacEntity)
    (r : row) (i : nat) (e : OfacEntity) :
  cur !! i = Some e ->
  joinStep m cur r !! i = Some (append (sentTo m i [r]) e).
Proof.
  intros Hi. unfold joinStep. simpl.
  destruct (payload r) as [[u a]|]; [|now rewrite append_nil].
  destruct (m !! u) as [j|] eqn:Hm.
  - destruct (decide (Some j = Some i)) as [[= ->]|Hne].
    + rewrite list_lookup_alter_eq, Hi. simpl. now rewrite push_append.
    + rewrite list_lookup_alter_ne by congruence. now rewrite append_nil.
  - rewrite decide_False by discriminate. now rewrite append_nil.
Qed.

Lemma sentTo_cons (m : gmap jsstring nat) (i : nat) (r : row) (rows : list row) :
  sentTo m i (r :: rows) = sentTo m i [r] ++ sentTo m i rows.
Proof.
  simpl. destruct (payload r) as [[u a]|]; [|reflexivity].
  destruct (decide (m !! u = Some i)); reflexivity.
Qed.

Lemma joinLoop_lookup (m : gmap jsstring nat) (rows : list row) :
  forall (cur : list OfacEntity) (i : nat) (e : OfacEntity),
  cur !! i = Some e ->
  foldl (joinStep m) cur rows !! i = Some (append (sentTo m i rows) e).
Proof.
  induction rows as [|r rows IH]; intros cur i e Hi.
  - simpl. now rewrite append_nil.
  - cbn [foldl]. rewrite (IH _ i _ (joinStep_lookup m cur r i e Hi)).
    now rewrite append_append, <- sentTo_cons.
Qed.

Lemma joinStep_length (m : gmap jsstring nat) (cur : list OfacEntity) (r : row) :
  length (joinStep m cur r) = length cur.
Proof.
  unfold joinStep. destruct (payload r) as [[u a]|]; [|reflexivity].
  destruct (m !! u); [apply length_alter | reflexivity].
Qed.

Lemma joinLoop_length (m : gmap jsstring nat) (rows : list row) :
  forall cur, length (foldl (joinStep m) cur rows) = length cur.
Proof.
  induction rows as [|r rows IH]; intros cur; [reflexivity|].
  cbn [foldl]. now rewrite IH, joinStep_length.
Qed.

Lemma alter_push_uids (a : A) (i : nat) (cur : list OfacEntity) :
  List.map uid (alter (push a) i cur) = List.map uid cur.
Proof.
  revert i. induction cur as [|e cur IH]; intros [|i]; simpl; try reflexivity.
  - now rewrite push_append, uid_append.
  - f_equal. apply IH.
Qed.

Lemma joinLoop_uids (m : gmap jsstring nat) (rows : list row) :
  forall cur, List.map uid (foldl (joinStep m) cur rows) = List.map uid cur.
Proof.
  induction rows as [|r rows IH]; intros cur; [reflexivity|].
  cbn [foldl]. rewrite IH. unfold joinStep.
  destruct (payload r) as [[u a]|]; [|reflexivity].
  destruct (m !! u); [apply alter_push_uids | reflexivity].
Qed.

Lemma alter_push_size (a : A) (cur : list OfacEntity) :
  forall i, (i < length cur)%nat ->
  totalSize (alter (push a) i cur) = S (totalSize cur).
Proof.
  unfold Spec.totalSize.
  induction cur as [|e cur IH]; intros [|i] Hi; simpl in Hi; try lia.
  - simpl. now rewrite size_push.
  - specialize (IH i ltac:(lia)). unfold alter in IH. simpl in *. lia.
Qed.

(** With the map of a collection, the loop is the join on uids. *)
Variable entities : list OfacEntity.

Lemma joinStep_unmatched (cur : list OfacEntity) (r : row) :
  joins payload entities r = false ->
  joinStep (entityMap entities) cur r = cur.
Proof.
  unfold joins, joinStep. destruct (payload r) as [[u a]|]; [|reflexivity].
  intros H. apply bool_decide_eq_false in H.
  apply lastIndexOf_None in H. now rewrite entityMap_lookup, H.
Qed.

Lemma joinLoop_filter (rows : list row) :
  forall cur,
  foldl (joinStep (entityMap entities)) cur rows =
  foldl (joinStep (entityMap entities)) cur
    (List.filter (joins payload entities) rows).
Proof.
  induction rows as [|r rows IH]; intros cur; [reflexivity|].
  cbn [foldl List.filter].
  destruct (joins payload entities r) eqn:Hj.
  - cbn [foldl]. apply IH.
  - rewrite joinStep_unmatched by exact Hj. apply IH.
Qed.

Lemma joinLoop_total (rows : list row) :
  forall cur, length cur = length entities ->
  totalSize (foldl (joinStep (entityMap entities)) cur rows) =
  (totalSize cur + length (List.filter (joins payload entities) rows))%nat.
Proof.
  induction rows as [|r rows IH]; intros cur Hlen.
  - simpl. lia.
  - cbn [foldl List.filter]. rewrite IH by now rewrite joinStep_length.
    unfold joins, joinStep. destruct (payload r) as [[u a]|]; [|lia].
    rewrite entityMap_lookup.
    destruct (lastIndexOf u entities) as [j|] eqn:Hl.
    + rewrite bool_decide_eq_true_2.
      * rewrite alter_push_size; [simpl; lia|].
        rewrite Hlen. eapply lastIndexOf_lt, Hl.
      * apply dec_stable. intros Hn. apply lastIndexOf_None in Hn. congruence.
    + rewrite bool_decide_eq_false_2; [lia|]. now apply lastIndexOf_None.
Qed.

(** What the loop sends to the position of an entity: everything for its
    uid if it is the last entity with that uid, nothing otherwise. *)
Lemma sentTo_entityMap (rows : list row) (i : nat) (e : OfacEntity) :
  entities !! i = Some e ->
  sentTo (entityMap entities) i rows =
  if decide (lastIndexOf (uid e) entities = Some i)
  then payloadsFor payload (uid e) rows else [].
Proof.
  intros Hi.
  assert (forall u, lastIndexOf u entities = Some i -> u = uid e) as Huid.
  { intros u Hu. apply lastIndexOf_Some in Hu as [(e' & He' & <-) _]. congruence. }
  induction rows as [|r rows IH]; simpl.
  - now destruct (decide _).
  - destruct (payload r) as [[u a]|]; [|exact IH].
    rewrite IH, entityMap_lookup. clear IH.
    destruct (decide (lastIndexOf (uid e) entities = Some i)) as [He|He].
    + destruct (decide (u = uid e)) as [->|Hne].
      * now rewrite decide_True.
      * rewrite decide_False; [reflexivity|]. intros Hu. now apply Hne, Huid.
    + rewrite decide_False; [reflexivity|].
      intros Hu. apply He. now rewrite <- (Huid u Hu).
Qed.

Lemma joinLoop_entity (rows : list row) (i : nat) (e : OfacEntity) :
  entities !! i = Some e ->
  foldl (joinStep (entityMap entities)) entities rows !! i =
  Some (if decide (lastIndexOf (uid e) entities = Some i)
        then append (payloadsFor payload (uid e) rows) e else e).
Proof.
  intros Hi. rewrite (joinLoop_lookup _ _ _ _ _ Hi), (sentTo_entityMap _ _ _ Hi).
  destruct (decide _); [reflexivity | now rewrite append_nil].
Qed.

End JoinLoop.

Section ConsolidatorFacts.

Lemma truthy_firstDefined (r : row) (keys : list jsstring) :
  truthy (firstDefined r keys) = bool_decide (is_Some (firstDefined r keys)).
Proof.
  destruct (firstDefined r keys) as [v|] eqn:H; [|reflexivity].
  now rewrite (firstDefined_truthy _ _ _ H).
Qed.

Lemma altStep_joinStep (m : gmap jsstring nat) (cur : list OfacEntity) (r : row) :
  altStep m cur r = joinStep aliasPayload pushAka m cur r.
Proof.
  unfold altStep, joinStep, aliasPayload. rewrite <- !firstDefined_resolve.
  destruct (firstDefined r UID_KEYS) as [u|] eqn:Hu; [|reflexivity].
  rewrite (firstDefined_truthy _ _ _ Hu). cbn [negb orb].
  destruct (firstDefined r ALT_NAME_KEYS) as [a|] eqn:Ha; [|reflexivity].
  now rewrite (firstDefined_truthy _ _ _ Ha).
Qed.

Lemma addStep_joinStep (m : gmap jsstring nat) (cur : list OfacEntity) (r : row) :
  addStep m cur r = joinStep addressPayload pushAddress m cur r.
Proof.
  unfold addStep, joinStep, addressPayload.
  rewrite !firstDefined_resolves, <- !firstDefined_resolve.
  destruct (firstDefined r UID_KEYS) as [u|] eqn:Hu; [|reflexivity].
  rewrite (firstDefined_truthy _ _ _ Hu). cbn [negb].
  rewrite !firstDefined_orUndefined, !truthy_firstDefined.
  destruct (firstDefined r ADDRESS_KEYS), (firstDefined r CITY_KEYS),
    (firstDefined r COUNTRY_KEYS); simpl; destruct (m !! u); reflexivity.
Qed.

Lemma foldl_ext_steps {S R} (f g : S -> R -> S) (l : list R) :
  (forall s r, f s r = g s r) -> forall s, foldl f s l = foldl g s l.
Proof.
  intros H. induction l as [|r l IH]; intros s; simpl; [reflexivity|].
  now rewrite H, IH.
Qed.

Lemma consolidateAltData_loop (entities : list OfacEntity) (rows : list row) :
  consolidateAltData entities rows =
  foldl (joinStep aliasPayload pushAka (entityMap entities)) entities rows.
Proof. apply foldl_ext_steps, altStep_joinStep. Qed.

Lemma consolidateAddData_loop (entities : list OfacEntity) (rows : list row) :
  consolidateAddData entities rows =
  foldl (joinStep addressPayload pushAddress (entityMap entities)) entities rows.
Proof. apply foldl_ext_steps, addStep_joinStep. Qed.

Lemma appendAka_nil (e : OfacEntity) : appendAka [] e = e.
Proof. destruct e. unfold appendAka. simpl. now rewrite app_nil_r. Qed.

Lemma appendAka_append (l1 l2 : list jsstring) (e : OfacEntity) :
  appendAka l2 (appendAka l1 e) = appendAka (l1 ++ l2) e.
Proof. unfold appendAka. simpl. now rewrite app_assoc. Qed.

Lemma appendAddresses_nil (e : OfacEntity) : appendAddresses [] e = e.
Proof. destruct e. unfold appendAddresses. simpl. now rewrite app_nil_r. Qed.

Lemma appendAddresses_append (l1 l2 : list Address) (e : OfacEntity) :
  appendAddresses l2 (appendAddresses l1 e) = appendAddresses (l1 ++ l2) e.
Proof. unfold appendAddresses. simpl. now rewrite app_assoc. Qed.

Lemma akaCount_push (a : jsstring) (e : OfacEntity) :
  akaCount (pushAka a e) = S (akaCount e).
Proof. unfold akaCount. simpl. rewrite length_app. simpl. lia. Qed.

Lemma addressCount_push (a : Address) (e : OfacEntity) :
  addressCount (pushAddress a e) = S (addressCount e).
Proof. unfold addressCount. simpl. rewrite length_app. simpl. lia. Qed.

(** The consolidators neither add, remove nor rename entities. *)
Lemma consolidateAltData_uids (entities : list OfacEntity) (rows : list row) :
  List.map uid (consolidateAltData entities rows) = List.map uid entities.
Proof.
  rewrite consolidateAltData_loop.
  apply (joinLoop_uids aliasPayload pushAka appendAka); reflexivity.
Qed.

Lemma consolidateAddData_uids (entities : list OfacEntity) (rows : list row) :
  List.map uid (consolidateAddData entities rows) = List.map uid entities.
Proof.
  rewrite consolidateAddData_loop.
  apply (joinLoop_uids addressPayload pushAddress appendAddresses); reflexivity.
Qed.

Lemma unmatched_not_joins {A} (payload : row -> option (jsstring * A))
    (uid_of : forall r u a, payload r = Some (u, a) -> firstDefined r UID_KEYS = Some u)
    (entities : list OfacEntity) (r : row) :
  unmatched entities r = true -> joins payload entities r = false.
Proof.
  unfold unmatched, joins. rewrite <- firstDefined_resolve.
  destruct (payload r) as [[u a]|] eqn:Hp; [|reflexivity].
  rewrite (uid_of _ _ _ Hp). now intros ->%negb_true_iff.
Qed.

Lemma aliasPayload_uid (r : row) (u a : jsstring) :
  aliasPayload r = Some (u, a) -> firstDefined r UID_KEYS = Some u.
Proof.
  unfold aliasPayload. rewrite <- !firstDefined_resolve.
  destruct (firstDefined r UID_KEYS), (firstDefined r ALT_NAME_KEYS);
    try discriminate. now intros [= -> _].
Qed.

Lemma addressPayload_uid (r : row) (u : jsstring) (a : Address) :
  addressPayload r = Some (u, a) -> firstDefined r UID_KEYS = Some u.
Proof.
  unfold addressPayload. rewrite <- !firstDefined_resolve.
  destruct (firstDefined r UID_KEYS); [|discriminate].
  destruct (_ || _); [|discriminate]. now intros [= -> _].
Qed.

(** What a consolidator leaves at a position. *)
Lemma consolidateAltData_at (entities : list OfacEntity) (rows : list row)
    (i : nat) (e : OfacEntity) :
  entities !! i = Some e ->
  consolidateAltData entities rows !! i =
  Some (if decide (lastIndexOf (uid e) entities = Some i)
        then appendAka (payloadsFor aliasPayload (uid e) rows) e
        else e).
Proof.
  intros Hi. rewrite consolidateAltData_loop.
  apply (joinLoop_entity aliasPayload pushAka appendAka);
    auto using appendAka_nil, appendAka_append.
Qed.

Lemma consolidateAddData_at (entities : list OfacEntity) (rows : list row)
    (i : nat) (e : OfacEntity) :
  entities !! i = Some e ->
  consolidateAddData entities rows !! i =
  Some (if decide (lastIndexOf (uid e) entities = Some i)
        then appendAddresses (payloadsFor addressPayload (uid e) rows) e
        else e).
Proof.
  intros Hi. rewrite consolidateAddData_loop.
  apply (joinLoop_entity addressPayload pushAddress appendAddresses);
    auto using appendAddresses_nil, appendAddresses_append.
Qed.

Lemma filter_all_false {R} (f : R -> bool) (l : list R) :
  Forall (fun r => f r = false) l -> List.filter f l = [].
Proof.
  induction 1 as [|r l Hr _ IH]; simpl; [reflexivity|]. now rewrite Hr.
Qed.

End ConsolidatorFacts.

(* ===================================================================== *)
(** * Claims about the parser *)
(* ===================================================================== *)

(** C4 (Entity Extraction Completeness).  For every row sequence,
    [extractEntities] returns exactly one entity per row in which both the
    uid candidates and the name candidates resolve to a non-blank value,
    in input-row order: the entities correspond one to one, in order, to
    the accepted rows, each carrying the uid and name resolved from its
    row; and the uid and name of every entity are not blank. *)
Theorem extractEntities_completeness (rows : list row) :
  length (extractEntities rows) = length (List.filter acceptedRow rows) /\
  Forall2 (fun r e => extractRow r = Some e /\
                      firstDefined r UID_KEYS = Some (uid e) /\
                      firstDefined r NAME_KEYS = Some (name e))
    (List.filter acceptedRow rows) (extractEntities rows) /\
  Forall (fun e => isBlank (uid e) = false /\ isBlank (name e) = false)
    (extractEntities rows).
Proof.
  pose proof (extractEntities_Forall2 rows) as H.
  split; [symmetry; eapply Forall2_length, H|].
  split.
  - eapply Forall2_impl; [exact H|]. intros r e Hre. split; [exact Hre|].
    apply extractRow_uid_name in Hre. tauto.
  - revert H. generalize (List.filter acceptedRow rows), (extractEntities rows).
    intros rs es H. induction H as [|r e rs es Hre _ IH]; constructor; auto.
    apply extractRow_uid_name in Hre as (Hu & Hn & _).
    split; eapply firstDefined_not_blank; eassumption.
Qed.

(** C1, counterexample.  A primary table in which the identifier 7 occurs
    in two rows yields, after extraction and both consolidations, a
    collection in which two entities have uid 7. *)
Lemma extractEntities_duplicate_uid :
  ~ NoDup (List.map uid
            (consolidateAddData
               (consolidateAltData (extractEntities Samples.duplicateRows)
                  Samples.aliasRows7)
               Samples.addressRows7)).
Proof.
  rewrite consolidateAddData_uids, consolidateAltData_uids.
  vm_compute. intros H. inversion H as [|? ? Hnotin _]; subst.
  apply Hnotin. left.
Qed.

(** C1, amended.  The uids of the collection produced by
    [extractEntities] are the uids resolved from the accepted rows, one
    per row and in row order, and the two consolidators leave this
    sequence of uids unchanged; so the final collection has unique uids
    exactly when no two accepted rows resolve to the same uid. *)
Theorem uids_of_collection (rows altRows addRows : list row) :
  let resolved :=
    List.map (fun r => default [] (firstDefined r UID_KEYS))
      (List.filter acceptedRow rows) in
  let final :=
    consolidateAddData (consolidateAltData (extractEntities rows) altRows)
      addRows in
  List.map uid (extractEntities rows) = resolved /\
  List.map uid final = resolved /\
  (NoDup (List.map uid final) <-> NoDup resolved).
Proof.
  intros resolved final. unfold final.
  rewrite consolidateAddData_uids, consolidateAltData_uids, extractEntities_uids.
  fold resolved. tauto.
Qed.

(** C5 (Join correctness).  A row has a valid payload when its uid
    resolves to a value that is not blank and, for an alias row, its
    alt_name does, or, for an address row, at least one of address, city
    and country does ([aliasPayload], [addressPayload], stated with the
    Field Resolver [resolve] and not with the code's [firstDefined]).
    For every entity collection and every sequence of alias or address
    rows: if the uid of every row is missing or matches no entity, the
    collection is returned unchanged; in general the rows that do not
    join can be dropped without changing the result; the entity at a
    position receives, appended in row order, the payloads of the valid
    rows with its uid (when it is the entity that the uid map holds for
    that uid) and is otherwise unchanged; and the total number of aliases
    (addresses) grows by exactly the number of rows with a valid payload
    and a matching uid. *)
Theorem join_correctness (entities : list OfacEntity) (rows : list row) :
  (Forall (fun r => unmatched entities r = true) rows ->
   consolidateAltData entities rows = entities /\
   consolidateAddData entities rows = entities) /\
  (consolidateAltData entities rows =
     consolidateAltData entities (List.filter (joins aliasPayload entities) rows) /\
   consolidateAddData entities rows =
     consolidateAddData entities (List.filter (joins addressPayload entities) rows)) /\
  (forall i e, entities !! i = Some e ->
     consolidateAltData entities rows !! i =
       Some (if decide (lastIndexOf (uid e) entities = Some i)
             then appendAka (payloadsFor aliasPayload (uid e) rows) e
             else e) /\
     consolidateAddData entities rows !! i =
       Some (if decide (lastIndexOf (uid e) entities = Some i)
             then appendAddresses (payloadsFor addressPayload (uid e) rows) e
             else e)) /\
  (length (consolidateAltData entities rows) = length entities /\
   totalSize akaCount (consolidateAltData entities rows) =
     (totalSize akaCount entities
      + length (List.filter (joins aliasPayload entities) rows))%nat) /\
  (length (consolidateAddData entities rows) = length entities /\
   totalSize addressCount (consolidateAddData entities rows) =
     (totalSize addressCount entities
      + length (List.filter (joins addressPayload entities) rows))%nat).
Proof.
  assert (consolidateAltData entities rows =
          consolidateAltData entities (List.filter (joins aliasPayload entities) rows))
    as Halt.
  { rewrite !consolidateAltData_loop. apply joinLoop_filter. }
  assert (consolidateAddData entities rows =
          consolidateAddData entities (List.filter (joins addressPayload entities) rows))
    as Hadd.
  { rewrite !consolidateAddData_loop. apply joinLoop_filter. }
  split; [|split; [|split; [|split]]].
  - intros Hun. rewrite Halt, Hadd, !filter_all_false; [split; reflexivity| |].
    + eapply Forall_impl; [exact Hun|]. intros r.
      apply unmatched_not_joins, addressPayload_uid.
    + eapply Forall_impl; [exact Hun|]. intros r.
      apply unmatched_not_joins, aliasPayload_uid.
  - split; assumption.
  - intros i e Hi. split.
    + now apply consolidateAltData_at.
    + now apply consolidateAddData_at.
  - rewrite consolidateAltData_loop. split.
    + apply joinLoop_length.
    + apply (joinLoop_total aliasPayload pushAka akaCount);
        auto using akaCount_push.
  - rewrite consolidateAddData_loop. split.
    + apply joinLoop_length.
    + apply (joinLoop_total addressPayload pushAddress addressCount);
        auto using addressCount_push.
Qed.

(** C5, at a concrete input: the two entities of [duplicateRows] and
    alias and address rows for the identifiers 7 and 8.  The rows for the
    unknown identifier 8 alone leave the entities as they are; the alias
    row and the address row for 7 are each appended, once, to the entity
    that the uid map holds for 7, and the totals grow by one. *)
Lemma join_correctness_witness :
  let entities := extractEntities Samples.duplicateRows in
  (consolidateAltData entities (List.tl Samples.aliasRows7) = entities /\
   consolidateAddData entities (List.tl Samples.aliasRows7) = entities) /\
  (exists e1,
     entities !! 1%nat = Some e1 /\
     consolidateAltData entities Samples.aliasRows7 !! 1%nat
     = Some (appendAka [u16 "Seven"] e1) /\
     consolidateAddData entities Samples.addressRows7 !! 1%nat
     = Some (appendAddresses
               [ {| address := None; city := Some (u16 "Lima");
                    country := None |} ] e1)) /\
  totalSize akaCount (consolidateAltData entities Samples.aliasRows7) = 1%nat /\
  totalSize addressCount (consolidateAddData entities Samples.addressRows7)
  = 1%nat.
Proof.
  intros entities.
  pose proof (join_correctness entities Samples.aliasRows7)
    as (_ & _ & Hat & (_ & Htot) & _).
  pose proof (join_correctness entities Samples.addressRows7)
    as (_ & _ & Hat' & _ & (_ & Htot')).
  split.
  { apply (proj1 (join_correctness entities (List.tl Samples.aliasRows7))).
    repeat constructor. }
  split; [|split; [exact Htot | exact Htot']].
  destruct (entities !! 1%nat) as [e1|] eqn:H1; [|discriminate].
  exists e1. split; [reflexivity|]. injection H1 as <-.
  split; [exact (proj1 (Hat 1%nat _ eq_refl)) | exact (proj2 (Hat' 1%nat _ eq_refl))].
Defined.

(** C9.  When two entities share a uid, the uid map holds the later one:
    if the entity at position [j] is the last one with its uid and the
    entity at an earlier position [i] has the same uid, then every alias
    row and every address row with that uid and a valid payload is
    appended to the entity at [j], in row order, and the entity at [i] is
    never changed. *)
Theorem duplicate_uid_last_wins (entities : list OfacEntity) (i j : nat)
    (ei ej : OfacEntity) (altRows addRows : list row) :
  (i < j)%nat ->
  entities !! i = Some ei ->
  entities !! j = Some ej ->
  uid ei = uid ej ->
  (forall k e, (j < k)%nat -> entities !! k = Some e -> uid e <> uid ej) ->
  entityMap entities !! uid ej = Some j /\
  consolidateAltData entities altRows !! i = Some ei /\
  consolidateAltData entities altRows !! j =
    Some (appendAka (payloadsFor aliasPayload (uid ej) altRows) ej) /\
  consolidateAddData entities addRows !! i = Some ei /\
  consolidateAddData entities addRows !! j =
    Some (appendAddresses (payloadsFor addressPayload (uid ej) addRows) ej).
Proof.
  intros Hij Hi Hj Hu Hlast.
  assert (lastIndexOf (uid ej) entities = Some j) as Hl.
  { apply lastIndexOf_Some. split; [eauto|]. exact Hlast. }
  assert (lastIndexOf (uid ei) entities <> Some i) as Hni.
  { rewrite Hu, Hl. intros [=]. lia. }
  split; [now rewrite entityMap_lookup|].
  rewrite (consolidateAltData_at _ altRows _ _ Hi),
    (consolidateAltData_at _ altRows _ _ Hj),
    (consolidateAddData_at _ addRows _ _ Hi),
    (consolidateAddData_at _ addRows _ _ Hj).
  rewrite !(decide_False (P := lastIndexOf (uid ei) entities = Some i)) by exact Hni.
  rewrite !(decide_True (P := lastIndexOf (uid ej) entities = Some j)) by exact Hl.
  auto.
Qed.

(** C9, at a concrete input: of the two entities with uid 7, the first
    keeps its empty alias list and the second receives the alias. *)
Lemma duplicate_uid_last_wins_witness :
  let entities := extractEntities Samples.duplicateRows in
  exists e0 e1,
    entities !! 0%nat = Some e0 /\ entities !! 1%nat = Some e1 /\
    entityMap entities !! uid e1 = Some 1%nat /\
    consolidateAltData entities Samples.aliasRows7 !! 0%nat = Some e0 /\
    consolidateAltData entities Samples.aliasRows7 !! 1%nat =
      Some (appendAka [u16 "Seven"] e1).
Proof.
  intros entities.
  destruct (entities !! 0%nat) as [e0|] eqn:H0; [|discriminate].
  destruct (entities !! 1%nat) as [e1|] eqn:H1; [|discriminate].
  exists e0, e1. split; [reflexivity|]. split; [reflexivity|].
  injection H0 as <-. injection H1 as <-.
  refine (let H := duplicate_uid_last_wins entities 0 1 _ _
                     Samples.aliasRows7 Samples.addressRows7
                     _ eq_refl eq_refl eq_refl _ in _).
  - destruct H as (Hm & Ha0 & Ha1 & _). auto.
    Unshelve.
    + lia.
    + intros [|[|k]] e Hk He; try lia. discriminate.
Defined.

(* ===================================================================== *)
(** * normalizeHeader *)
(* ===================================================================== *)

Section HeaderFacts.

Lemma replaceClass_filter (cls : N -> bool) (s : jsstring) :
  replaceClass cls [] s = List.filter (fun c => negb (cls c)) s.
Proof.
  induction s as [|c t IH]; simpl; [reflexivity|].
  destruct (cls c); simpl; now rewrite IH.
Qed.

Lemma replaceRuns_from_collapse (isRun : N -> bool) (s : jsstring) :
  forall prev : option N,
  replaceRuns_from (match prev with Some p => isRun p | None => false end)
    isRun (u16 "_") s =
  flat_map
    (fun pc : option N * N =>
       let (prev, c) := pc in
       if isRun c
       then match prev with
            | Some p => if isRun p then [] else [UNDERSCORE]
            | None => [UNDERSCORE]
            end
       else [c])
    (combine (prev :: List.map Some s) s).
Proof.
  induction s as [|c t IH]; intros prev; [reflexivity|].
  cbn [replaceRuns_from List.map combine flat_map].
  specialize (IH (Some c)). cbn beta iota in IH.
  destruct (isRun c) eqn:Hc.
  - rewrite IH. destruct prev as [p|]; [destruct (isRun p)|]; reflexivity.
  - rewrite IH. reflexivity.
Qed.

Lemma replaceRuns_collapse (isRun : N -> bool) (s : jsstring) :
  replaceRuns isRun (u16 "_") s = collapseRuns isRun s.
Proof. exact (replaceRuns_from_collapse isRun s None). Qed.

Lemma filter_ext_bool {A} (f g : A -> bool) (l : list A) :
  (forall x, f x = g x) -> List.filter f l = List.filter g l.
Proof.
  intros H. induction l as [|x l IH]; simpl; [reflexivity|].
  now rewrite H, IH.
Qed.

Lemma collapseRuns_ext (f g : N -> bool) (s : jsstring) :
  (forall c, f c = g c) -> collapseRuns f s = collapseRuns g s.
Proof.
  intros H. unfold collapseRuns. generalize (@None N).
  induction s as [|c t IH]; intros prev; [reflexivity|].
  change (combine (prev :: List.map Some (c :: t)) (c :: t))
    with ((prev, c) :: combine (Some c :: List.map Some t) t).
  cbn [flat_map]. rewrite (IH (Some c)), H.
  destruct prev as [p|]; [rewrite (H p)|]; reflexivity.
Qed.

Lemma isWordChar_alnum (c : N) :
  isWordChar c = isAlphanumeric c || (c =? UNDERSCORE).
Proof. reflexivity. Qed.

Lemma isPunctuation_isKept (c : N) :
  negb (Parser.isPunctuation c) = isKept isWhiteSpace c.
Proof.
  unfold Parser.isPunctuation, isKept. rewrite negb_involutive, isWordChar_alnum.
  reflexivity.
Qed.

Lemma isSeparator_run (c : N) :
  Parser.isSeparator c = isWhiteSpace c || (c =? HYPHEN).
Proof. unfold Parser.isSeparator. apply orb_comm. Qed.

Lemma normalizeHeader_amended (lu : jsstring -> jsstring) (h : jsstring) :
  Parser.normalizeHeader lu h = normalizeHeaderAmended (toLowerCase lu) h.
Proof.
  unfold Parser.normalizeHeader, normalizeHeaderAmended.
  rewrite replaceRuns_collapse, !replaceClass_filter.
  rewrite (collapseRuns_ext _ _ _ isSeparator_run).
  f_equal. rewrite (filter_ext_bool _ _ _ isPunctuation_isKept).
  f_equal. apply filter_ext_bool. intros c. now rewrite N.eqb_sym.
Qed.

(** The copy in the single-table update function treats the hyphen as
    punctuation. *)
Lemma normalizeHeader_legacy (lu : jsstring -> jsstring) (h : jsstring) :
  UpdateLegacy.normalizeHeader lu h = normalizeHeaderLegacy (toLowerCase lu) h.
Proof.
  unfold UpdateLegacy.normalizeHeader, normalizeHeaderLegacy.
  rewrite replaceRuns_collapse, !replaceClass_filter.
  f_equal. erewrite filter_ext_bool.
  - f_equal. apply filter_ext_bool. intros c. now rewrite N.eqb_sym.
  - intros c. unfold UpdateLegacy.isPunctuation.
    now rewrite negb_involutive, isWordChar_alnum.
Qed.

Lemma dropWhile_trimStart (s : jsstring) : dropWhile isWhiteSpace s = trimStart s.
Proof.
  induction s as [|c t IH]; simpl; [reflexivity|].
  destruct (isWhiteSpace c); [exact IH | reflexivity].
Qed.

Lemma trimSurrounding_trim (s : jsstring) : trimSurrounding isWhiteSpace s = trim s.
Proof. unfold trimSurrounding, trim, trimEnd. now rewrite !dropWhile_trimStart. Qed.

(** A leading byte-order mark is whitespace to [trim]. *)
Lemma trim_stripLeadingBom (s : jsstring) :
  trim (stripLeadingBom false s) = trim s.
Proof.
  destruct s as [|c t]; [reflexivity|]. simpl.
  destruct (c =? BOM) eqn:Hc; [|reflexivity].
  apply N.eqb_eq in Hc as ->. reflexivity.
Qed.

Lemma filter_no_bom (s : jsstring) :
  BOM ∉ s -> List.filter (fun c => negb (c =? BOM)) s = s.
Proof.
  induction s as [|c t IH]; intros H; [reflexivity|].
  apply not_elem_of_cons in H as [Hc Ht]. simpl.
  destruct (c =? BOM) eqn:E; [apply N.eqb_eq in E; congruence|].
  simpl. now rewrite IH.
Qed.

End HeaderFacts.

(** C6, counterexample.  On a header with a byte-order mark behind a
    leading space and another between two letters, [normalizeHeader]
    yields [ab]; the algorithm as the claim words it yields [a_b] if the
    mark counts as whitespace and [_ab] if it does not, whether one or
    every leading mark is stripped.  And the copy of [normalizeHeader] in
    the single-table update function maps [SDN-Type] to [sdntype], not to
    [sdn_type]. *)
Lemma normalizeHeader_not_as_specified :
  Parser.normalizeHeader Samples.caseless Samples.bomHeader = u16 "ab" /\
  (forall everyLeadingBom,
     normalizeHeaderSpec isWhiteSpace everyLeadingBom
       (toLowerCase Samples.caseless) Samples.bomHeader = u16 "a_b" /\
     normalizeHeaderSpec unicodeWhiteSpace everyLeadingBom
       (toLowerCase Samples.caseless) Samples.bomHeader = u16 "_ab") /\
  ~ (forall lu h,
       Parser.normalizeHeader lu h =
       normalizeHeaderSpec isWhiteSpace false (toLowerCase lu) h) /\
  UpdateLegacy.normalizeHeader Samples.caseless (u16 "SDN-Type") = u16 "sdntype" /\
  u16 "sdntype" <> u16 "sdn_type".
Proof.
  split; [reflexivity|]. split; [intros []; split; reflexivity|].
  split; [|split; [reflexivity | discriminate]].
  intros H. specialize (H Samples.caseless Samples.bomHeader). discriminate H.
Qed.

(** C6, amended.  For every input string the [normalizeHeader] of the
    parser is total and yields the result of: trim surrounding whitespace
    (to which the byte-order mark belongs), lowercase, remove every
    remaining byte-order mark, remove the characters that are not ASCII
    alphanumeric, underscore, whitespace or hyphen, and collapse each run
    of whitespace or hyphens into one underscore; whenever the trimmed,
    lowercased header holds no byte-order mark this is the algorithm of
    the claim; and the four examples hold. *)
Theorem normalizeHeader_refines (lu : jsstring -> jsstring) :
  (forall h,
     Parser.normalizeHeader lu h = normalizeHeaderAmended (toLowerCase lu) h) /\
  (forall h,
     BOM ∉ toLowerCase lu (trim h) ->
     Parser.normalizeHeader lu h =
     normalizeHeaderSpec isWhiteSpace false (toLowerCase lu) h) /\
  Parser.normalizeHeader lu (u16 "Ent Num") = u16 "ent_num" /\
  Parser.normalizeHeader lu (u16 "Program(s)") = u16 "programs" /\
  Parser.normalizeHeader lu (BOM :: u16 "Ent Num") = u16 "ent_num" /\
  Parser.normalizeHeader lu (u16 "SDN-Type") = u16 "sdn_type".
Proof.
  split; [apply normalizeHeader_amended|].
  split.
  - intros h Hbom. rewrite normalizeHeader_amended.
    unfold normalizeHeaderAmended, normalizeHeaderSpec.
    rewrite trimSurrounding_trim, trim_stripLeadingBom.
    now rewrite (filter_no_bom _ Hbom).
  - repeat split.
Qed.

(** C6, at a concrete input: [Ent Num] holds no byte-order mark, so both
    descriptions of the algorithm give [ent_num]. *)
Lemma normalizeHeader_refines_witness :
  normalizeHeaderSpec isWhiteSpace false (toLowerCase Samples.caseless)
    (u16 "Ent Num") = u16 "ent_num".
Proof.
  rewrite <- (proj1 (proj2 (normalizeHeader_refines Samples.caseless))
                (u16 "Ent Num")).
  - reflexivity.
  - vm_compute. intros H. repeat (apply elem_of_cons in H as [H|H]; [discriminate H|]).
    now apply elem_of_nil in H.
Defined.

(* ===================================================================== *)
(** * The dataset codec *)
(* ===================================================================== *)

Section LexFacts.

Lemma hexValue_hexDigit (d : N) : d < 16 -> hexValue (hexDigit d) = Some d.
Proof.
  intros H. unfold hexValue, hexDigit.
  destruct (d <? 10) eqn:E.
  - apply N.ltb_lt in E.
    replace ((48 <=? 48 + d) && (48 + d <=? 57)) with true.
    + f_equal. lia.
    + symmetry. apply andb_true_iff. split; apply N.leb_le; lia.
  - apply N.ltb_ge in E.
    replace ((48 <=? 97 + (d - 10)) && (97 + (d - 10) <=? 57)) with false.
    + replace ((97 <=? 97 + (d - 10)) && (97 + (d - 10) <=? 102)) with true.
      * f_equal. lia.
      * symmetry. apply andb_true_iff. split; apply N.leb_le; lia.
    + symmetry. apply andb_false_iff. right. apply N.leb_gt. lia.
Qed.

Lemma hex4_digits (c : N) :
  c < 65536 ->
  ((((c / 4096) mod 16) * 16 + (c / 256) mod 16) * 16 + (c / 16) mod 16) * 16
  + c mod 16 = c.
Proof. intros H. zify. Z.to_euclidean_division_equations. lia. Qed.

Lemma hex4Value_unicodeEscape (c : N) :
  c < 65536 ->
  hex4Value (hexDigit ((c / 4096) mod 16)) (hexDigit ((c / 256) mod 16))
    (hexDigit ((c / 16) mod 16)) (hexDigit (c mod 16)) = Some c.
Proof.
  intros H. unfold hex4Value.
  rewrite !hexValue_hexDigit by (apply N.mod_lt; discriminate).
  f_equal. now apply hex4_digits.
Qed.

Lemma lexFrom_plain (acc : jsstring) (c : N) (t : jsstring) :
  c <> QUOTE -> c <> BACKSLASH -> 0x20 <= c ->
  lexFrom (Some acc) (c :: t) = lexFrom (Some (c :: acc)) t.
Proof.
  intros Hq Hb Hc. cbn [lexFrom].
  rewrite (proj2 (N.eqb_neq _ _) Hq), (proj2 (N.eqb_neq _ _) Hb).
  now rewrite (proj2 (N.ltb_ge _ _) Hc).
Qed.

Lemma lexFrom_unicode (acc : jsstring) (h1 h2 h3 h4 : N) (t : jsstring) :
  lexFrom (Some acc) (BACKSLASH :: 0x75 :: h1 :: h2 :: h3 :: h4 :: t) =
  match hex4Value h1 h2 h3 h4 with
  | Some u => lexFrom (Some (u :: acc)) t
  | None => None
  end.
Proof. reflexivity. Qed.

Lemma lexFrom_unicodeEscape (acc : jsstring) (c : N) (t : jsstring) :
  c < 65536 ->
  lexFrom (Some acc) (unicodeEscape c ++ t) = lexFrom (Some (c :: acc)) t.
Proof.
  intros H. unfold unicodeEscape. cbn [app].
  now rewrite lexFrom_unicode, hex4Value_unicodeEscape.
Qed.

Lemma lexFrom_escapeUnit (acc : jsstring) (c : N) (t : jsstring) :
  lexFrom (Some acc) (escapeUnit c ++ t) = lexFrom (Some (c :: acc)) t.
Proof.
  unfold escapeUnit.
  repeat match goal with
  | |- context [if ?x =? ?k then _ else _] =>
      destruct (N.eqb_spec x k) as [->|]; [reflexivity|]
  end.
  destruct (N.ltb_spec c 0x20).
  - apply lexFrom_unicodeEscape. lia.
  - now apply lexFrom_plain.
Qed.

Lemma lexFrom_quoteBody (s : jsstring) :
  forall (acc rest : jsstring),
  lexFrom (Some acc) (quoteBody s ++ QUOTE :: rest) =
  cons (TString (rev acc ++ s)) <$> lexFrom None rest.
Proof.
  remember (length s) as n eqn:Hn. revert s Hn.
  induction n as [n IH] using lt_wf_ind. intros s Hn acc rest.
  destruct s as [|c t].
  - simpl. now rewrite app_nil_r.
  - assert (forall acc, lexFrom (Some (c :: acc)) (quoteBody t ++ QUOTE :: rest) =
              cons (TString (rev acc ++ c :: t)) <$> lexFrom None rest) as Htail.
    { intros acc'. rewrite (IH (length t)); [|subst; simpl; lia|reflexivity].
      simpl. now rewrite <- app_assoc. }
    cbn [quoteBody].
    destruct (isHighSurrogate c) eqn:Hh.
    + assert (c < 65536) as Hc.
      { unfold isHighSurrogate in Hh. apply andb_true_iff in Hh as [_ Hh].
        apply N.leb_le in Hh. lia. }
      destruct t as [|d t'].
      * rewrite lexFrom_unicodeEscape by exact Hc. apply (Htail acc).
      * destruct (isLowSurrogate d) eqn:Hl.
        -- unfold isHighSurrogate in Hh. apply andb_true_iff in Hh as [Hh _].
           unfold isLowSurrogate in Hl. apply andb_true_iff in Hl as [Hl _].
           apply N.leb_le in Hh, Hl.
           cbn [app]. rewrite !lexFrom_plain by (unfold QUOTE, BACKSLASH; lia).
           rewrite (IH (length t')); [|subst; simpl; lia|reflexivity].
           simpl. now rewrite <- !app_assoc.
        -- rewrite <- app_assoc, lexFrom_unicodeEscape by exact Hc. apply Htail.
    + destruct (isLowSurrogate c) eqn:Hl.
      * rewrite <- app_assoc, lexFrom_unicodeEscape; [apply Htail|].
        unfold isLowSurrogate in Hl. apply andb_true_iff in Hl as [_ Hl].
        apply N.leb_le in Hl. lia.
      * rewrite <- app_assoc, lexFrom_escapeUnit. apply Htail.
Qed.

Lemma lexFrom_token (t : token) (rest : jsstring) :
  lexFrom None (renderToken t ++ rest) = cons t <$> lexFrom None rest.
Proof.
  destruct t; try reflexivity.
  unfold renderToken, quoteJSONString. cbn [app lexFrom].
  change (isJsonWhiteSpace QUOTE) with false. cbv iota.
  change (QUOTE =? 123) with false. change (QUOTE =? 125) with false.
  change (QUOTE =? 91) with false. change (QUOTE =? 93) with false.
  change (QUOTE =? 58) with false. change (QUOTE =? 44) with false.
  change (QUOTE =? QUOTE) with true. cbv iota.
  rewrite <- app_assoc. apply (lexFrom_quoteBody s [] rest).
Qed.

(** Whatever was written token by token is scanned back. *)
Lemma lex_render (ts : list token) : lex (render ts) = Some ts.
Proof.
  unfold lex, render. induction ts as [|t ts IH]; [reflexivity|].
  cbn [List.map List.concat]. now rewrite lexFrom_token, IH.
Qed.

End LexFacts.

Section ParseFacts.

Lemma jsval_nested_ind (P : jsval -> Prop)
    (HU : P Undefined) (HN : P Null) (HB : forall b, P (Bool b))
    (HS : forall s, P (Str s))
    (HA : forall l, Forall P l -> P (Arr l))
    (HO : forall kvs, Forall (fun kv => P (snd kv)) kvs -> P (Obj kvs)) :
  forall v, P v.
Proof.
  fix IH 1. intros [| |b|s|l|kvs];
    [exact HU | exact HN | apply HB | apply HS | | ].
  - apply HA. induction l as [|x l IHl]; constructor; [apply IH | exact IHl].
  - apply HO. induction kvs as [|kv kvs IHk]; constructor; [apply IH | exact IHk].
Qed.

Local Abbreviation elemTokens := (fun x => default [TNull] (serialize x)).
Local Abbreviation elemValue :=
  (fun x => match x with Undefined => Null | _ => normalize x end).
Local Abbreviation memberTokens :=
  (fun kv : jsstring * jsval =>
     match serialize (snd kv) with
     | Some ts => [TString (fst kv) :: TColon :: ts]
     | None => []
     end).
Local Abbreviation memberValue :=
  (fun kv : jsstring * jsval =>
     match snd kv with
     | Undefined => []
     | _ => [(fst kv, normalize (snd kv))]
     end).

(** The claim about one value: its tokens, followed by anything, are read
    back as its normal form, with a budget of one call per token. *)
Local Abbreviation readsBack :=
  (fun (ts : list token) (v : jsval) =>
     forall (fuel : nat) (rest : list token),
       (length ts <= fuel)%nat ->
       parseValue fuel (ts ++ rest) = Some (v, rest)).

Lemma serialize_None (v : jsval) : serialize v = None <-> v = Undefined.
Proof. destruct v; simpl; split; intros; congruence. Qed.

Lemma serialize_head (v : jsval) (ts : list token) :
  serialize v = Some ts ->
  exists t ts', ts = t :: ts' /\ t <> TRBracket /\ t <> TRBrace /\ t <> TComma.
Proof.
  destruct v; simpl; intros [= <-]; eauto 10.
  destruct b; eauto 10.
Qed.

Lemma joinComma_cons2 (p q : list token) (r : list (list token)) :
  joinComma (p :: q :: r) = p ++ TComma :: joinComma (q :: r).
Proof. reflexivity. Qed.

Lemma parseValue_array (fuel : nat) (t : token) (r : list token) :
  t <> TRBracket ->
  parseValue (S fuel) (TLBracket :: t :: r) = parseElements fuel (t :: r) [].
Proof. destruct t; intros H; try reflexivity. now destruct H. Qed.

Lemma parseValue_object (fuel : nat) (t : token) (r : list token) :
  t <> TRBrace ->
  parseValue (S fuel) (TLBrace :: t :: r) = parseMembers fuel (t :: r) [].
Proof. destruct t; intros H; try reflexivity. now destruct H. Qed.

Lemma parseElements_step (fuel : nat) (ts : list token) (acc : list jsval) :
  parseElements (S fuel) ts acc =
  match parseValue fuel ts with
  | Some (v, TComma :: r) => parseElements fuel r (acc ++ [v])
  | Some (v, TRBracket :: r) => Some (Arr (acc ++ [v]), r)
  | _ => None
  end.
Proof. reflexivity. Qed.

Lemma parseMembers_step (fuel : nat) (k : jsstring) (r : list token)
    (acc : list (jsstring * jsval)) :
  parseMembers (S fuel) (TString k :: TColon :: r) acc =
  match parseValue fuel r with
  | Some (v, TComma :: r') => parseMembers fuel r' (objSet k v acc)
  | Some (v, TRBrace :: r') => Some (Obj (objSet k v acc), r')
  | _ => None
  end.
Proof. reflexivity. Qed.

Lemma readsBack_element (x : jsval) :
  (forall ts, serialize x = Some ts -> readsBack ts (normalize x)) ->
  readsBack (elemTokens x) (elemValue x).
Proof.
  intros H. cbv beta. destruct (serialize x) as [ts|] eqn:Hs.
  - specialize (H ts eq_refl). simpl.
    destruct x; try exact H. discriminate Hs.
  - apply serialize_None in Hs as ->. intros [|fuel] rest Hf; [simpl in Hf; lia|].
    reflexivity.
Qed.

Lemma parseElements_reads (l : list jsval) :
  Forall (fun x => readsBack (elemTokens x) (elemValue x)) l ->
  l <> [] ->
  forall (acc : list jsval) (fuel : nat) (rest : list token),
  (length (joinComma (List.map elemTokens l)) < fuel)%nat ->
  parseElements fuel (joinComma (List.map elemTokens l) ++ TRBracket :: rest) acc =
  Some (Arr (acc ++ List.map elemValue l), rest).
Proof.
  induction 1 as [|x l Hx Hl IH]; intros Hne acc fuel rest Hf; [done|].
  destruct fuel as [|fuel]; [lia|].
  rewrite parseElements_step.
  destruct l as [|y l].
  - cbn [List.map joinComma] in *.
    rewrite (Hx fuel (TRBracket :: rest)) by lia. reflexivity.
  - cbn [List.map] in *. rewrite joinComma_cons2 in *.
    rewrite length_app in Hf. cbn [length] in Hf.
    rewrite <- app_assoc. cbn [app].
    rewrite (Hx fuel) by lia.
    rewrite IH; [|done|lia].
    now rewrite <- app_assoc.
Qed.

Lemma objSet_fresh (k : jsstring) (v : jsval) (acc : list (jsstring * jsval)) :
  k ∉ List.map fst acc -> objSet k v acc = acc ++ [(k, v)].
Proof.
  induction acc as [|[k' v'] acc IH]; simpl; intros H; [reflexivity|].
  apply not_elem_of_cons in H as [Hk H].
  rewrite decide_False by congruence. now rewrite IH.
Qed.

Lemma memberValue_nil (kvs : list (jsstring * jsval)) :
  List.concat (List.map memberTokens kvs) = [] ->
  List.concat (List.map memberValue kvs) = [].
Proof.
  induction kvs as [|[k x] kvs IH]; [reflexivity|].
  cbn [List.map List.concat fst snd].
  destruct (serialize x) as [ts|] eqn:Hs; [discriminate|].
  apply serialize_None in Hs as ->. exact IH.
Qed.

Lemma parseMembers_reads (kvs : list (jsstring * jsval)) :
  Forall (fun kv => forall ts, serialize (snd kv) = Some ts ->
                      readsBack ts (normalize (snd kv))) kvs ->
  NoDup (List.map fst kvs) ->
  List.concat (List.map memberTokens kvs) <> [] ->
  forall (acc : list (jsstring * jsval)) (fuel : nat) (rest : list token),
  (forall k, k ∈ List.map fst acc -> k ∉ List.map fst kvs) ->
  (length (joinComma (List.concat (List.map memberTokens kvs))) < fuel)%nat ->
  parseMembers fuel
    (joinComma (List.concat (List.map memberTokens kvs)) ++ TRBrace :: rest) acc =
  Some (Obj (acc ++ List.concat (List.map memberValue kvs)), rest).
Proof.
  induction 1 as [|[k x] kvs Hx Hl IH]; intros Hnd Hne acc fuel rest Hacc Hf; [done|].
  cbn [List.map fst] in Hnd. apply NoDup_cons in Hnd as [Hk Hnd].
  cbn [List.map List.concat fst snd] in *.
  destruct (serialize x) as [ts|] eqn:Hs.
  - assert (match x with
            | Undefined => []
            | _ => [(k, normalize x)]
            end = [(k, normalize x)]) as ->
      by (destruct x; try reflexivity; discriminate).
    specialize (Hx ts eq_refl).
    assert (objSet k (normalize x) acc = acc ++ [(k, normalize x)]) as Hset.
    { apply objSet_fresh. intros Hin. apply (Hacc k Hin). left. }
    destruct fuel as [|fuel]; [lia|].
    cbn [app] in *.
    destruct (List.concat (List.map memberTokens kvs)) as [|m ms] eqn:Hms.
    + cbn [joinComma app] in *. rewrite parseMembers_step.
      cbn [length] in Hf.
      rewrite (Hx fuel) by lia. rewrite Hset.
      rewrite memberValue_nil by exact Hms. reflexivity.
    + rewrite joinComma_cons2 in *. cbn [app]. rewrite parseMembers_step.
      cbn [length] in Hf. rewrite length_app in Hf. cbn [length] in Hf.
      rewrite <- app_assoc. cbn [app].
      rewrite (Hx fuel) by lia. rewrite Hset.
      rewrite IH; [now rewrite <- app_assoc|exact Hnd|done| |lia].
      intros k' Hin. rewrite map_app, elem_of_app in Hin. destruct Hin as [Hin|Hin].
      * intros Hk'. apply (Hacc k' Hin). now right.
      * apply list_elem_of_singleton in Hin as ->. exact Hk.
  - apply serialize_None in Hs as ->. cbn [app] in *.
    apply IH; auto.
    intros k' Hin Hk'. apply (Hacc k' Hin). now right.
Qed.

Lemma joinComma_elements_head (x : jsval) (l : list jsval) :
  exists t r, joinComma (List.map elemTokens (x :: l)) = t :: r /\ t <> TRBracket.
Proof.
  assert (exists t r, elemTokens x = t :: r /\ t <> TRBracket) as (t & r & Hx & Ht).
  { cbv beta. destruct (serialize x) as [ts|] eqn:Hs.
    - apply serialize_head in Hs as (t & r & -> & Ht & _). simpl. eauto.
    - simpl. eexists _, _. split; [reflexivity | discriminate]. }
  cbn [List.map]. destruct l as [|y l].
  - cbn [List.map joinComma]. eauto.
  - cbn [List.map]. rewrite joinComma_cons2, Hx. cbn [app]. eauto.
Qed.

(** Every value with distinct keys is read back as its normal form. *)
Lemma parseValue_serialize (v : jsval) :
  distinctKeys v = true ->
  forall ts, serialize v = Some ts -> readsBack ts (normalize v).
Proof.
  induction v as [| |b|s|l IH|kvs IH] using jsval_nested_ind;
    intros Hd ts Hs fuel rest Hf; simpl in Hs; try discriminate;
    injection Hs as <-.
  - destruct fuel; [simpl in Hf; lia | reflexivity].
  - destruct fuel; [simpl in Hf; lia | now destruct b].
  - destruct fuel; [simpl in Hf; lia | reflexivity].
  - destruct fuel as [|fuel]; [simpl in Hf; lia|].
    cbn [length] in Hf. rewrite length_app in Hf. cbn [length] in Hf.
    cbn [distinctKeys] in Hd.
    assert (Forall (fun x => readsBack (elemTokens x) (elemValue x)) l) as Hall.
    { apply Forall_forall. intros x Hx. apply readsBack_element.
      rewrite Forall_forall in IH. apply IH; [exact Hx|].
      rewrite forallb_forall in Hd. apply Hd. now apply list_elem_of_In. }
    destruct l as [|x l].
    + reflexivity.
    + cbn [normalize]. rewrite <- app_comm_cons, <- app_assoc. cbn [app].
      destruct (joinComma_elements_head x l) as (t & r & Hj & Ht).
      rewrite Hj.
      cbn [app]. rewrite parseValue_array by exact Ht.
      change (t :: r ++ TRBracket :: rest) with ((t :: r) ++ TRBracket :: rest).
      rewrite <- Hj. rewrite parseElements_reads; [reflexivity|exact Hall|done|].
      cbv beta in Hf |- *. lia.
  - destruct fuel as [|fuel]; [simpl in Hf; lia|].
    cbn [length] in Hf. rewrite length_app in Hf. cbn [length] in Hf.
    cbn [distinctKeys] in Hd. apply andb_true_iff in Hd as [Hnd Hd].
    apply bool_decide_eq_true in Hnd.
    assert (Forall (fun kv => forall ts, serialize (snd kv) = Some ts ->
                      readsBack ts (normalize (snd kv))) kvs) as Hall.
    { apply Forall_forall. intros kv Hkv.
      rewrite Forall_forall in IH. apply IH; [exact Hkv|].
      rewrite forallb_forall in Hd. apply Hd. now apply list_elem_of_In. }
    cbn [normalize].
    destruct (List.concat (List.map memberTokens kvs)) as [|m ms] eqn:Hms.
    + rewrite memberValue_nil by exact Hms. reflexivity.
    + rewrite <- app_comm_cons, <- app_assoc. cbn [app].
      assert (exists k r, joinComma (m :: ms) = TString k :: r) as (k & r & Hj).
      { assert (exists k r, m = TString k :: r) as (k & r & ->).
        { clear -Hms. induction kvs as [|[k x] kvs IHk]; [discriminate|].
          cbn [List.map List.concat fst snd] in Hms.
          destruct (serialize x); [injection Hms as <- _; eauto | auto]. }
        destruct ms; [cbn [joinComma]|rewrite joinComma_cons2]; eauto. }
      rewrite Hj. cbn [app]. rewrite parseValue_object by discriminate.
      change (TString k :: r ++ TRBrace :: rest)
        with ((TString k :: r) ++ TRBrace :: rest).
      rewrite <- Hj, <- Hms.
      rewrite parseMembers_reads; [reflexivity|exact Hall|exact Hnd| | |].
      * rewrite Hms. discriminate.
      * intros k' Hin. now apply elem_of_nil in Hin.
      * rewrite Hms, Hj. rewrite Hj in Hf. cbn [length] in *. lia.
Qed.

(** [JSON.parse(JSON.stringify(v))] is the normal form of [v]. *)
Lemma parse_stringify (v : jsval) (text : jsstring) :
  distinctKeys v = true ->
  stringify v = Some text ->
  parse text = Some (normalize v).
Proof.
  unfold stringify, parse. intros Hd Hs.
  destruct (serialize v) as [ts|] eqn:Hser; [|discriminate].
  injection Hs as <-. rewrite lex_render.
  pose proof (parseValue_serialize v Hd ts Hser (S (length ts)) [] ltac:(lia)) as H.
  rewrite app_nil_r in H. now rewrite H.
Qed.

End ParseFacts.

Section WellFormedFacts.

Lemma isWellFormed_app (a b : jsstring) :
  isWellFormed a = true -> isWellFormed b = true -> isWellFormed (a ++ b) = true.
Proof.
  remember (length a) as n eqn:Hn. revert a Hn.
  induction n as [n IH] using lt_wf_ind. intros a Hn Ha Hb.
  destruct a as [|c t]; [exact Hb|].
  cbn [app isWellFormed] in *.
  destruct (isHighSurrogate c).
  - destruct t as [|d t']; [discriminate|]. cbn [app].
    apply andb_true_iff in Ha as [Hd Ht]. rewrite Hd. cbn [andb].
    apply (IH (length t')); [subst; simpl; lia|reflexivity|exact Ht|exact Hb].
  - apply andb_true_iff in Ha as [Hc Ht]. rewrite Hc. cbn [andb].
    apply (IH (length t)); [subst; simpl; lia|reflexivity|exact Ht|exact Hb].
Qed.

Lemma hexDigit_not_surrogate (d : N) :
  d < 16 -> isHighSurrogate (hexDigit d) = false /\ isLowSurrogate (hexDigit d) = false.
Proof.
  intros H. unfold hexDigit, isHighSurrogate, isLowSurrogate.
  destruct (d <? 10); split; apply andb_false_iff; left; apply N.leb_gt; lia.
Qed.

Lemma isWellFormed_unicodeEscape (c : N) : isWellFormed (unicodeEscape c) = true.
Proof.
  unfold unicodeEscape.
  assert (forall d, d < 16 ->
            forall t, isWellFormed (hexDigit d :: t) = isWellFormed t) as Hd.
  { intros d Hlt t. destruct (hexDigit_not_surrogate d Hlt) as [Hh Hl].
    cbn [isWellFormed]. now rewrite Hh, Hl. }
  change (isWellFormed (hexDigit ((c / 4096) mod 16) :: hexDigit ((c / 256) mod 16)
            :: hexDigit ((c / 16) mod 16) :: [hexDigit (c mod 16)]) = true).
  rewrite !Hd by (apply N.mod_lt; discriminate). reflexivity.
Qed.

Lemma isWellFormed_escapeUnit (c : N) :
  isHighSurrogate c = false -> isLowSurrogate c = false ->
  isWellFormed (escapeUnit c) = true.
Proof.
  intros Hh Hl. unfold escapeUnit.
  repeat match goal with
  | |- context [if ?x =? ?k then _ else _] => destruct (x =? k); [reflexivity|]
  end.
  destruct (c <? 32); [apply isWellFormed_unicodeEscape|].
  cbn [isWellFormed]. now rewrite Hh, Hl.
Qed.

Lemma isWellFormed_quoteBody (s : jsstring) : isWellFormed (quoteBody s) = true.
Proof.
  remember (length s) as n eqn:Hn. revert s Hn.
  induction n as [n IH] using lt_wf_ind. intros s Hn.
  destruct s as [|c t]; [reflexivity|].
  assert (isWellFormed (quoteBody t) = true) as Ht
    by (apply (IH (length t)); [subst; simpl; lia | reflexivity]).
  cbn [quoteBody].
  destruct (isHighSurrogate c) eqn:Hh.
  - destruct t as [|d t']; [apply isWellFormed_unicodeEscape|].
    destruct (isLowSurrogate d) eqn:Hl.
    + cbn [isWellFormed]. rewrite Hh, Hl. cbn [andb].
      apply (IH (length t')); [subst; simpl; lia | reflexivity].
    + apply isWellFormed_app; [apply isWellFormed_unicodeEscape | exact Ht].
  - destruct (isLowSurrogate c) eqn:Hl.
    + apply isWellFormed_app; [apply isWellFormed_unicodeEscape | exact Ht].
    + apply isWellFormed_app; [now apply isWellFormed_escapeUnit | exact Ht].
Qed.

Lemma isWellFormed_renderToken (t : token) : isWellFormed (renderToken t) = true.
Proof.
  destruct t; try reflexivity.
  unfold renderToken, quoteJSONString.
  change (QUOTE :: quoteBody s ++ [QUOTE]) with ([QUOTE] ++ quoteBody s ++ [QUOTE]).
  apply isWellFormed_app; [reflexivity|].
  apply isWellFormed_app; [apply isWellFormed_quoteBody | reflexivity].
Qed.

(** [JSON.stringify] never writes a lone surrogate. *)
Lemma isWellFormed_render (ts : list token) : isWellFormed (render ts) = true.
Proof.
  unfold render. induction ts as [|t ts IH]; [reflexivity|].
  cbn [List.map List.concat].
  apply isWellFormed_app; [apply isWellFormed_renderToken | exact IH].
Qed.

End WellFormedFacts.

Section EntityCodecFacts.

Lemma normalize_strings (l : list jsstring) :
  normalize (jsOfStrings l) = jsOfStrings l.
Proof.
  unfold jsOfStrings. cbn [normalize]. f_equal.
  rewrite List.map_map. reflexivity.
Qed.

Lemma asArray_strings (l : list jsstring) :
  asArray asString (jsOfStrings l) = Some l.
Proof.
  unfold jsOfStrings, asArray. rewrite List.map_map. simpl.
  induction l as [|s l IH]; simpl; [reflexivity|]. now rewrite IH.
Qed.

Lemma distinctKeys_strings (l : list jsstring) : distinctKeys (jsOfStrings l) = true.
Proof.
  unfold jsOfStrings. cbn [distinctKeys]. apply forallb_forall.
  intros x Hx. apply in_map_iff in Hx as (s & <- & _). reflexivity.
Qed.

Lemma addressOfJs_normalize (a : Address) :
  addressOfJs (normalize (jsOfAddress a)) = Some a.
Proof. destruct a as [[x|] [y|] [z|]]; reflexivity. Qed.

Lemma distinctKeys_address (a : Address) : distinctKeys (jsOfAddress a) = true.
Proof. destruct a as [[x|] [y|] [z|]]; reflexivity. Qed.

Lemma asArray_addresses (l : list Address) :
  asArray addressOfJs (normalize (Arr (List.map jsOfAddress l))) = Some l.
Proof.
  cbn [normalize asArray]. rewrite !List.map_map.
  induction l as [|a l IH]; [reflexivity|].
  cbn [List.map sequence].
  change (match jsOfAddress a with Undefined => Null | _ => normalize (jsOfAddress a) end)
    with (normalize (jsOfAddress a)).
  now rewrite addressOfJs_normalize, IH.
Qed.

Lemma normalize_jsOfEntity (e : OfacEntity) :
  normalize (jsOfEntity e) =
  Obj (entityProps (uid e) (name e) (type e) (remarks e)
         (normalize (jsOfStrings (programs e)))
         (normalize (jsOfStrings (aka e)))
         (normalize (Arr (List.map jsOfAddress (addresses e))))).
Proof. destruct e as [u n [t|] p [r|] a d]; reflexivity. Qed.

Lemma entityProps_lookup (u n : jsstring) (t r : option jsstring) (P A D : jsval) :
  let kvs := entityProps u n t r P A D in
  lookupProp (u16 "uid") kvs = Str u /\
  lookupProp (u16 "name") kvs = Str n /\
  lookupProp (u16 "type") kvs = jsOfOption t /\
  lookupProp (u16 "programs") kvs = P /\
  lookupProp (u16 "remarks") kvs = jsOfOption r /\
  lookupProp (u16 "aka") kvs = A /\
  lookupProp (u16 "addresses") kvs = D.
Proof. destruct t, r; vm_compute; repeat split. Qed.

Lemma entityOfJs_props (u n : jsstring) (t r : option jsstring) (P A D : jsval) :
  entityOfJs (Obj (entityProps u n t r P A D)) =
  match asArray asString P, asArray asString A, asArray addressOfJs D with
  | Some p, Some a, Some d =>
      Some {| uid := u; name := n; type := t; programs := p; remarks := r;
              aka := a; addresses := d |}
  | _, _, _ => None
  end.
Proof.
  destruct (entityProps_lookup u n t r P A D) as (Hu & Hn & Ht & Hp & Hr & Ha & Hd).
  unfold entityOfJs, get. rewrite Hu, Hn, Ht, Hp, Hr, Ha, Hd.
  destruct t, r, (asArray asString P), (asArray asString A),
    (asArray addressOfJs D); reflexivity.
Qed.

Lemma entityOfJs_normalize (e : OfacEntity) :
  entityOfJs (normalize (jsOfEntity e)) = Some e.
Proof.
  rewrite normalize_jsOfEntity, entityOfJs_props, !normalize_strings,
    !asArray_strings, asArray_addresses.
  now destruct e.
Qed.

Lemma distinctKeys_jsOfEntity (e : OfacEntity) : distinctKeys (jsOfEntity e) = true.
Proof.
  unfold jsOfEntity. cbn [distinctKeys List.map fst snd forallb].
  rewrite !distinctKeys_strings. 
  replace (forallb distinctKeys (List.map jsOfAddress (addresses e))) with true.
  - now destruct (type e), (remarks e).
  - symmetry. apply forallb_forall. intros x Hx.
    apply in_map_iff in Hx as (a & <- & _). apply distinctKeys_address.
Qed.

Lemma entitiesOfJs_normalize (x : list OfacEntity) :
  entitiesOfJs (normalize (jsOfEntities x)) = Some x.
Proof.
  unfold entitiesOfJs, jsOfEntities. cbn [normalize asArray]. rewrite !List.map_map.
  induction x as [|e x IH]; [reflexivity|].
  cbn [List.map sequence].
  change (match jsOfEntity e with Undefined => Null | _ => normalize (jsOfEntity e) end)
    with (normalize (jsOfEntity e)).
  now rewrite entityOfJs_normalize, IH.
Qed.

Lemma distinctKeys_jsOfEntities (x : list OfacEntity) :
  distinctKeys (jsOfEntities x) = true.
Proof.
  unfold jsOfEntities. cbn [distinctKeys]. apply forallb_forall. intros v Hv.
  apply in_map_iff in Hv as (e & <- & _). apply distinctKeys_jsOfEntity.
Qed.

End EntityCodecFacts.

Section CodecFacts.

Variable gzipSync : buffer -> buffer.
Variable gunzipSync : buffer -> option buffer.
Variable utf8Encode : jsstring -> buffer.
Variable utf8Decode : buffer -> jsstring.

(** zlib is lossless, and so is UTF-8 on text without lone surrogates. *)
Hypothesis gunzip_gzip : forall b, gunzipSync (gzipSync b) = Some b.
Hypothesis utf8_lossless :
  forall s, isWellFormed s = true -> utf8Decode (utf8Encode s) = s.

(** C3 (Serialization Round Trip).  For every entity sequence [x] -
    whatever optional fields are absent and whatever sub-sequences are
    empty - encoding (JSON.stringify, UTF-8, gzip) yields a blob, and
    decoding that blob (gunzip, UTF-8, JSON.parse) yields the value that
    [x] has once the properties holding [undefined] are dropped; read at
    the type of an entity array this value is [x] itself: same order,
    same fields, absent fields absent and present fields present. *)
Theorem serialization_round_trip (x : list OfacEntity) :
  exists blob,
    encode gzipSync utf8Encode x = Some blob /\
    decodeJs gunzipSync utf8Decode blob = Some (normalize (jsOfEntities x)) /\
    decode gunzipSync utf8Decode blob = Some x.
Proof.
  unfold encode, decode, decodeJs.
  destruct (stringify (jsOfEntities x)) as [text|] eqn:Hs; [|discriminate].
  eexists. split; [reflexivity|].
  rewrite gunzip_gzip, utf8_lossless.
  - rewrite (parse_stringify _ _ (distinctKeys_jsOfEntities x) Hs).
    split; [reflexivity | apply entitiesOfJs_normalize].
  - unfold stringify in Hs. destruct (serialize (jsOfEntities x)); [|discriminate].
    injection Hs as <-. apply isWellFormed_render.
Qed.

End CodecFacts.

(** C3, at a concrete input: an entity without optional fields and one
    with all of them, an empty remark, a surrogate pair, a lone surrogate
    and an address without fields, through a codec that stores text as it
    is. *)
Lemma serialization_round_trip_witness :
  exists blob,
    encode Samples.storeSync Samples.unitsEncode [Samples.bare; Samples.full]
      = Some blob /\
    decodeJs Samples.unstoreSync Samples.unitsDecode blob
      = Some (normalize (jsOfEntities [Samples.bare; Samples.full])) /\
    decode Samples.unstoreSync Samples.unitsDecode blob
      = Some [Samples.bare; Samples.full].
Proof.
  apply (serialization_round_trip Samples.storeSync Samples.unstoreSync
           Samples.unitsEncode Samples.unitsDecode).
  - intros b. reflexivity.
  - intros s _. reflexivity.
Defined.

(* ===================================================================== *)
(** * The update function *)
(* ===================================================================== *)

Section UpdateFacts.

Variable fetch : jsstring -> Update.FetchResult.
Variable csvParseSync : (jsstring -> jsstring) -> jsstring -> result (list row).
Variable toLowerUnicode : jsstring -> jsstring.
Variable gzipSync : buffer -> buffer.
Variable utf8Encode : jsstring -> buffer.
Variable sha256 : jsstring -> jsstring.

Lemma fetchText_fails (url : jsstring) :
  fetchFails (fetch url) = true ->
  exists m, Update.fetchText fetch url = Throw m.
Proof.
  unfold fetchFails, Update.fetchText.
  destruct (fetch url) as [m|ok status statusText text]; [eauto|].
  intros ->. eauto.
Qed.

Lemma fetchText_delivers (url : jsstring) :
  fetchFails (fetch url) = false ->
  exists body, Update.fetchText fetch url = Return body.
Proof.
  unfold fetchFails, Update.fetchText.
  destruct (fetch url) as [m|ok status statusText text]; [discriminate|].
  intros ->%negb_false_iff. eauto.
Qed.

(** C2.  The three-table handler does not do what the claim says: when
    the primary table is fetched and the fetch of the alias table or of
    the address table fails, [fetchText] throws, the [catch] clause
    answers 500 with the message of the error, and nothing is written:
    the store is the one the run started with. *)
Theorem auxiliary_fetch_failure_aborts (req : Update.Request) (now : jsstring)
    (store : Store) :
  fetchFails (fetch Update.sdnUrl) = false ->
  fetchFails (fetch Update.altUrl) = true \/
  fetchFails (fetch Update.addUrl) = true ->
  exists m,
    Update.handler fetch csvParseSync toLowerUnicode gzipSync utf8Encode
      sha256 req now store
    = (Response 500 (ErrorBody m), store).
Proof.
  intros Hsdn Haux. unfold Update.handler, Update.tryBlock.
  destruct (fetchText_delivers _ Hsdn) as [sdnCsv ->]. cbn [mbind result_bind].
  destruct (fetchFails (fetch Update.altUrl)) eqn:Halt.
  - destruct (fetchText_fails _ Halt) as [m ->]. eauto.
  - destruct (fetchText_delivers _ Halt) as [altCsv ->]. cbn [mbind result_bind].
    destruct Haux as [Haux|Hadd]; [discriminate|].
    destruct (fetchText_fails _ Hadd) as [m ->]. eauto.
Qed.

End UpdateFacts.

(** C2, at a concrete input: the host answers 404 for ALT.CSV; the run
    ends in a 500 response and the store stays empty. *)
Lemma auxiliary_fetch_failure_aborts_witness :
  exists m,
    Update.handler Samples.fetchAltMissing Samples.csvNoRows Samples.caseless
      Samples.storeSync Samples.unitsEncode Samples.noHash
      {| Update.debug := None |} (u16 "2024-01-15T10:30:00.000Z") emptyStore
    = (Response 500 (ErrorBody m), emptyStore).
Proof.
  apply (auxiliary_fetch_failure_aborts Samples.fetchAltMissing Samples.csvNoRows
           Samples.caseless Samples.storeSync Samples.unitsEncode Samples.noHash).
  - reflexivity.
  - left. reflexivity.
Defined.

(* ===================================================================== *)
(** * The read path *)
(* ===================================================================== *)

Section TrimFacts.

Lemma trimStart_nil (s : jsstring) :
  trimStart s = [] <-> forallb isWhiteSpace s = true.
Proof.
  induction s as [|c t IH]; simpl; [tauto|].
  destruct (isWhiteSpace c); simpl; [exact IH|].
  split; discriminate.
Qed.

Lemma trimStart_head (s : jsstring) (c : N) (t : jsstring) :
  trimStart s = c :: t -> isWhiteSpace c = false.
Proof.
  induction s as [|c' t' IH]; simpl; [discriminate|].
  destruct (isWhiteSpace c') eqn:Hc; [exact IH|].
  now intros [= <- _].
Qed.

Lemma forallb_rev {A} (f : A -> bool) (l : list A) :
  forallb f (rev l) = forallb f l.
Proof.
  induction l as [|x l IH]; simpl; [reflexivity|].
  rewrite forallb_app, IH. simpl. rewrite andb_true_r. apply andb_comm.
Qed.

(** Trimming leaves nothing exactly of a string of whitespace. *)
Lemma trim_nil (s : jsstring) : trim s = [] <-> forallb isWhiteSpace s = true.
Proof.
  unfold trim, trimEnd. split.
  - intros H. apply (f_equal (@rev N)) in H. rewrite rev_involutive in H.
    simpl in H. apply trimStart_nil in H. rewrite forallb_rev in H.
    destruct (trimStart s) as [|c t] eqn:Hs; [now apply trimStart_nil|].
    apply trimStart_head in Hs. simpl in H. now rewrite Hs in H.
  - intros H. apply trimStart_nil in H. now rewrite H.
Qed.

Lemma trim_orElse (q : option jsstring) :
  trim (orElse q []) = trim (default [] q).
Proof. now destruct q as [[|c s]|]. Qed.

Lemma blankQuery_trim (q : option jsstring) :
  blankQuery q = negb (nonEmpty (trim (orElse q []))).
Proof.
  rewrite trim_orElse. destruct q as [s|]; [|reflexivity]. simpl.
  destruct (forallb isWhiteSpace s) eqn:H.
  - apply trim_nil in H. now rewrite H.
  - destruct (trim s) eqn:Ht; [|reflexivity].
    apply trim_nil in Ht. congruence.
Qed.

End TrimFacts.

Section SearchFacts.

Variable gunzipSync : buffer -> option buffer.
Variable utf8Decode : buffer -> jsstring.
Variable fuseSearch : list OfacEntity -> jsstring -> jsnum -> list FuseResult.
Variable numberOther : jsstring -> jsnum.

Local Abbreviation handler :=
  (Search.handler gunzipSync utf8Decode fuseSearch numberOther).
Local Abbreviation loadDataset := (Search.loadDataset gunzipSync utf8Decode).
Local Abbreviation limitOf :=
  (fun req : Search.Request =>
     Search.mathMin50
       (Search.Number numberOther (orElse (Search.limit req) (u16 "20")))).

(** Loading reads the store at most once and never searches. *)
Lemma loadDataset_events (store : Store) (now : Z) (cached : option Search.Cached) :
  forall r c ev, loadDataset store now cached = (r, c, ev) ->
  ev = [] \/ ev = [StoreGet "dataset.json.gz"].
Proof.
  intros r c ev. unfold Search.loadDataset.
  destruct cached as [cd|]; [destruct (_ <? _)%Z|];
    try destruct (dataset_json_gz store);
    try destruct (decode gunzipSync utf8Decode _);
    intros [= <- <- <-]; auto.
Qed.

(** C10.  The search handler trims [q] before it validates it: a request
    whose [q] is absent, empty or whitespace-only is answered with the 400
    response, without a read of the store, a search or a change of the
    cache; any other request has a [q], every search made for it is made
    with the trimmed [q], and a response to it is the 200 response that
    reports the trimmed [q] and the results of that one search; such a
    response is what it gets when the dataset is there to be loaded. *)
Theorem search_query_trimmed (req : Search.Request) (now : Z) (store : Store)
    (cached : option Search.Cached) :
  (blankQuery (Search.q req) = true ->
   handler req now store cached
   = (Response 400 (ErrorBody (u16 "Missing ?q=")), cached, [])) /\
  (blankQuery (Search.q req) = false ->
   exists s, Search.q req = Some s /\
     forall out cached' events,
       handler req now store cached = (out, cached', events) ->
       (forall query limit, FuseSearch query limit ∈ events -> query = trim s) /\
       (forall status body, out = Response status body ->
          exists entities,
            status = 200 /\
            body = SearchBody (trim s)
                     (length (fuseSearch entities (trim s) (limitOf req)))
                     (List.map Search.searchItem
                        (fuseSearch entities (trim s) (limitOf req))) /\
            last events = Some (FuseSearch (trim s) (limitOf req)))) /\
  (blankQuery (Search.q req) = false ->
   forall gz entities,
     cached = None ->
     dataset_json_gz store = Some gz ->
     decode gunzipSync utf8Decode gz = Some entities ->
     exists s, Search.q req = Some s /\
       handler req now store cached
       = (Response 200
            (SearchBody (trim s)
               (length (fuseSearch entities (trim s) (limitOf req)))
               (List.map Search.searchItem
                  (fuseSearch entities (trim s) (limitOf req)))),
          Some {| Search.loadedAt := now; Search.entities := entities |},
          [StoreGet "dataset.json.gz"; FuseSearch (trim s) (limitOf req)])).
Proof.
  unfold Search.handler. rewrite (blankQuery_trim (Search.q req)).
  destruct (nonEmpty (trim (orElse (Search.q req) []))) eqn:Hq; cbn [negb].
  - split; [discriminate|].
    rewrite trim_orElse in *.
    destruct (Search.q req) as [s|]; [|discriminate]. cbn [default] in *.
    split.
    + intros _. exists s. split; [reflexivity|]. intros out cached' events.
      destruct (loadDataset store now cached) as [[r c] ev] eqn:Hload.
      apply loadDataset_events in Hload.
      destruct r as [entities|m]; intros [= <- <- <-]; split.
      * intros query lim Hin. apply elem_of_app in Hin as [Hin|Hin].
        -- destruct Hload as [-> | ->]; [now apply elem_of_nil in Hin|].
           apply list_elem_of_singleton in Hin. discriminate.
        -- apply list_elem_of_singleton in Hin. now injection Hin as ->.
      * intros status body [= <- <-]. exists entities.
        rewrite length_map, last_snoc. auto.
      * intros query lim Hin.
        destruct Hload as [-> | ->]; [now apply elem_of_nil in Hin|].
        apply list_elem_of_singleton in Hin. discriminate.
      * intros status body [=].
    + intros _ gz entities -> Hgz Hdec. exists s. split; [reflexivity|].
      unfold Search.loadDataset. rewrite Hgz, Hdec. cbn [app].
      now rewrite length_map.
  - split; [reflexivity|]. split; discriminate.
Qed.

(** Without a [limit] parameter, or with an empty one, the limit is 20. *)
Lemma search_default_limit (req : Search.Request) :
  Search.limit req = None \/ Search.limit req = Some [] ->
  limitOf req = JInteger 20.
Proof. intros [-> | ->]; reflexivity. Qed.

Lemma limitValue_mathMin50 (x : jsnum) (n : nat) :
  Fuse.limitValue x = Some n ->
  Fuse.limitValue (Search.mathMin50 x) = Some (Nat.min n 50).
Proof.
  destruct x as [| |z|f]; simpl; try discriminate.
  - destruct (Z.leb_spec 0 z); [|discriminate]. intros [= <-].
    destruct (Z.leb_spec z 50); simpl.
    + rewrite (proj2 (Z.leb_le 0 z)) by lia. f_equal. lia.
    + f_equal. lia.
  - destruct (Z.leb_spec 0 f); [|discriminate]. intros [= <-].
    destruct (Z.ltb_spec f 50); simpl.
    + rewrite (proj2 (Z.leb_le 0 f)) by lia. f_equal. lia.
    + f_equal. lia.
Qed.

(** What holds of the claim C8: when the limit parameter is absent, empty
    or a number that is not negative, and the search library keeps to
    such limits, the response has at most min(limit, 50) results, 20
    being the limit if none is given. *)
Lemma search_results_bounded (req : Search.Request) (now : Z) (store : Store)
    (cached cached' : option Search.Cached) (events : list Event)
    (q : jsstring) (count n : nat) (results : list SearchItem) :
  Fuse.respectsLimit fuseSearch ->
  handler req now store cached
    = (Response 200 (SearchBody q count results), cached', events) ->
  Fuse.limitValue
    (Search.Number numberOther (orElse (Search.limit req) (u16 "20")))
    = Some n ->
  (count <= Nat.min n 50)%nat /\ count = length results.
Proof.
  intros Hfuse Hh Hn. apply limitValue_mathMin50 in Hn.
  unfold Search.handler in Hh.
  destruct (negb _); [discriminate|].
  destruct (loadDataset store now cached) as [[[entities|m] c] ev]; [|discriminate].
  injection Hh as <- <- <- <- <-. rewrite length_map.
  split; [|reflexivity]. eapply Hfuse, Hn.
Qed.

End SearchFacts.

Section NegativeLimit.

Variable gunzipSync : buffer -> option buffer.
Variable utf8Decode : buffer -> jsstring.
Variable fuseSearch : list OfacEntity -> jsstring -> jsnum -> list FuseResult.
Variable allHits : list OfacEntity -> jsstring -> list FuseResult.
Variable numberOther : jsstring -> jsnum.

(** The slicing rule keeps to every limit that is a number and not
    negative. *)
Lemma search_respectsLimit : Fuse.respectsLimit (Fuse.search allHits).
Proof.
  intros entities q limit n Hn. unfold Fuse.search, Fuse.applyLimit.
  destruct limit as [| |z|f]; simpl in *; try discriminate.
  - destruct (Z.leb_spec 0 z); [|discriminate]. injection Hn as <-.
    rewrite (proj2 (Z.ltb_lt (-1) z)) by lia. rewrite length_take. lia.
  - destruct (Z.leb_spec 0 f); [|discriminate]. injection Hn as <-.
    rewrite (proj2 (Z.leb_le (-1) f)) by lia. rewrite length_take. lia.
Qed.

(** C8.  The handler does not do what the claim says: for [limit=-1] the
    value handed to the search is [Math.min(-1, 50) = -1], whatever the
    search library, and the response reports what the library returns for
    it; the library cuts its result only for a limit greater than [-1],
    so it returns every hit in the dataset, however many there are. *)
Theorem search_negative_limit_unbounded (now : Z) (store : Store)
    (gz : buffer) (entities : list OfacEntity) :
  dataset_json_gz store = Some gz ->
  decode gunzipSync utf8Decode gz = Some entities ->
  Search.handler gunzipSync utf8Decode fuseSearch numberOther
    Samples.minusOneRequest now store None
  = (Response 200
       (SearchBody (u16 "a")
          (length (fuseSearch entities (u16 "a") (JInteger (-1))))
          (List.map Search.searchItem
             (fuseSearch entities (u16 "a") (JInteger (-1))))),
     Some {| Search.loadedAt := now; Search.entities := entities |},
     [StoreGet "dataset.json.gz"; FuseSearch (u16 "a") (JInteger (-1))]) /\
  Fuse.search allHits entities (u16 "a") (JInteger (-1))
  = allHits entities (u16 "a").
Proof.
  intros Hgz Hdec. split; [|reflexivity].
  unfold Search.handler, Search.loadDataset.
  rewrite Hgz, Hdec. cbn. rewrite length_map. reflexivity.
Qed.

(** With that rule, the bound of the claim holds for every limit that is
    absent, empty or a number that is not negative. *)
Corollary search_results_bounded_by_rule (req : Search.Request) (now : Z)
    (store : Store) (cached cached' : option Search.Cached)
    (events : list Event) (q : jsstring) (count n : nat)
    (results : list SearchItem) :
  Search.handler gunzipSync utf8Decode (Fuse.search allHits) numberOther
    req now store cached
    = (Response 200 (SearchBody q count results), cached', events) ->
  Fuse.limitValue
    (Search.Number numberOther (orElse (Search.limit req) (u16 "20")))
    = Some n ->
  (count <= Nat.min n 50)%nat.
Proof.
  intros Hh Hn.
  eapply search_results_bounded; [apply search_respectsLimit | exact Hh | exact Hn].
Qed.

End NegativeLimit.

(** C10, at a concrete input: [q] is [a] between two spaces, the dataset
    holds two entities and nothing is cached; the search is made for
    [a]. *)
Lemma search_query_trimmed_witness :
  exists s,
    Some (u16 " a ") = Some s /\
    Search.handler Samples.unstoreSync Samples.unitsDecode
      (Fuse.search Samples.everyEntityHits) Samples.notANumber
      Samples.paddedRequest 0%Z Samples.store2 None
    = (Response 200
         (SearchBody (trim s) 2
            (List.map Search.searchItem
               (Samples.everyEntityHits [Samples.bare; Samples.full] (trim s)))),
       Some {| Search.loadedAt := 0%Z;
               Search.entities := [Samples.bare; Samples.full] |},
       [StoreGet "dataset.json.gz"; FuseSearch (trim s) (JInteger 20)]).
Proof.
  refine (proj2 (proj2 (search_query_trimmed Samples.unstoreSync
                          Samples.unitsDecode (Fuse.search Samples.everyEntityHits)
                          Samples.notANumber Samples.paddedRequest 0%Z
                          Samples.store2 None))
            _ _ [Samples.bare; Samples.full] eq_refl _ _).
  - reflexivity.
  - vm_compute. reflexivity.
  - vm_compute. reflexivity.
Defined.

(** C8, at a concrete input: a dataset of 51 entities that all match, and
    [limit=-1]: the response reports 51 results. *)
Lemma search_negative_limit_unbounded_witness :
  exists results cached events,
    Search.handler Samples.unstoreSync Samples.unitsDecode
      (Fuse.search Samples.everyEntityHits) Samples.notANumber
      Samples.minusOneRequest 0%Z Samples.store51 None
    = (Response 200 (SearchBody (u16 "a") 51 results), cached, events).
Proof.
  eexists _, _, _.
  refine (eq_trans
            (proj1 (search_negative_limit_unbounded Samples.unstoreSync
                      Samples.unitsDecode (Fuse.search Samples.everyEntityHits)
                      Samples.everyEntityHits Samples.notANumber
                      0%Z Samples.store51 _ Samples.corpus51 _ _)) _).
  - vm_compute. reflexivity.
  - vm_compute. reflexivity.
  - reflexivity.
Defined.

(* ===================================================================== *)
(** * The read path as one system *)
(* ===================================================================== *)

Section ReadPathFacts.

Variable gunzipSync : buffer -> option buffer.
Variable utf8Decode : buffer -> jsstring.
Variable fuseSearch : list OfacEntity -> jsstring -> jsnum -> list FuseResult.
Variable numberOther : jsstring -> jsnum.

Local Abbreviation serve :=
  (ReadPath.serve gunzipSync utf8Decode fuseSearch numberOther).
Local Abbreviation serveAll :=
  (ReadPath.serveAll gunzipSync utf8Decode fuseSearch numberOther).

(** On a store without a dataset, a cold instance stays cold and answers
    every well-formed request with the no-data condition. *)
Lemma serve_empty_store (now : Z) (req : ReadPath.ReadRequest) :
  wellFormedRead req = true ->
  exists out,
    serve emptyStore ReadPath.coldInstance now req = (out, ReadPath.coldInstance) /\
    isNoDataYet out = true.
Proof.
  destruct req as [r|[[|c u]|]|]; simpl; try discriminate.
  - intros Hq. apply negb_true_iff in Hq.
    unfold Search.handler. rewrite blankQuery_trim in Hq.
    apply negb_false_iff in Hq. rewrite Hq. cbn. eauto.
  - intros _. eauto.
  - intros _. eauto.
Qed.

Lemma serveAll_empty_store (reqs : list (Z * ReadPath.ReadRequest)) :
  Forall (fun r => wellFormedRead (snd r) = true) reqs ->
  Forall (fun out => isNoDataYet out = true)
    (serveAll emptyStore ReadPath.coldInstance reqs).
Proof.
  induction 1 as [|[now req] reqs Hreq _ IH]; [constructor|].
  cbn [ReadPath.serveAll].
  destruct (serve_empty_store now req Hreq) as (out & -> & Hout).
  constructor; assumption.
Qed.

(** The two conditions exclude each other. *)
Lemma isNoDataYet_not_isNotFound (out : Outcome) :
  isNoDataYet out = true -> isNotFound out = false.
Proof.
  destruct out as [status body|m]; [|reflexivity].
  destruct body; try reflexivity. intros H. vm_compute in H. discriminate H.
Qed.

Lemma mapById_lookup_None (entities : list OfacEntity) (u : jsstring) :
  u ∉ List.map uid entities -> Entity.mapById entities !! u = None.
Proof.
  unfold Entity.mapById.
  assert (forall m : gmap jsstring OfacEntity, m !! u = None ->
            u ∉ List.map uid entities ->
            foldl (fun m e => <[uid e := e]> m) m entities !! u = None) as H.
  { induction entities as [|e t IH]; intros m Hm Hu; [exact Hm|].
    cbn [List.map] in Hu. apply not_elem_of_cons in Hu as [Hne Hu].
    cbn [foldl]. apply IH; [|exact Hu].
    rewrite lookup_insert_ne by congruence. exact Hm. }
  intros Hu. apply H; [apply lookup_empty | exact Hu].
Qed.

(** C7, amended.  Whenever no dataset has been persisted, every
    well-formed read request (a search with a [q] that is not blank, an
    entity lookup with a uid, any metadata request), in whatever sequence
    they arrive at a function instance, is answered with the no-data
    condition: an error whose message begins "No dataset yet".  No outcome
    is both this condition and the not-found condition, which is what a
    lookup gets for a uid that is absent from an existing dataset. *)
Theorem no_data_distinct_from_not_found :
  (forall reqs : list (Z * ReadPath.ReadRequest),
     Forall (fun r => wellFormedRead (snd r) = true) reqs ->
     Forall (fun out => isNoDataYet out = true /\ isNotFound out = false)
       (serveAll emptyStore ReadPath.coldInstance reqs)) /\
  (forall (store : Store) (now : Z) (gz : buffer) (entities : list OfacEntity)
          (c : N) (u : jsstring),
     dataset_json_gz store = Some gz ->
     decode gunzipSync utf8Decode gz = Some entities ->
     c :: u ∉ List.map uid entities ->
     exists out inst,
       serve store ReadPath.coldInstance now (ReadPath.EntityRequest (Some (c :: u)))
         = (out, inst) /\
       out = Response 404 (NotFoundBody (c :: u)) /\
       isNotFound out = true /\ isNoDataYet out = false).
Proof.
  split.
  - intros reqs Hreqs. eapply Forall_impl; [apply serveAll_empty_store, Hreqs|].
    intros out Hout. split; [exact Hout | now apply isNoDataYet_not_isNotFound].
  - intros store now gz entities c u Hgz Hdec Hu.
    cbn [ReadPath.serve ReadPath.entityCache ReadPath.coldInstance].
    unfold Entity.handler, Entity.loadById. rewrite Hgz, Hdec.
    rewrite (mapById_lookup_None _ _ Hu). eexists _, _.
    split; [reflexivity|]. repeat split.
Qed.

End ReadPathFacts.

(** C7, counterexample.  With no dataset persisted, a search request
    without [q] and an entity lookup without uid are answered with the
    malformed-request response, which is not the no-data condition. *)
Lemma malformed_read_not_no_data :
  let serve :=
    ReadPath.serve Samples.unstoreSync Samples.unitsDecode
      (Fuse.search Samples.everyEntityHits) Samples.notANumber emptyStore
      ReadPath.coldInstance 0%Z in
  let search :=
    fst (serve (ReadPath.SearchRequest {| Search.q := None; Search.limit := None |})) in
  let lookup := fst (serve (ReadPath.EntityRequest None)) in
  search = Response 400 (ErrorBody (u16 "Missing ?q=")) /\
  isNoDataYet search = false /\
  lookup = Response 400 (ErrorBody (u16 "Missing :uid")) /\
  isNoDataYet lookup = false.
Proof. repeat split. Qed.

(** C7, at a concrete input: a search, a lookup and a metadata request on
    an empty store. *)
Lemma no_data_distinct_from_not_found_witness :
  Forall (fun out => isNoDataYet out = true /\ isNotFound out = false)
    (ReadPath.serveAll Samples.unstoreSync Samples.unitsDecode
       (Fuse.search Samples.everyEntityHits) Samples.notANumber
       emptyStore ReadPath.coldInstance
       [(0%Z, ReadPath.SearchRequest Samples.minusOneRequest);
        (1%Z, ReadPath.EntityRequest (Some (u16 "7")));
        (2%Z, ReadPath.MetaRequest)]).
Proof.
  apply (proj1 (no_data_distinct_from_not_found Samples.unstoreSync
                  Samples.unitsDecode (Fuse.search Samples.everyEntityHits)
                  Samples.notANumber)).
  repeat constructor.
Defined.
Section MoreTrimFacts.

Lemma trimStart_Forall (P : N -> Prop) (s : jsstring) :
  Forall P s -> Forall P (trimStart s).
Proof.
  induction 1 as [|c t Hc Ht IH]; simpl; [constructor|].
  destruct (isWhiteSpace c); [exact IH | now constructor].
Qed.

Lemma trim_Forall (P : N -> Prop) (s : jsstring) :
  Forall P s -> Forall P (trim s).
Proof.
  intros H. unfold trim, trimEnd.
  apply Forall_rev, trimStart_Forall, Forall_rev, trimStart_Forall, H.
Qed.

Lemma trimStart_idem (s : jsstring) : trimStart (trimStart s) = trimStart s.
Proof.
  induction s as [|c t IH]; simpl; [reflexivity|].
  destruct (isWhiteSpace c) eqn:Hc; [exact IH|]. simpl. now rewrite Hc.
Qed.

Lemma trimStart_app (a b : jsstring) :
  trimStart (a ++ b) =
  if forallb isWhiteSpace a then trimStart b else trimStart a ++ b.
Proof.
  induction a as [|c a IH]; simpl; [reflexivity|].
  destruct (isWhiteSpace c); simpl; [exact IH | reflexivity].
Qed.

Lemma trimEnd_cons (c : N) (t : jsstring) :
  trimEnd (c :: t) =
  if forallb isWhiteSpace t && isWhiteSpace c then [] else c :: trimEnd t.
Proof.
  unfold trimEnd. simpl. rewrite trimStart_app, forallb_rev.
  destruct (forallb isWhiteSpace t) eqn:Ht; simpl.
  - rewrite <- forallb_rev in Ht. apply trimStart_nil in Ht. rewrite Ht.
    destruct (isWhiteSpace c); reflexivity.
  - now rewrite rev_app_distr.
Qed.

Lemma trimStart_trimEnd (s : jsstring) :
  trimStart (trimEnd s) = trimEnd (trimStart s).
Proof.
  induction s as [|c t IH]; [reflexivity|].
  rewrite trimEnd_cons. simpl.
  destruct (isWhiteSpace c) eqn:Hc.
  - rewrite andb_true_r. destruct (forallb isWhiteSpace t) eqn:Ht.
    + apply trimStart_nil in Ht. now rewrite Ht.
    + simpl. now rewrite Hc.
  - rewrite andb_false_r. simpl. rewrite Hc, trimEnd_cons, Hc.
    now rewrite andb_false_r.
Qed.

Lemma trimEnd_idem (s : jsstring) : trimEnd (trimEnd s) = trimEnd s.
Proof. unfold trimEnd. now rewrite rev_involutive, trimStart_idem. Qed.

(** Trimming twice is trimming once. *)
Lemma trim_idem (s : jsstring) : trim (trim s) = trim s.
Proof.
  unfold trim. now rewrite trimStart_trimEnd, trimStart_idem, trimEnd_idem.
Qed.

(** A string without whitespace is its own trim. *)
Lemma trim_no_whitespace (s : jsstring) :
  Forall (fun c => isWhiteSpace c = false) s -> trim s = s.
Proof.
  assert (forall t, Forall (fun c => isWhiteSpace c = false) t -> trimStart t = t)
    as Hstart.
  { intros t [|c t' Hc _]; simpl; [reflexivity | now rewrite Hc]. }
  intros H. unfold trim, trimEnd. rewrite (Hstart s H).
  rewrite Hstart by now apply Forall_rev. apply rev_involutive.
Qed.

End MoreTrimFacts.
Lemma forallb_Forall {A} (f : A -> bool) (l : list A) :
  forallb f l = true <-> Forall (fun x => f x = true) l.
Proof.
  induction l as [|x l IH]; simpl.
  - split; [constructor | reflexivity].
  - rewrite andb_true_iff, IH. split.
    + intros [? ?]. now constructor.
    + intros H. inversion H; subst. auto.
Qed.

Lemma asciiLower_not_upper (c : N) : isUpperAscii (asciiLower c) = false.
Proof.
  unfold asciiLower, isUpperAscii.
  destruct (N.leb_spec 0x41 c), (N.leb_spec c 0x5A); simpl;
    apply andb_false_iff; rewrite !N.leb_gt; lia.
Qed.

Lemma lowerAscii_not_upper (s : jsstring) :
  forallb (fun c => negb (isUpperAscii c)) (MoreSamples.lowerAscii s) = true.
Proof.
  unfold MoreSamples.lowerAscii. induction s as [|c s IH]; simpl; [reflexivity|].
  now rewrite asciiLower_not_upper, IH.
Qed.

Section HeaderClosure.

Variable punctuation separator : N -> bool.

(** What is neither removed nor collapsed is a word character, and a
    header character is neither removed nor collapsed. *)
Hypothesis kept_word :
  forall c, punctuation c = false -> separator c = false -> isWordChar c = true.
Hypothesis header_kept :
  forall c, isHeaderChar c = true -> punctuation c = false /\ separator c = false.

Local Abbreviation normalize := (fun lu header =>
  replaceRuns separator (u16 "_")
    (replaceClass punctuation []
      (replaceClass (N.eqb BOM) [] (toLowerCase lu (trim header))))).

Lemma replaceClass_removes (cls : N -> bool) (P : N -> Prop) (s : jsstring) :
  Forall P s ->
  Forall (fun c => P c /\ cls c = false) (replaceClass cls [] s).
Proof.
  induction 1 as [|c t Hc _ IH]; simpl; [constructor|].
  destruct (cls c) eqn:E; [exact IH | now constructor].
Qed.

Lemma replaceRuns_from_Forall (cls : N -> bool) (P Q : N -> Prop)
    (rep s : jsstring) :
  Forall Q rep ->
  (forall c, P c -> cls c = false -> Q c) ->
  Forall P s ->
  forall inRun, Forall Q (replaceRuns_from inRun cls rep s).
Proof.
  intros Hrep HPQ. induction 1 as [|c t Hc _ IH]; intros inRun; simpl.
  - constructor.
  - destruct (cls c) eqn:E.
    + destruct inRun; [apply IH|]. apply Forall_app. split; [exact Hrep | apply IH].
    + constructor; [now apply HPQ | apply IH].
Qed.

Lemma replaceClass_id (cls : N -> bool) (rep s : jsstring) :
  Forall (fun c => cls c = false) s -> replaceClass cls rep s = s.
Proof.
  induction 1 as [|c t Hc _ IH]; simpl; [reflexivity|]. now rewrite Hc, IH.
Qed.

Lemma replaceRuns_id (cls : N -> bool) (rep s : jsstring) :
  Forall (fun c => cls c = false) s -> replaceRuns cls rep s = s.
Proof.
  unfold replaceRuns.
  induction 1 as [|c t Hc _ IH]; simpl; [reflexivity|]. now rewrite Hc, IH.
Qed.

Lemma toLowerCase_not_upper (lu : jsstring -> jsstring) (s : jsstring) :
  (forall s, forallb (fun c => negb (isUpperAscii c)) (lu s) = true) ->
  Forall (fun c => isUpperAscii c = false) (toLowerCase lu s).
Proof.
  intros Hlu. unfold toLowerCase. destruct (forallb isAscii s).
  - induction s as [|c s IH]; simpl; constructor;
      [apply asciiLower_not_upper | exact IH].
  - specialize (Hlu s). apply forallb_Forall in Hlu.
    eapply Forall_impl; [exact Hlu|]. intros c Hc. now apply negb_true_iff.
Qed.

Lemma word_not_upper (c : N) :
  isWordChar c = true -> isUpperAscii c = false -> isHeaderChar c = true.
Proof.
  unfold isWordChar, isUpperAscii, isHeaderChar.
  destruct ((0x41 <=? c) && (c <=? 0x5A)); [discriminate|]. simpl.
  now intros -> _.
Qed.

Lemma normalize_header_chars (lu : jsstring -> jsstring) (header : jsstring) :
  (forall s, forallb (fun c => negb (isUpperAscii c)) (lu s) = true) ->
  Forall (fun c => isHeaderChar c = true) (normalize lu header).
Proof.
  intros Hlu. cbv beta. unfold replaceRuns.
  eapply (replaceRuns_from_Forall separator
            (fun c => (isUpperAscii c = false /\ (BOM =? c) = false)
                      /\ punctuation c = false)).
  - repeat constructor.
  - intros c [[Hup _] Hp] Hs. apply word_not_upper; auto.
  - apply replaceClass_removes, replaceClass_removes, toLowerCase_not_upper, Hlu.
Qed.

Lemma headerChar_plain (c : N) :
  isHeaderChar c = true ->
  isWhiteSpace c = false /\ isAscii c = true /\ asciiLower c = c /\
  (BOM =? c) = false.
Proof.
  unfold isHeaderChar, isWhiteSpace, isAscii, asciiLower, BOM.
  rewrite !orb_true_iff, !andb_true_iff, !N.leb_le, N.eqb_eq. intros H.
  repeat split.
  - repeat (apply orb_false_intro); try apply andb_false_iff;
      rewrite ?N.eqb_neq, ?N.leb_gt; lia.
  - apply N.ltb_lt. lia.
  - destruct (N.leb_spec 0x41 c), (N.leb_spec c 0x5A); simpl; try reflexivity; lia.
  - apply N.eqb_neq. lia.
Qed.

Lemma normalize_fixes (lu : jsstring -> jsstring) (s : jsstring) :
  Forall (fun c => isHeaderChar c = true) s -> normalize lu s = s.
Proof.
  intros H. cbv beta.
  rewrite trim_no_whitespace
    by (eapply Forall_impl; [exact H | intros c Hc; now apply headerChar_plain]).
  unfold toLowerCase.
  assert (forallb isAscii s = true) as ->.
  { apply forallb_Forall. eapply Forall_impl; [exact H|].
    intros c Hc. now apply headerChar_plain. }
  assert (List.map asciiLower s = s) as ->.
  { clear -H. induction H as [|c t Hc _ IH]; simpl; [reflexivity|].
    apply headerChar_plain in Hc as (_ & _ & -> & _). now rewrite IH. }
  rewrite (replaceClass_id (N.eqb BOM))
    by (eapply Forall_impl; [exact H | intros c Hc; now apply headerChar_plain]).
  rewrite (replaceClass_id punctuation)
    by (eapply Forall_impl; [exact H | intros c Hc; now apply header_kept]).
  apply replaceRuns_id.
  eapply Forall_impl; [exact H | intros c Hc; now apply header_kept].
Qed.

End HeaderClosure.

Lemma parser_kept_word (c : N) :
  Parser.isPunctuation c = false -> Parser.isSeparator c = false ->
  isWordChar c = true.
Proof.
  unfold Parser.isPunctuation, Parser.isSeparator.
  intros Hp Hs. apply negb_false_iff in Hp. apply orb_false_iff in Hs as [Hh Hw].
  rewrite Hh, Hw, !orb_false_r in Hp. exact Hp.
Qed.

Lemma headerChar_word (c : N) : isHeaderChar c = true -> isWordChar c = true.
Proof.
  unfold isHeaderChar, isWordChar. intros H.
  destruct ((0x41 <=? c) && (c <=? 0x5A)); [reflexivity|]. exact H.
Qed.

Lemma parser_header_kept (c : N) :
  isHeaderChar c = true ->
  Parser.isPunctuation c = false /\ Parser.isSeparator c = false.
Proof.
  intros H. unfold Parser.isPunctuation, Parser.isSeparator.
  rewrite (headerChar_word c H). split; [reflexivity|].
  destruct (headerChar_plain c H) as (-> & _). rewrite orb_false_r.
  unfold isHeaderChar, HYPHEN in *. apply N.eqb_neq.
  rewrite !orb_true_iff, !andb_true_iff, !N.leb_le, N.eqb_eq in H. lia.
Qed.

Lemma legacy_kept_word (c : N) :
  UpdateLegacy.isPunctuation c = false -> isWhiteSpace c = false ->
  isWordChar c = true.
Proof.
  unfold UpdateLegacy.isPunctuation. intros Hp Hw.
  apply negb_false_iff in Hp. now rewrite Hw, orb_false_r in Hp.
Qed.

Lemma legacy_header_kept (c : N) :
  isHeaderChar c = true ->
  UpdateLegacy.isPunctuation c = false /\ isWhiteSpace c = false.
Proof.
  intros H. unfold UpdateLegacy.isPunctuation.
  rewrite (headerChar_word c H). split; [reflexivity|].
  now apply headerChar_plain.
Qed.

(** X2.  When the platform's case conversion yields no upper-case ASCII
    letter (as [toLowerCase] does), [normalizeHeader] - the one of the
    parser and the copy in the single-table update function alike -
    returns a string made of [a-z], [0-9] and underscores only, and
    normalizing that string again returns it unchanged. *)
Theorem normalizeHeader_idempotent (toLowerUnicode : jsstring -> jsstring)
    (header : jsstring) :
  (forall s, forallb (fun c => negb (isUpperAscii c)) (toLowerUnicode s) = true) ->
  let h := Parser.normalizeHeader toLowerUnicode header in
  let h' := UpdateLegacy.normalizeHeader toLowerUnicode header in
  (forallb isHeaderChar h = true /\
   Parser.normalizeHeader toLowerUnicode h = h) /\
  (forallb isHeaderChar h' = true /\
   UpdateLegacy.normalizeHeader toLowerUnicode h' = h').
Proof.
  intros Hlu h h'.
  pose proof (normalize_header_chars Parser.isPunctuation Parser.isSeparator
                parser_kept_word toLowerUnicode header Hlu) as H.
  pose proof (normalize_header_chars UpdateLegacy.isPunctuation isWhiteSpace
                legacy_kept_word toLowerUnicode header Hlu) as H'.
  split; (split; [now apply forallb_Forall|]).
  - apply (normalize_fixes Parser.isPunctuation Parser.isSeparator
             parser_header_kept toLowerUnicode h H).
  - apply (normalize_fixes UpdateLegacy.isPunctuation isWhiteSpace
             legacy_header_kept toLowerUnicode h' H').
Qed.

(** X2, at a concrete input: the header [" Ent-Num (ID) "] becomes
    [ent_num_id], which normalizes to itself. *)
Lemma normalizeHeader_idempotent_witness :
  let h := Parser.normalizeHeader MoreSamples.lowerAscii (u16 " Ent-Num (ID) ") in
  let h' := UpdateLegacy.normalizeHeader MoreSamples.lowerAscii (u16 " Ent-Num (ID) ") in
  (forallb isHeaderChar h = true /\
   Parser.normalizeHeader MoreSamples.lowerAscii h = h) /\
  (forallb isHeaderChar h' = true /\
   UpdateLegacy.normalizeHeader MoreSamples.lowerAscii h' = h').
Proof.
  apply (normalizeHeader_idempotent MoreSamples.lowerAscii (u16 " Ent-Num (ID) ")).
  exact lowerAscii_not_upper.
Defined.
(* ===================================================================== *)
(** * Further properties of the parser *)
(* ===================================================================== *)

(** X1.  [firstDefined] tries the candidate keys in order: over two
    candidate lists, one after the other, it returns what the first list
    gives and turns to the second only if the first gives nothing; it
    returns [undefined] exactly when no candidate holds a value that is
    not blank; and what it returns is the cell of some candidate as it
    stands, not trimmed, and not blank. *)
Theorem firstDefined_in_order (r : row) (keys more : list jsstring) :
  firstDefined r (keys ++ more) =
    match firstDefined r keys with
    | Some v => Some v
    | None => firstDefined r more
    end /\
  (firstDefined r keys = None <->
   Forall (fun k => hasValue (rowGet r k) = false) keys) /\
  (forall v, firstDefined r keys = Some v ->
     isBlank v = false /\ exists k, k ∈ keys /\ rowGet r k = CString v).
Proof.
  split; [|split].
  - induction keys as [|k ks IH]; simpl; [reflexivity|].
    destruct (rowGet r k) as [| |s]; auto.
    destruct (isBlank s); simpl; auto.
  - induction keys as [|k ks IH]; simpl.
    + split; [constructor | reflexivity].
    + rewrite Forall_cons, <- IH. destruct (rowGet r k) as [| |s]; simpl; try tauto.
      destruct (isBlank s); simpl; [tauto|]. split; [discriminate | intros [[=] _]].
  - intros v Hv. split; [eapply firstDefined_not_blank, Hv|].
    apply firstDefined_first in Hv as (pre & k & post & -> & Hk & _).
    exists k. split; [|exact Hk]. apply elem_of_app. right. apply elem_of_cons. now left.
Qed.

Section ProgramFacts.

Lemma splitRuns_from_pieces (cls : N -> bool) (s : jsstring) :
  forall inRun cur,
  Forall (fun c => cls c = false) cur ->
  Forall (Forall (fun c => cls c = false)) (splitRuns_from inRun cls cur s).
Proof.
  induction s as [|c t IH]; intros inRun cur Hcur; simpl.
  - constructor; [now apply Forall_rev | constructor].
  - destruct (cls c) eqn:E.
    + destruct inRun; [apply IH; constructor|].
      constructor; [now apply Forall_rev | apply IH; constructor].
    + apply IH. now constructor.
Qed.


(** The tokens of a program field. *)
Lemma parsePrograms_pieces (raw : jsstring) :
  Forall (fun p => nonEmpty p = true /\ trim p = p /\
                   Forall (fun c => isProgramSeparator c = false) p)
    (parsePrograms raw).
Proof.
  unfold parsePrograms. destruct (nonEmpty raw); [|constructor].
  pose proof (splitRuns_from_pieces isProgramSeparator raw false []
                ltac:(constructor)) as H.
  fold (splitRuns isProgramSeparator raw) in H.
  induction H as [|p ps Hp _ IH]; simpl; [constructor|].
  destruct (nonEmpty (trim p)) eqn:E; [|exact IH].
  constructor; [|exact IH].
  split; [exact E|]. split; [apply trim_idem | now apply trim_Forall].
Qed.



End ProgramFacts.


Section ExtractMore.

Lemma filterBoolean_app {A} (l1 l2 : list (option A)) :
  filterBoolean (l1 ++ l2) = filterBoolean l1 ++ filterBoolean l2.
Proof.
  induction l1 as [|[x|] l1 IH]; simpl; [reflexivity| |exact IH].
  now rewrite IH.
Qed.

Lemma filterBoolean_elem {A} (l : list (option A)) (x : A) :
  x ∈ filterBoolean l <-> Some x ∈ l.
Proof.
  induction l as [|[y|] l IH]; simpl.
  - split; intros H; now apply elem_of_nil in H.
  - rewrite !elem_of_cons, IH. split; intros [H|H]; auto; left; congruence.
  - rewrite elem_of_cons, IH. split; [auto|]. now intros [[=]|H].
Qed.

End ExtractMore.

(** X4.  [extractEntities] treats each row on its own: the entities of a
    table that is cut in two are those of the first part followed by
    those of the second, an entity is in the result exactly when some row
    of the table yields it, and there are never more entities than
    rows. *)
Theorem extractEntities_rowwise (rows1 rows2 : list row) :
  extractEntities (rows1 ++ rows2)
  = extractEntities rows1 ++ extractEntities rows2 /\
  (forall e, e ∈ extractEntities rows1 <->
             exists r, r ∈ rows1 /\ extractRow r = Some e) /\
  (length (extractEntities rows1) <= length rows1)%nat.
Proof.
  unfold extractEntities. split; [|split].
  - now rewrite map_app, filterBoolean_app.
  - intros e. rewrite filterBoolean_elem.
    change (List.map extractRow rows1) with (extractRow <$> rows1).
    rewrite list_elem_of_fmap. split.
    + intros (r & Hr & Hin). eauto.
    + intros (r & Hin & Hr). eauto.
  - induction rows1 as [|r rows IH]; simpl; [lia|].
    destruct (extractRow r); simpl; lia.
Qed.

(** X5.  An entity that [extractEntities] returns has no alias and no
    address yet, its type and its remarks are absent or not blank (an
    empty or whitespace-only cell never becomes a field), and each of its
    programs is a trimmed, non-empty piece of the program cell. *)
Theorem extractEntities_fields (rows : list row) :
  Forall (fun e =>
            aka e = [] /\ addresses e = [] /\
            (forall t, type e = Some t -> isBlank t = false) /\
            (forall t, remarks e = Some t -> isBlank t = false) /\
            Forall (fun p => p <> [] /\ trim p = p) (programs e))
    (extractEntities rows).
Proof.
  unfold extractEntities.
  induction rows as [|r rows IH]; simpl; [constructor|].
  rewrite extractRow_spec.
  destruct (firstDefined r UID_KEYS); [|exact IH].
  destruct (firstDefined r NAME_KEYS); [|exact IH].
  constructor; [|exact IH]. cbn [aka addresses type remarks programs].
  repeat split.
  - intros t. apply firstDefined_not_blank.
  - intros t. apply firstDefined_not_blank.
  - eapply Forall_impl; [apply parsePrograms_pieces|].
    intros p (Hp & Ht & _). split; [now destruct p | exact Ht].
Qed.
Section ConsolidatorMore.

Lemma lastIndexOf_uids (u : jsstring) (a : list OfacEntity) :
  forall b, List.map uid a = List.map uid b -> lastIndexOf u a = lastIndexOf u b.
Proof.
  induction a as [|x a IH]; intros [|y b] H; try discriminate; [reflexivity|].
  injection H as Hxy Hab. simpl. rewrite (IH b Hab), Hxy. reflexivity.
Qed.

(** The uid map depends on the uids only. *)
Lemma entityMap_uids (a b : list OfacEntity) :
  List.map uid a = List.map uid b -> entityMap a = entityMap b.
Proof.
  intros H. apply map_eq. intros u.
  rewrite !entityMap_lookup. now apply lastIndexOf_uids.
Qed.

Lemma joins_uids {A} (payload : row -> option (jsstring * A))
    (a b : list OfacEntity) (r : row) :
  List.map uid a = List.map uid b -> joins payload a r = joins payload b r.
Proof. unfold joins. now intros ->. Qed.

Lemma consolidateAltData_total (entities : list OfacEntity) (rows : list row) :
  totalSize akaCount (consolidateAltData entities rows) =
  (totalSize akaCount entities
   + length (List.filter (joins aliasPayload entities) rows))%nat.
Proof.
  rewrite consolidateAltData_loop.
  apply (joinLoop_total aliasPayload pushAka akaCount);
    auto using akaCount_push.
Qed.

Lemma consolidateAddData_total (entities : list OfacEntity) (rows : list row) :
  totalSize addressCount (consolidateAddData entities rows) =
  (totalSize addressCount entities
   + length (List.filter (joins addressPayload entities) rows))%nat.
Proof.
  rewrite consolidateAddData_loop.
  apply (joinLoop_total addressPayload pushAddress addressCount);
    auto using addressCount_push.
Qed.

Lemma consolidateAltData_app (entities : list OfacEntity) (rows1 rows2 : list row) :
  consolidateAltData entities (rows1 ++ rows2)
  = consolidateAltData (consolidateAltData entities rows1) rows2.
Proof.
  unfold consolidateAltData. rewrite foldl_app.
  change (foldl (altStep (entityMap entities)) entities rows1)
    with (consolidateAltData entities rows1).
  now rewrite (entityMap_uids _ _ (consolidateAltData_uids entities rows1)).
Qed.

Lemma consolidateAddData_app (entities : list OfacEntity) (rows1 rows2 : list row) :
  consolidateAddData entities (rows1 ++ rows2)
  = consolidateAddData (consolidateAddData entities rows1) rows2.
Proof.
  unfold consolidateAddData. rewrite foldl_app.
  change (foldl (addStep (entityMap entities)) entities rows1)
    with (consolidateAddData entities rows1).
  now rewrite (entityMap_uids _ _ (consolidateAddData_uids entities rows1)).
Qed.

Lemma consolidateAltData_length (entities : list OfacEntity) (rows : list row) :
  length (consolidateAltData entities rows) = length entities.
Proof.
  rewrite <- (length_map uid), consolidateAltData_uids. apply length_map.
Qed.

Lemma consolidateAddData_length (entities : list OfacEntity) (rows : list row) :
  length (consolidateAddData entities rows) = length entities.
Proof.
  rewrite <- (length_map uid), consolidateAddData_uids. apply length_map.
Qed.

End ConsolidatorMore.

(** X6.  Either consolidator can be run batch by batch: consolidating the
    rows of an auxiliary table in one call gives the same collection as
    consolidating a first part of the table and then, on the result, the
    rest of it. *)
Theorem consolidate_in_batches (entities : list OfacEntity)
    (rows1 rows2 : list row) :
  consolidateAltData entities (rows1 ++ rows2)
  = consolidateAltData (consolidateAltData entities rows1) rows2 /\
  consolidateAddData entities (rows1 ++ rows2)
  = consolidateAddData (consolidateAddData entities rows1) rows2.
Proof.
  split; [apply consolidateAltData_app | apply consolidateAddData_app].
Qed.

(** X7.  The order of the two consolidations does not matter: attaching
    the addresses after the aliases, as the update function does, gives
    the same collection as attaching the aliases after the addresses. *)
Theorem consolidators_commute (entities : list OfacEntity)
    (altRows addRows : list row) :
  consolidateAddData (consolidateAltData entities altRows) addRows
  = consolidateAltData (consolidateAddData entities addRows) altRows.
Proof.
  apply list_eq. intros i.
  destruct (entities !! i) as [e|] eqn:Hi.
  - pose proof (consolidateAltData_at entities altRows i e Hi) as Halt.
    pose proof (consolidateAddData_at entities addRows i e Hi) as Hadd.
    rewrite (consolidateAddData_at _ addRows i _ Halt).
    rewrite (consolidateAltData_at _ altRows i _ Hadd).
    rewrite (lastIndexOf_uids _ _ _ (consolidateAltData_uids entities altRows)).
    rewrite (lastIndexOf_uids _ _ _ (consolidateAddData_uids entities addRows)).
    f_equal.
    destruct (decide (lastIndexOf (uid e) entities = Some i)) as [Hl|Hl].
    + cbn [appendAka appendAddresses uid]. rewrite !decide_True by exact Hl.
      reflexivity.
    + rewrite !decide_False by exact Hl. reflexivity.
  - apply lookup_ge_None in Hi.
    rewrite !(proj2 (lookup_ge_None _ _)); [reflexivity| |].
    + now rewrite consolidateAltData_length, consolidateAddData_length.
    + now rewrite consolidateAddData_length, consolidateAltData_length.
Qed.

(** X8.  The consolidators append and never look at what an entity
    already holds: consolidating the same rows a second time attaches
    every joining alias (address) once more, so the number of aliases
    (addresses) grows by twice the number of joining rows, and as soon as
    one row joins, the second run changes the collection. *)
Theorem consolidate_twice_duplicates (entities : list OfacEntity)
    (rows : list row) :
  let altOnce := consolidateAltData entities rows in
  let addOnce := consolidateAddData entities rows in
  let aliasJoins := length (List.filter (joins aliasPayload entities) rows) in
  let addressJoins := length (List.filter (joins addressPayload entities) rows) in
  totalSize akaCount (consolidateAltData altOnce rows)
  = (totalSize akaCount entities + 2 * aliasJoins)%nat /\
  totalSize addressCount (consolidateAddData addOnce rows)
  = (totalSize addressCount entities + 2 * addressJoins)%nat /\
  (aliasJoins <> 0%nat -> consolidateAltData altOnce rows <> altOnce) /\
  (addressJoins <> 0%nat -> consolidateAddData addOnce rows <> addOnce).
Proof.
  intros altOnce addOnce aliasJoins addressJoins.
  assert (totalSize akaCount (consolidateAltData altOnce rows)
          = (totalSize akaCount altOnce + aliasJoins)%nat) as Halt.
  { rewrite consolidateAltData_total. f_equal. subst aliasJoins. f_equal.
    apply filter_ext_bool. intros r. apply joins_uids, consolidateAltData_uids. }
  assert (totalSize addressCount (consolidateAddData addOnce rows)
          = (totalSize addressCount addOnce + addressJoins)%nat) as Hadd.
  { rewrite consolidateAddData_total. f_equal. subst addressJoins. f_equal.
    apply filter_ext_bool. intros r. apply joins_uids, consolidateAddData_uids. }
  pose proof (consolidateAltData_total entities rows) as Halt1.
  pose proof (consolidateAddData_total entities rows) as Hadd1.
  fold altOnce aliasJoins in Halt1. fold addOnce addressJoins in Hadd1.
  repeat split.
  - lia.
  - lia.
  - intros Hn Heq. rewrite Heq in Halt. lia.
  - intros Hn Heq. rewrite Heq in Hadd. lia.
Qed.

(** X9.  A consolidator changes nothing but the list it feeds: the
    collection returned by [consolidateAltData] has the same entities at
    the same positions, each with its uid, name, type, programs, remarks
    and addresses as before and with its former aliases followed by the
    new ones; likewise [consolidateAddData] only extends the address
    lists. *)
Theorem consolidate_only_appends (entities : list OfacEntity) (rows : list row) :
  Forall2 (fun e e' => exists l, e' = appendAka l e)
    entities (consolidateAltData entities rows) /\
  Forall2 (fun e e' => exists l, e' = appendAddresses l e)
    entities (consolidateAddData entities rows).
Proof.
  split.
  - apply Forall2_same_length_lookup_2.
    + now rewrite consolidateAltData_length.
    + intros i e e' Hi. rewrite (consolidateAltData_at _ rows i e Hi).
      intros [= <-]. destruct (decide _); [eauto|].
      exists []. now rewrite appendAka_nil.
  - apply Forall2_same_length_lookup_2.
    + now rewrite consolidateAddData_length.
    + intros i e e' Hi. rewrite (consolidateAddData_at _ rows i e Hi).
      intros [= <-]. destruct (decide _); [eauto|].
      exists []. now rewrite appendAddresses_nil.
Qed.
(* ===================================================================== *)
(** * Further properties of the update function *)
(* ===================================================================== *)

Section UpdateMore.

Variable fetch : jsstring -> Update.FetchResult.
Variable csvParseSync : (jsstring -> jsstring) -> jsstring -> result (list row).
Variable toLowerUnicode : jsstring -> jsstring.
Variable gzipSync : buffer -> buffer.
Variable utf8Encode : jsstring -> buffer.
Variable sha256 : jsstring -> jsstring.

Local Abbreviation handler :=
  (Update.handler fetch csvParseSync toLowerUnicode gzipSync utf8Encode sha256).
Local Abbreviation readTables := (readTables fetch csvParseSync toLowerUnicode).

(** [JSON.stringify] of an entity array is always a string. *)
Lemma stringify_entities (x : list OfacEntity) :
  exists text, stringify (jsOfEntities x) = Some text.
Proof. eexists. reflexivity. Qed.

(** The handler, in terms of what it reads. *)
Lemma handler_readTables (req : Update.Request) (now : jsstring) (store : Store) :
  handler req now store =
  match readTables with
  | Throw m => (Response 500 (ErrorBody m), store)
  | Return t =>
      if decide (Update.debug req = Some (u16 "1")) then
        (Response 200
           (DebugBody (head (sdnRows t)) (head (altRows t)) (head (addRows t))
              (length (sdnRows t)) (length (altRows t)) (length (addRows t))),
         store)
      else
        (Response 200 (UpdateBody (metaOf sha256 now t)),
         {| dataset_json_gz :=
              encode gzipSync utf8Encode
                (collection (sdnRows t) (altRows t) (addRows t));
            meta_json := Some (metaOf sha256 now t) |})
  end.
Proof.
  unfold Update.handler, Update.tryBlock, Vocabulary.readTables.
  destruct (Update.fetchText fetch Update.sdnUrl) as [sdn|m]; [|reflexivity].
  destruct (Update.fetchText fetch Update.altUrl) as [alt|m]; [|reflexivity].
  destruct (Update.fetchText fetch Update.addUrl) as [add|m]; [|reflexivity].
  cbn [mbind result_bind].
  destruct (Update.parseCSV csvParseSync toLowerUnicode sdn) as [r1|m]; [|reflexivity].
  destruct (Update.parseCSV csvParseSync toLowerUnicode alt) as [r2|m]; [|reflexivity].
  destruct (Update.parseCSV csvParseSync toLowerUnicode add) as [r3|m]; [|reflexivity].
  cbn [mbind result_bind sdnRows altRows addRows].
  destruct (decide (Update.debug req = Some (u16 "1"))); reflexivity.
Qed.

(** X10.  The three-table handler always answers and never rejects, and
    everything that can fail before the first write - the fetches, the
    parses, the encoding - is done before it.  With writes to the store
    that succeed, it therefore writes all or nothing: either the store
    is the one the run started with - and the answer is the 500 response
    or, in debug mode, the debug report - or the run was not in debug
    mode, the answer is the 200 response with the metadata, and the
    store holds a dataset together with exactly that metadata; what was
    stored before does not enter what is stored after. *)
Theorem update_all_or_nothing (req : Update.Request) (now : jsstring)
    (store : Store) :
  let out := fst (handler req now store) in
  let store' := snd (handler req now store) in
  (store' = store /\
   ((exists m, out = Response 500 (ErrorBody m)) \/
    (Update.debug req = Some (u16 "1") /\
     exists s1 s2 s3 n1 n2 n3, out = Response 200 (DebugBody s1 s2 s3 n1 n2 n3))))
  \/
  (Update.debug req <> Some (u16 "1") /\
   exists gz meta,
     out = Response 200 (UpdateBody meta) /\
     store' = {| dataset_json_gz := Some gz; meta_json := Some meta |} /\
     forall other, handler req now other = (out, store')).
Proof.
  cbv zeta. rewrite handler_readTables.
  destruct readTables as [t|m] eqn:Ht.
  - destruct (decide (Update.debug req = Some (u16 "1"))) as [Hd|Hd].
    + left. split; [reflexivity|]. right. split; [exact Hd|]. cbn [fst]. eauto 10.
    + right. split; [exact Hd|].
      destruct (stringify_entities (collection (sdnRows t) (altRows t) (addRows t)))
        as [text Htext].
      exists (gzipSync (utf8Encode text)), (metaOf sha256 now t).
      cbn [fst snd]. unfold encode. rewrite Htext.
      split; [reflexivity|]. split; [reflexivity|].
      intros other. rewrite handler_readTables, Ht.
      rewrite decide_False by exact Hd. unfold encode. now rewrite Htext.
  - left. split; [reflexivity|]. left. cbn [fst]. eauto.
Qed.

(** The handler with its two writes, in terms of what it reads. *)
Lemma handlerW_readTables (setDataset : buffer -> option jsstring)
    (setMeta : Meta -> option jsstring) (req : Update.Request)
    (now : jsstring) (store : Store) :
  UpdateWrites.handler fetch csvParseSync toLowerUnicode gzipSync utf8Encode
    sha256 setDataset setMeta req now store =
  match readTables with
  | Throw m => (Response 500 (ErrorBody m), store)
  | Return t =>
      if decide (Update.debug req = Some (u16 "1")) then
        (Response 200
           (DebugBody (head (sdnRows t)) (head (altRows t)) (head (addRows t))
              (length (sdnRows t)) (length (altRows t)) (length (addRows t))),
         store)
      else
        match encode gzipSync utf8Encode
                (collection (sdnRows t) (altRows t) (addRows t)) with
        | None =>
            (Response 500
               (ErrorBody (u16 "The first argument must be of type string")),
             store)
        | Some gz =>
            match setDataset gz with
            | Some m => (Response 500 (ErrorBody m), store)
            | None =>
                match setMeta (metaOf sha256 now t) with
                | Some m =>
                    (Response 500 (ErrorBody m),
                     {| dataset_json_gz := Some gz;
                        meta_json := meta_json store |})
                | None =>
                    (Response 200 (UpdateBody (metaOf sha256 now t)),
                     {| dataset_json_gz := Some gz;
                        meta_json := Some (metaOf sha256 now t) |})
                end
            end
        end
  end.
Proof.
  unfold UpdateWrites.handler, Update.tryBlock, Vocabulary.readTables.
  destruct (Update.fetchText fetch Update.sdnUrl) as [sdn|m]; [|reflexivity].
  destruct (Update.fetchText fetch Update.altUrl) as [alt|m]; [|reflexivity].
  destruct (Update.fetchText fetch Update.addUrl) as [add|m]; [|reflexivity].
  cbn [mbind result_bind].
  destruct (Update.parseCSV csvParseSync toLowerUnicode sdn) as [r1|m]; [|reflexivity].
  destruct (Update.parseCSV csvParseSync toLowerUnicode alt) as [r2|m]; [|reflexivity].
  destruct (Update.parseCSV csvParseSync toLowerUnicode add) as [r3|m]; [|reflexivity].
  cbn [mbind result_bind sdnRows altRows addRows].
  destruct (decide (Update.debug req = Some (u16 "1"))); reflexivity.
Qed.

(** X11.  Debug mode is a dry run of everything but the two writes,
    whatever the store does with a write.  A run with [debug=1] attempts
    no write and leaves the store as it is.  When it fails, the run
    without [debug=1] fails with the same message and writes nothing.
    When it reports row counts, the run without [debug=1] can fail only
    at one of its two writes, with the message of the rejected write;
    and if the store accepts both, it answers 200 and stores metadata
    with these row counts. *)
Theorem update_debug_is_dry_run (req req' : Update.Request) (now : jsstring)
    (store : Store) (setDataset : buffer -> option jsstring)
    (setMeta : Meta -> option jsstring) :
  Update.debug req = Some (u16 "1") ->
  Update.debug req' <> Some (u16 "1") ->
  let run := UpdateWrites.handler fetch csvParseSync toLowerUnicode gzipSync
               utf8Encode sha256 setDataset setMeta in
  snd (run req now store) = store /\
  (forall m,
     fst (run req now store) = Response 500 (ErrorBody m) ->
     run req' now store = (Response 500 (ErrorBody m), store)) /\
  (forall s1 s2 s3 n1 n2 n3,
     fst (run req now store) = Response 200 (DebugBody s1 s2 s3 n1 n2 n3) ->
     exists gz meta,
       count_sdnRows meta = n1 /\ count_altRows meta = n2 /\
       count_addRows meta = n3 /\
       (setDataset gz = None -> setMeta meta = None ->
        run req' now store
        = (Response 200 (UpdateBody meta),
           {| dataset_json_gz := Some gz; meta_json := Some meta |})) /\
       (forall m,
          fst (run req' now store) = Response 500 (ErrorBody m) ->
          setDataset gz = Some m \/ setMeta meta = Some m)).
Proof.
  intros Hd Hd'. cbv zeta. rewrite !handlerW_readTables.
  destruct (decide (Update.debug req = Some (u16 "1"))); [|contradiction].
  destruct (decide (Update.debug req' = Some (u16 "1"))); [contradiction|].
  destruct readTables as [t|m0]; cbn [fst snd].
  - split; [reflexivity|]. split; [discriminate|].
    intros s1 s2 s3 n1 n2 n3 [= _ _ _ <- <- <-].
    destruct (stringify_entities (collection (sdnRows t) (altRows t) (addRows t)))
      as [text Htext].
    unfold encode. rewrite Htext.
    exists (gzipSync (utf8Encode text)), (metaOf sha256 now t).
    split; [reflexivity|]. split; [reflexivity|]. split; [reflexivity|]. split.
    + now intros -> ->.
    + intros m. destruct (setDataset _) as [m1|]; cbn [fst].
      * intros [= ->]. now left.
      * destruct (setMeta _) as [m2|]; cbn [fst]; [|discriminate].
        intros [= ->]. now right.
  - split; [reflexivity|]. split; [|discriminate].
    now intros m [= ->].
Qed.

End UpdateMore.

(** X11, at a concrete input: the host delivers the three tables of the
    scenario and the CSV reader is the library as [parseCSV] calls it.
    The dry run fails at the header of SDN.CSV, and so does the run
    without [debug=1], which leaves the empty store empty. *)
Lemma update_debug_is_dry_run_witness :
  UpdateWrites.handler MoreSamples.fetchTables
    (CsvParse.parse MoreSamples.plainRecords MoreSamples.plainObjects)
    Samples.caseless Samples.storeSync Samples.unitsEncode Samples.noHash
    MoreSamples.acceptWrite MoreSamples.acceptWrite
    MoreSamples.plainRequest [] emptyStore
  = (Response 500 (ErrorBody CsvParse.NOT_A_FUNCTION), emptyStore).
Proof.
  refine (proj1 (proj2
            (update_debug_is_dry_run MoreSamples.fetchTables
               (CsvParse.parse MoreSamples.plainRecords MoreSamples.plainObjects)
               Samples.caseless Samples.storeSync Samples.unitsEncode
               Samples.noHash MoreSamples.debugRequest MoreSamples.plainRequest
               [] emptyStore MoreSamples.acceptWrite MoreSamples.acceptWrite
               eq_refl _))
            CsvParse.NOT_A_FUNCTION _).
  - discriminate.
  - vm_compute. reflexivity.
Defined.

(* ===================================================================== *)
(** * From the update to the read path *)
(* ===================================================================== *)

Section MapByIdFacts.

Lemma lastWithUid_None (u : jsstring) (entities : list OfacEntity) :
  lastWithUid u entities = None <-> lastIndexOf u entities = None.
Proof.
  unfold lastWithUid. destruct (lastIndexOf u entities) as [j|] eqn:Hj; [|tauto].
  apply lastIndexOf_lt, lookup_lt_is_Some_2 in Hj as [e He]. rewrite He.
  split; discriminate.
Qed.

Lemma lastWithUid_cons (u : jsstring) (e : OfacEntity) (t : list OfacEntity) :
  lastWithUid u (e :: t) =
  match lastWithUid u t with
  | Some x => Some x
  | None => if decide (uid e = u) then Some e else None
  end.
Proof.
  destruct (lastWithUid u t) as [x|] eqn:Ht.
  - unfold lastWithUid in *. simpl.
    destruct (lastIndexOf u t) as [j|]; [exact Ht | discriminate].
  - apply lastWithUid_None in Ht. unfold lastWithUid. simpl. rewrite Ht.
    now destruct (decide (uid e = u)).
Qed.

(** The [Map] of the lookup function holds, for a uid, the last entity of
    the dataset that carries it. *)
Lemma mapById_lookup (entities : list OfacEntity) (u : jsstring) :
  Entity.mapById entities !! u = lastWithUid u entities.
Proof.
  unfold Entity.mapById.
  assert (forall m : gmap jsstring OfacEntity,
            foldl (fun m e => <[uid e := e]> m) m entities !! u =
            match lastWithUid u entities with
            | Some x => Some x
            | None => m !! u
            end) as H.
  { induction entities as [|e t IH]; intros m; [reflexivity|].
    cbn [foldl]. rewrite IH, lastWithUid_cons.
    destruct (lastWithUid u t); [reflexivity|].
    destruct (decide (uid e = u)) as [->|Hne].
    - apply lookup_insert_eq.
    - now rewrite lookup_insert_ne. }
  rewrite H, lookup_empty. now destruct (lastWithUid u entities).
Qed.

Lemma lastWithUid_uid (u : jsstring) (entities : list OfacEntity) (e : OfacEntity) :
  lastWithUid u entities = Some e -> uid e = u /\ e ∈ entities.
Proof.
  unfold lastWithUid. destruct (lastIndexOf u entities) as [j|] eqn:Hj; [|discriminate].
  intros He. apply lastIndexOf_Some in Hj as [(e' & He' & Hu) _].
  rewrite He in He'. injection He' as <-. split; [exact Hu|].
  eapply list_elem_of_lookup_2, He.
Qed.

End MapByIdFacts.

Section EncodedReads.

Variable gzipSync : buffer -> buffer.
Variable gunzipSync : buffer -> option buffer.
Variable utf8Encode : jsstring -> buffer.
Variable utf8Decode : buffer -> jsstring.
Variable fuseSearch : list OfacEntity -> jsstring -> jsnum -> list FuseResult.
Variable numberOther : jsstring -> jsnum.

Hypothesis gunzip_gzip : forall b, gunzipSync (gzipSync b) = Some b.
Hypothesis utf8_lossless :
  forall s, isWellFormed s = true -> utf8Decode (utf8Encode s) = s.

(** What the update function encodes, the read functions decode. *)
Lemma decode_encode (x : list OfacEntity) :
  exists gz, encode gzipSync utf8Encode x = Some gz /\
             decode gunzipSync utf8Decode gz = Some x.
Proof.
  unfold encode, decode, decodeJs.
  destruct (stringify (jsOfEntities x)) as [text|] eqn:Hs; [|discriminate].
  eexists. split; [reflexivity|].
  rewrite gunzip_gzip, utf8_lossless.
  - rewrite (parse_stringify _ _ (distinctKeys_jsOfEntities x) Hs).
    apply entitiesOfJs_normalize.
  - unfold stringify in Hs. destruct (serialize (jsOfEntities x)); [|discriminate].
    injection Hs as <-. apply isWellFormed_render.
Qed.

(** X13.  What is encoded into the store is what the read functions
    serve.  When the dataset key of the store holds the encoding
    (JSON.stringify, UTF-8, gzip) of a collection - which is what every
    version of the update function writes - then on a cold instance a
    lookup answers 200 with the last entity of the collection that
    carries the requested uid, or 404 if there is none; the entity of a
    200 answer is an entity of the collection and has the requested uid;
    and a search with a query that is not blank runs over exactly that
    collection and caches it. *)
Theorem reads_serve_encoded_collection (store : Store)
    (x : list OfacEntity) :
  dataset_json_gz store = encode gzipSync utf8Encode x ->
  (forall c u at_,
     Entity.handler gunzipSync utf8Decode (Some (c :: u)) at_ store None
     = (match lastWithUid (c :: u) x with
        | Some e => Response 200 (EntityBody e)
        | None => Response 404 (NotFoundBody (c :: u))
        end,
        Some {| Entity.loadedAt := at_; Entity.byId := Entity.mapById x |},
        [StoreGet "dataset.json.gz"])) /\
  (forall c u at_ e,
     fst (fst (Entity.handler gunzipSync utf8Decode (Some (c :: u)) at_ store
                 None))
     = Response 200 (EntityBody e) ->
     uid e = c :: u /\ e ∈ x) /\
  (forall r at_,
     blankQuery (Search.q r) = false ->
     let q := trim (default [] (Search.q r)) in
     let limit :=
       Search.mathMin50
         (Search.Number numberOther (orElse (Search.limit r) (u16 "20"))) in
     Search.handler gunzipSync utf8Decode fuseSearch numberOther r at_ store None
     = (Response 200
          (SearchBody q (length (fuseSearch x q limit))
             (List.map Search.searchItem (fuseSearch x q limit))),
        Some {| Search.loadedAt := at_; Search.entities := x |},
        [StoreGet "dataset.json.gz"; FuseSearch q limit])).
Proof.
  intros Hstore.
  destruct (decode_encode x) as (gz & Henc & Hdec). rewrite Henc in Hstore.
  assert (forall c u at_,
            Entity.handler gunzipSync utf8Decode (Some (c :: u)) at_ store None
            = (match lastWithUid (c :: u) x with
               | Some e => Response 200 (EntityBody e)
               | None => Response 404 (NotFoundBody (c :: u))
               end,
               Some {| Entity.loadedAt := at_; Entity.byId := Entity.mapById x |},
               [StoreGet "dataset.json.gz"])) as Hlookup.
  { intros c u at_. unfold Entity.handler, Entity.loadById.
    rewrite Hstore, Hdec, mapById_lookup.
    now destruct (lastWithUid (c :: u) x). }
  split; [exact Hlookup|]. split.
  - intros c u at_ e. rewrite Hlookup. cbn [fst].
    destruct (lastWithUid (c :: u) x) as [e'|] eqn:He; [|discriminate].
    intros [= <-]. now apply lastWithUid_uid.
  - intros r at_ Hq q limit. unfold Search.handler, Search.loadDataset.
    rewrite blankQuery_trim in Hq. apply negb_false_iff in Hq. rewrite Hq.
    cbn [negb]. rewrite Hstore, Hdec. cbn [app].
    rewrite length_map. subst q. now rewrite trim_orElse.
Qed.

End EncodedReads.

(** X13, at a concrete input: a store whose dataset encodes two
    entities; the lookup of uid 2 answers with the second. *)
Lemma reads_serve_encoded_collection_witness :
  Entity.handler Samples.unstoreSync Samples.unitsDecode (Some (u16 "2")) 0%Z
    Samples.store2 None
  = (Response 200 (EntityBody Samples.full),
     Some {| Entity.loadedAt := 0%Z;
             Entity.byId := Entity.mapById [Samples.bare; Samples.full] |},
     [StoreGet "dataset.json.gz"]).
Proof.
  exact (proj1 (reads_serve_encoded_collection Samples.storeSync
                  Samples.unstoreSync Samples.unitsEncode Samples.unitsDecode
                  (Fuse.search Samples.everyEntityHits) Samples.notANumber
                  (fun b => eq_refl) (fun s _ => eq_refl)
                  Samples.store2 [Samples.bare; Samples.full] eq_refl)
           0x32 [] 0%Z).
Defined.

(* ===================================================================== *)
(** * The update function with the CSV reader as it is called *)
(* ===================================================================== *)

Section ParsedByLibrary.

Variable fetch : jsstring -> Update.FetchResult.
Variable records : jsstring -> result (list (list jsstring)).
Variable objects : list jsstring -> list (list jsstring) -> list row.
Variable toLowerUnicode : jsstring -> jsstring.
Variable gzipSync : buffer -> buffer.
Variable gunzipSync : buffer -> option buffer.
Variable utf8Encode : jsstring -> buffer.
Variable utf8Decode : buffer -> jsstring.
Variable sha256 : jsstring -> jsstring.

Hypothesis gunzip_gzip : forall b, gunzipSync (gzipSync b) = Some b.
Hypothesis utf8_lossless :
  forall s, isWellFormed s = true -> utf8Decode (utf8Encode s) = s.

Local Abbreviation parse := (CsvParse.parse records objects).
Local Abbreviation handler :=
  (Update.handler fetch parse toLowerUnicode gzipSync utf8Encode sha256).





End ParsedByLibrary.


(* ===================================================================== *)
(** * Further properties of the read path *)
(* ===================================================================== *)

Section CacheFacts.

Variable gunzipSync : buffer -> option buffer.
Variable utf8Decode : buffer -> jsstring.
Variable fuseSearch : list OfacEntity -> jsstring -> jsnum -> list FuseResult.
Variable numberOther : jsstring -> jsnum.

Local Abbreviation search :=
  (Search.handler gunzipSync utf8Decode fuseSearch numberOther).
Local Abbreviation lookup := (Entity.handler gunzipSync utf8Decode).

(** X14.  The ten-minute cache of the two read functions.  While the
    cached dataset is younger than ten minutes, a search with a query
    that is not blank and a lookup with a uid are answered from it
    without any read of the store, whatever the store holds by then, and
    the cache stays as it is.  Once it is ten minutes old, a request is
    handled as on a cold instance - the store is read again - except
    that a reload that fails leaves the old cache in place. *)
Theorem read_cache_ttl (now : Z) (store : Store) (r : Search.Request)
    (u : option jsstring) (c : Search.Cached) (d : Entity.Cached) :
  (fresh (Search.loadedAt c) now = true ->
   blankQuery (Search.q r) = false ->
   let q := trim (default [] (Search.q r)) in
   let limit :=
     Search.mathMin50
       (Search.Number numberOther (orElse (Search.limit r) (u16 "20"))) in
   search r now store (Some c)
   = (Response 200
        (SearchBody q (length (fuseSearch (Search.entities c) q limit))
           (List.map Search.searchItem (fuseSearch (Search.entities c) q limit))),
      Some c, [FuseSearch q limit])) /\
  (fresh (Search.loadedAt c) now = false ->
   search r now store (Some c)
   = let '(out, c', events) := search r now store None in
     (out, match c' with Some x => Some x | None => Some c end, events)) /\
  (fresh (Entity.loadedAt d) now = true ->
   truthy u = true ->
   lookup u now store (Some d)
   = (match Entity.byId d !! default [] u with
      | Some e => Response 200 (EntityBody e)
      | None => Response 404 (NotFoundBody (default [] u))
      end, Some d, [])) /\
  (fresh (Entity.loadedAt d) now = false ->
   lookup u now store (Some d)
   = let '(out, d', events) := lookup u now store None in
     (out, match d' with Some x => Some x | None => Some d end, events)).
Proof.
  unfold fresh. split; [|split; [|split]].
  - intros Hf Hq. unfold Search.handler, Search.loadDataset.
    rewrite blankQuery_trim in Hq. apply negb_false_iff in Hq. rewrite Hq, Hf.
    cbn [negb app]. rewrite length_map. now rewrite trim_orElse.
  - intros Hf. unfold Search.handler, Search.loadDataset. rewrite Hf.
    destruct (negb _); [reflexivity|].
    destruct (dataset_json_gz store) as [gz|]; [|reflexivity].
    destruct (decode gunzipSync utf8Decode gz); reflexivity.
  - intros Hf Hu. destruct u as [[|ch u]|]; try discriminate.
    unfold Entity.handler, Entity.loadById. rewrite Hf.
    change (default [] (Some (ch :: u))) with (ch :: u).
    now destruct (Entity.byId d !! (ch :: u)).
  - intros Hf. destruct u as [[|ch u]|]; try reflexivity.
    unfold Entity.handler, Entity.loadById. rewrite Hf.
    destruct (dataset_json_gz store) as [gz|]; [|reflexivity].
    destruct (decode gunzipSync utf8Decode gz) as [entities|]; [|reflexivity].
    cbv beta. now destruct (Entity.mapById entities !! (ch :: u)).
Qed.

Lemma exceeds50_mathMin50 (x : jsnum) : exceeds50 (Search.mathMin50 x) = false.
Proof.
  destruct x as [|[]|z|f]; simpl; try reflexivity.
  - destruct (Z.leb_spec z 50); simpl; [|reflexivity]. apply Z.ltb_ge. lia.
  - destruct (Z.ltb_spec f 50); simpl; [|reflexivity]. apply Z.leb_gt. lia.
Qed.

(** X15.  Whatever the [limit] parameter says, the limit that the search
    handler hands to the search library is never a number above 50: a
    search it makes is made with [Math.min(Number(limit || "20"), 50)];
    this is 20 when the parameter is absent or empty, and min(n, 50) when
    the parameter reads as a number n that is not negative. *)
Theorem search_limit_capped (req : Search.Request) (now : Z) (store : Store)
    (cached : option Search.Cached) (query : jsstring) (limit : jsnum) :
  FuseSearch query limit ∈ (search req now store cached).2 ->
  exceeds50 limit = false /\
  (Search.limit req = None \/ Search.limit req = Some [] ->
   limit = JInteger 20) /\
  (forall n,
     Fuse.limitValue
       (Search.Number numberOther (orElse (Search.limit req) (u16 "20")))
     = Some n ->
     Fuse.limitValue limit = Some (Nat.min n 50)).
Proof.
  intros Hin.
  assert (limit = Search.mathMin50
                    (Search.Number numberOther
                       (orElse (Search.limit req) (u16 "20")))) as ->.
  { unfold Search.handler in Hin. destruct (negb _).
    - now apply elem_of_nil in Hin.
    - destruct (Search.loadDataset gunzipSync utf8Decode store now cached)
        as [[[entities|m] c] ev] eqn:Hload; cbn [snd] in Hin;
        apply loadDataset_events in Hload.
      + apply elem_of_app in Hin as [Hin|Hin].
        * destruct Hload as [-> | ->]; [now apply elem_of_nil in Hin|].
          apply list_elem_of_singleton in Hin. discriminate.
        * apply list_elem_of_singleton in Hin. now injection Hin as _ ->.
      + destruct Hload as [-> | ->]; [now apply elem_of_nil in Hin|].
        apply list_elem_of_singleton in Hin. discriminate. }
  split; [apply exceeds50_mathMin50|]. split.
  - intros [-> | ->]; reflexivity.
  - intros n. apply limitValue_mathMin50.
Qed.

End CacheFacts.

(** X15, at a concrete input: [limit=999] on a dataset of two entities;
    the search is made with the limit 50. *)
Lemma search_limit_capped_witness :
  FuseSearch (u16 "a") (JInteger 50)
    ∈ (Search.handler Samples.unstoreSync Samples.unitsDecode
         (Fuse.search Samples.everyEntityHits) Samples.notANumber
         {| Search.q := Some (u16 "a"); Search.limit := Some (u16 "999") |}
         0%Z Samples.store2 None).2 /\
  exceeds50 (JInteger 50) = false /\
  Fuse.limitValue (JInteger 50) = Some (Nat.min 999 50).
Proof.
  assert (FuseSearch (u16 "a") (JInteger 50)
            ∈ (Search.handler Samples.unstoreSync Samples.unitsDecode
                 (Fuse.search Samples.everyEntityHits) Samples.notANumber
                 {| Search.q := Some (u16 "a"); Search.limit := Some (u16 "999") |}
                 0%Z Samples.store2 None).2) as Hin.
  { vm_compute. repeat constructor. }
  split; [exact Hin|].
  destruct (search_limit_capped _ _ _ _ _ _ _ _ _ _ Hin) as (Hcap & _ & Hmin).
  split; [exact Hcap|]. apply Hmin. vm_compute. reflexivity.
Defined.
(** X16.  A lookup returns the entity that the consolidators fed.  In
    the [Map] that the lookup function builds from a consolidated
    collection, a uid names the entity that it names in the [Map] built
    from the collection before consolidation, now holding, after what it
    held before, the alias of every alias row and the address of every
    address row with that uid and a valid payload, in row order - also
    when several entities share the uid. *)
Theorem lookup_returns_joined_entity (entities : list OfacEntity)
    (altRows addRows : list row) (u : jsstring) :
  Entity.mapById (consolidateAddData (consolidateAltData entities altRows) addRows)
    !! u
  = (fun e => appendAddresses (payloadsFor addressPayload u addRows)
                (appendAka (payloadsFor aliasPayload u altRows) e))
    <$> Entity.mapById entities !! u.
Proof.
  rewrite !mapById_lookup. unfold lastWithUid.
  rewrite (lastIndexOf_uids u _ entities)
    by now rewrite consolidateAddData_uids, consolidateAltData_uids.
  destruct (lastIndexOf u entities) as [j|] eqn:Hj; [|reflexivity].
  pose proof Hj as Hlast.
  apply lastIndexOf_Some in Hj as [(e & He & <-) _].
  pose proof (consolidateAltData_at entities altRows j e He) as Halt.
  rewrite decide_True in Halt by exact Hlast.
  rewrite (consolidateAddData_at _ addRows j _ Halt), He.
  cbn [appendAka uid fmap option_fmap option_map].
  rewrite (lastIndexOf_uids _ _ entities (consolidateAltData_uids _ _)).
  now rewrite decide_True by exact Hlast.
Qed.

Section ReadsSucceed.

Variable gunzipSync : buffer -> option buffer.
Variable utf8Decode : buffer -> jsstring.
Variable fuseSearch : list OfacEntity -> jsstring -> jsnum -> list FuseResult.
Variable numberOther : jsstring -> jsnum.

Local Abbreviation serve :=
  (ReadPath.serve gunzipSync utf8Decode fuseSearch numberOther).
Local Abbreviation serveAll :=
  (ReadPath.serveAll gunzipSync utf8Decode fuseSearch numberOther).

Lemma serve_stored (store : Store) (gz : buffer) (entities : list OfacEntity)
    (meta : Meta) (inst : ReadPath.Instance) (now : Z)
    (req : ReadPath.ReadRequest) :
  dataset_json_gz store = Some gz ->
  decode gunzipSync utf8Decode gz = Some entities ->
  meta_json store = Some meta ->
  wellFormedRead req = true ->
  errorMessage (serve store inst now req).1 = None \/
  isNotFound (serve store inst now req).1 = true.
Proof.
  intros Hgz Hdec Hmeta Hreq.
  destruct req as [r|[[|c u]|]|]; try discriminate; cbn [ReadPath.serve].
  - simpl in Hreq. apply negb_true_iff in Hreq. rewrite blankQuery_trim in Hreq.
    apply negb_false_iff in Hreq.
    unfold Search.handler, Search.loadDataset. rewrite Hreq, Hgz, Hdec.
    cbn [negb]. left.
    destruct (ReadPath.searchCache inst) as [cd|]; [|reflexivity].
    destruct (_ <? _)%Z; reflexivity.
  - unfold Entity.handler, Entity.loadById. rewrite Hgz, Hdec.
    destruct (ReadPath.entityCache inst) as [cd|].
    + destruct (_ <? _)%Z.
      * destruct (Entity.byId cd !! (c :: u)); [left | right]; reflexivity.
      * cbv zeta. destruct (Entity.mapById entities !! (c :: u));
          [left | right]; reflexivity.
    + cbv zeta. destruct (Entity.mapById entities !! (c :: u));
        [left | right]; reflexivity.
  - left. unfold MetaFn.handler. now rewrite Hmeta.
Qed.

(** X17.  Once the store holds a dataset that decodes and its metadata,
    no well-formed read request fails: whatever the function instance
    has cached, and in whatever sequence the requests arrive, a search
    with a query that is not blank, a lookup with a uid and a metadata
    request are each answered without an error, the only exception being
    the 404 "Not found" of a lookup. *)
Theorem reads_succeed_on_stored_dataset (store : Store) (gz : buffer)
    (entities : list OfacEntity) (meta : Meta)
    (reqs : list (Z * ReadPath.ReadRequest)) (inst : ReadPath.Instance) :
  dataset_json_gz store = Some gz ->
  decode gunzipSync utf8Decode gz = Some entities ->
  meta_json store = Some meta ->
  Forall (fun r => wellFormedRead (snd r) = true) reqs ->
  Forall (fun out => errorMessage out = None \/ isNotFound out = true)
    (serveAll store inst reqs).
Proof.
  intros Hgz Hdec Hmeta Hreqs. revert inst.
  induction Hreqs as [|[now req] reqs Hreq _ IH]; intros inst; [constructor|].
  cbn [ReadPath.serveAll].
  pose proof (serve_stored store gz entities meta inst now req Hgz Hdec Hmeta Hreq)
    as Hout.
  destruct (serve store inst now req) as [out inst'].
  constructor; [exact Hout | apply IH].
Qed.

End ReadsSucceed.
(** X17, at a concrete input: a store that holds the entity of the
    scenario and its metadata, a cold instance, and a search, two lookups
    (one of them for an unknown uid, after the cache has expired) and a
    metadata request. *)
Lemma reads_succeed_on_stored_dataset_witness :
  Forall (fun out => errorMessage out = None \/ isNotFound out = true)
    (ReadPath.serveAll Samples.unstoreSync Samples.unitsDecode
       (Fuse.search Samples.everyEntityHits) Samples.notANumber
       MoreSamples.filledStore ReadPath.coldInstance MoreSamples.sampleReads).
Proof.
  eapply (reads_succeed_on_stored_dataset Samples.unstoreSync Samples.unitsDecode
            (Fuse.search Samples.everyEntityHits) Samples.notANumber
            MoreSamples.filledStore _ [MoreSamples.johnDoe]
            (metaOf Samples.noHash [] MoreSamples.scenarioTables)).
  - reflexivity.
  - vm_compute. reflexivity.
  - reflexivity.
  - repeat constructor.
Defined.
(* ===================================================================== *)
(** * The update function that tolerates missing auxiliary tables *)
(* ===================================================================== *)

Section SiblingTable.

Local Abbreviation mapSet := UpdateSibling.mapSet.
Local Abbreviation mapGet := UpdateSibling.mapGet.
Local Abbreviation mapUpdate := UpdateSibling.mapUpdate.
Local Abbreviation the := UpdateSibling.the.
Local Abbreviation keys := (List.map (@fst jsstring OfacEntity)).

(** Every key is the uid of the entity it holds. *)
Local Abbreviation keyed :=
  (Forall (fun kv : jsstring * OfacEntity => uid (snd kv) = fst kv)).

Lemma mapGet_mapSet (k : jsstring) (v : OfacEntity)
    (m : list (jsstring * OfacEntity)) (u : jsstring) :
  mapGet u (mapSet k v m) = if decide (k = u) then Some v else mapGet u m.
Proof.
  induction m as [|[k' v'] t IH]; simpl.
  - destruct (decide (k = u)); reflexivity.
  - destruct (decide (k' = k)) as [->|Hne]; simpl.
    + destruct (decide (k = u)); reflexivity.
    + rewrite IH. destruct (decide (k' = u)) as [->|]; [|reflexivity].
      now rewrite decide_False by congruence.
Qed.

Lemma mapGet_mapUpdate (k : jsstring) (f : OfacEntity -> OfacEntity)
    (m : list (jsstring * OfacEntity)) (u : jsstring) :
  mapGet u (mapUpdate k f m) =
  if decide (k = u) then f <$> mapGet u m else mapGet u m.
Proof.
  induction m as [|[k' v'] t IH]; simpl.
  - destruct (decide (k = u)); reflexivity.
  - destruct (decide (k' = k)) as [->|Hne]; simpl.
    + destruct (decide (k = u)); reflexivity.
    + rewrite IH. destruct (decide (k' = u)) as [->|]; [|reflexivity].
      now rewrite decide_False by congruence.
Qed.

Lemma keys_mapSet (k : jsstring) (v : OfacEntity)
    (m : list (jsstring * OfacEntity)) :
  keys (mapSet k v m) =
  if bool_decide (k ∈ keys m) then keys m else keys m ++ [k].
Proof.
  induction m as [|[k' v'] t IH]; cbn [UpdateSibling.mapSet List.map fst].
  - rewrite bool_decide_eq_false_2; [reflexivity | apply not_elem_of_nil].
  - destruct (decide (k' = k)) as [->|Hne]; cbn [List.map fst].
    + rewrite bool_decide_eq_true_2; [reflexivity | apply elem_of_cons; auto].
    + rewrite IH. destruct (bool_decide (k ∈ keys t)) eqn:E.
      * apply bool_decide_eq_true in E.
        rewrite bool_decide_eq_true_2; [reflexivity | apply elem_of_cons; auto].
      * apply bool_decide_eq_false in E.
        rewrite bool_decide_eq_false_2; [reflexivity|].
        rewrite elem_of_cons. intros [?|?]; [congruence | contradiction].
Qed.

Lemma keys_mapUpdate (k : jsstring) (f : OfacEntity -> OfacEntity)
    (m : list (jsstring * OfacEntity)) :
  keys (mapUpdate k f m) = keys m.
Proof.
  induction m as [|[k' v'] t IH]; simpl; [reflexivity|].
  destruct (decide (k' = k)); simpl; [reflexivity | now rewrite IH].
Qed.

Lemma keyed_mapSet (k : jsstring) (v : OfacEntity)
    (m : list (jsstring * OfacEntity)) :
  uid v = k -> keyed m -> keyed (mapSet k v m).
Proof.
  intros Hv. induction 1 as [|[k' v'] t Hk Ht IH]; simpl.
  - repeat constructor. exact Hv.
  - destruct (decide (k' = k)); constructor; simpl; auto.
Qed.

Lemma keyed_mapUpdate (k : jsstring) (f : OfacEntity -> OfacEntity)
    (m : list (jsstring * OfacEntity)) :
  (forall e, uid (f e) = uid e) -> keyed m -> keyed (mapUpdate k f m).
Proof.
  intros Hf. induction 1 as [|[k' v'] t Hk Ht IH]; simpl; [constructor|].
  destruct (decide (k' = k)); constructor; auto.
  simpl in *. now rewrite Hf.
Qed.

Lemma keyed_values (m : list (jsstring * OfacEntity)) :
  keyed m -> List.map uid (UpdateSibling.values m) = keys m.
Proof.
  unfold UpdateSibling.values.
  induction 1 as [|[k v] t Hk _ IH]; simpl; [reflexivity|].
  simpl in Hk. now rewrite Hk, IH.
Qed.

Lemma mapGet_elem (m : list (jsstring * OfacEntity)) (k : jsstring)
    (e : OfacEntity) :
  NoDup (keys m) -> (mapGet k m = Some e <-> (k, e) ∈ m).
Proof.
  induction m as [|[k' v'] t IH]; simpl; intros Hnd.
  - split; [discriminate|]. intros H. now apply elem_of_nil in H.
  - apply NoDup_cons in Hnd as [Hk' Hnd]. rewrite elem_of_cons.
    destruct (decide (k' = k)) as [->|Hne].
    + split.
      * intros [= ->]. now left.
      * intros [[= ->]|Hin]; [reflexivity|]. exfalso. apply Hk'.
        change k with (fst (k, e)). now apply list_elem_of_fmap_2.
    + rewrite (IH Hnd). split; [auto|]. intros [[= -> _]|Hin]; [congruence | exact Hin].
Qed.

Lemma firstOccurrences_from_elem (l : list jsstring) :
  forall seen x,
  x ∈ firstOccurrences_from seen l <-> x ∈ l /\ x ∉ seen.
Proof.
  induction l as [|y l IH]; intros seen x; simpl.
  - split; [intros H; now apply elem_of_nil in H|].
    intros [H _]. now apply elem_of_nil in H.
  - destruct (bool_decide (y ∈ seen)) eqn:E.
    + apply bool_decide_eq_true in E. rewrite IH, elem_of_cons.
      split; [tauto|]. intros [[->|H] Hn]; [contradiction | auto].
    + apply bool_decide_eq_false in E.
      rewrite !elem_of_cons, IH, not_elem_of_cons.
      split.
      * intros [->|[H [Hne Hn]]]; auto.
      * intros [[->|H] Hn]; [auto|].
        destruct (decide (x = y)) as [->|Hne]; auto.
Qed.

Lemma firstOccurrences_from_NoDup (l : list jsstring) :
  forall seen, NoDup (firstOccurrences_from seen l).
Proof.
  induction l as [|y l IH]; intros seen; simpl; [constructor|].
  destruct (bool_decide (y ∈ seen)); [apply IH|].
  apply NoDup_cons. split; [|apply IH].
  rewrite firstOccurrences_from_elem, not_elem_of_cons. tauto.
Qed.

Lemma firstOccurrences_from_ext (l : list jsstring) :
  forall seen seen',
  (forall x, x ∈ seen <-> x ∈ seen') ->
  firstOccurrences_from seen l = firstOccurrences_from seen' l.
Proof.
  induction l as [|y l IH]; intros seen seen' H; simpl; [reflexivity|].
  rewrite (bool_decide_ext _ _ (H y)).
  destruct (bool_decide (y ∈ seen')); [now apply IH|].
  f_equal. apply IH. intros x. rewrite !elem_of_cons, H. tauto.
Qed.

End SiblingTable.
Section SiblingLoops.

Local Abbreviation mapSet := UpdateSibling.mapSet.
Local Abbreviation mapGet := UpdateSibling.mapGet.
Local Abbreviation mapUpdate := UpdateSibling.mapUpdate.
Local Abbreviation the := UpdateSibling.the.
Local Abbreviation sdnStep := UpdateSibling.sdnStep.
Local Abbreviation altStep := UpdateSibling.altStep.
Local Abbreviation addStep := UpdateSibling.addStep.
Local Abbreviation keys := (List.map (@fst jsstring OfacEntity)).
Local Abbreviation keyed :=
  (Forall (fun kv : jsstring * OfacEntity => uid (snd kv) = fst kv)).

Lemma sdnStep_accepted (m : list (jsstring * OfacEntity)) (r : UpdateSibling.row) :
  sdnStep m r =
  if acceptedRaw r
  then mapSet (the (UpdateSibling.sdnUid r)) (UpdateSibling.entityOf r) m
  else m.
Proof.
  unfold UpdateSibling.sdnStep, acceptedRaw.
  destruct (truthy (UpdateSibling.sdnUid r)),
    (truthy (UpdateSibling.sdnName r)); reflexivity.
Qed.

Lemma altStep_get (m : list (jsstring * OfacEntity)) (r : UpdateSibling.row)
    (u : jsstring) :
  mapGet u (altStep m r) =
  if truthy (UpdateSibling.auxUid r) && truthy (UpdateSibling.altName r)
     && bool_decide (the (UpdateSibling.auxUid r) = u)
  then pushAka (the (UpdateSibling.altName r)) <$> mapGet u m
  else mapGet u m.
Proof.
  unfold UpdateSibling.altStep.
  destruct (truthy (UpdateSibling.auxUid r)); [|reflexivity].
  destruct (truthy (UpdateSibling.altName r)); [|reflexivity].
  cbn [negb orb andb].
  destruct (mapGet (the (UpdateSibling.auxUid r)) m) eqn:Hg.
  - rewrite mapGet_mapUpdate.
    destruct (decide (the (UpdateSibling.auxUid r) = u)) as [Hu|Hu].
    + now rewrite bool_decide_eq_true_2.
    + now rewrite bool_decide_eq_false_2.
  - destruct (decide (the (UpdateSibling.auxUid r) = u)) as [Hu|Hu].
    + rewrite bool_decide_eq_true_2 by exact Hu. rewrite <- Hu, Hg. reflexivity.
    + now rewrite bool_decide_eq_false_2.
Qed.

Lemma addStep_get (m : list (jsstring * OfacEntity)) (r : UpdateSibling.row)
    (u : jsstring) :
  mapGet u (addStep m r) =
  if truthy (UpdateSibling.auxUid r)
     && bool_decide (the (UpdateSibling.auxUid r) = u)
  then pushAddress (UpdateSibling.addressOf r) <$> mapGet u m
  else mapGet u m.
Proof.
  unfold UpdateSibling.addStep.
  destruct (truthy (UpdateSibling.auxUid r)); [|reflexivity].
  cbn [negb andb].
  destruct (mapGet (the (UpdateSibling.auxUid r)) m) eqn:Hg.
  - rewrite mapGet_mapUpdate.
    destruct (decide (the (UpdateSibling.auxUid r) = u)) as [Hu|Hu].
    + now rewrite bool_decide_eq_true_2.
    + now rewrite bool_decide_eq_false_2.
  - destruct (decide (the (UpdateSibling.auxUid r) = u)) as [Hu|Hu].
    + rewrite bool_decide_eq_true_2 by exact Hu. rewrite <- Hu, Hg. reflexivity.
    + now rewrite bool_decide_eq_false_2.
Qed.

Lemma altStep_keys (m : list (jsstring * OfacEntity)) (r : UpdateSibling.row) :
  keys (altStep m r) = keys m /\ (keyed m -> keyed (altStep m r)).
Proof.
  unfold UpdateSibling.altStep. destruct (_ || _); [auto|].
  destruct (mapGet _ m); [|auto].
  split; [apply keys_mapUpdate | now apply keyed_mapUpdate].
Qed.

Lemma addStep_keys (m : list (jsstring * OfacEntity)) (r : UpdateSibling.row) :
  keys (addStep m r) = keys m /\ (keyed m -> keyed (addStep m r)).
Proof.
  unfold UpdateSibling.addStep. destruct (negb _); [auto|].
  destruct (mapGet _ m); [|auto].
  split; [apply keys_mapUpdate | now apply keyed_mapUpdate].
Qed.

Lemma sdnStep_keyed (m : list (jsstring * OfacEntity)) (r : UpdateSibling.row) :
  keyed m -> keyed (sdnStep m r).
Proof.
  intros H. rewrite sdnStep_accepted. destruct (acceptedRaw r); [|exact H].
  now apply keyed_mapSet.
Qed.

Lemma foldl_keeps {S R} (P : S -> Prop) (f : S -> R -> S) (l : list R) :
  (forall s r, P s -> P (f s r)) -> forall s, P s -> P (foldl f s l).
Proof.
  intros Hf. induction l as [|r l IH]; intros s Hs; [exact Hs|].
  cbn [foldl]. apply IH, Hf, Hs.
Qed.

Lemma auxLoops_keys (m : list (jsstring * OfacEntity))
    (altRows addRows : list UpdateSibling.row) :
  keys (foldl addStep (foldl altStep m altRows) addRows) = keys m /\
  (keyed m -> keyed (foldl addStep (foldl altStep m altRows) addRows)).
Proof.
  split.
  - transitivity (keys (foldl altStep m altRows)).
    + apply (foldl_keeps (fun s => keys s = keys (foldl altStep m altRows)));
        [|reflexivity].
      intros s r <-. apply addStep_keys.
    + apply (foldl_keeps (fun s => keys s = keys m)); [|reflexivity].
      intros s r <-. apply altStep_keys.
  - intros H. apply (foldl_keeps keyed); [intros s r; apply addStep_keys|].
    apply (foldl_keeps keyed); [intros s r; apply altStep_keys | exact H].
Qed.

Lemma sdnLoop_keys (rows : list UpdateSibling.row) :
  forall (m : list (jsstring * OfacEntity)) (seen : list jsstring),
  (forall x, x ∈ seen <-> x ∈ keys m) ->
  keys (foldl sdnStep m rows) =
  keys m ++ firstOccurrences_from seen
              (List.map (fun r => the (UpdateSibling.sdnUid r))
                 (List.filter acceptedRaw rows)).
Proof.
  induction rows as [|r rows IH]; intros m seen Hseen.
  - simpl. now rewrite app_nil_r.
  - cbn [foldl List.filter]. rewrite sdnStep_accepted.
    destruct (acceptedRaw r); [|now apply IH].
    cbn [List.map firstOccurrences_from].
    rewrite (bool_decide_ext _ _ (Hseen _)).
    destruct (bool_decide (the (UpdateSibling.sdnUid r) ∈ keys m)) eqn:E.
    + rewrite (IH _ seen); rewrite keys_mapSet, E; [reflexivity | exact Hseen].
    + rewrite (IH _ (the (UpdateSibling.sdnUid r) :: seen));
        rewrite keys_mapSet, E.
      * now rewrite <- app_assoc.
      * intros x. rewrite elem_of_cons, elem_of_app, list_elem_of_singleton, Hseen.
        tauto.
Qed.

Lemma sdnLoop_get (rows : list UpdateSibling.row) (u : jsstring) :
  forall m : list (jsstring * OfacEntity),
  mapGet u (foldl sdnStep m rows) =
  match lastAcceptedRaw u rows with
  | Some r => Some (UpdateSibling.entityOf r)
  | None => mapGet u m
  end.
Proof.
  unfold lastAcceptedRaw.
  induction rows as [|r rows IH]; intros m; [reflexivity|].
  cbn [foldl List.filter]. rewrite IH, sdnStep_accepted.
  destruct (acceptedRaw r); cbn [andb]; [|reflexivity].
  destruct (decide (the (UpdateSibling.sdnUid r) = u)) as [Hu|Hu].
  - rewrite bool_decide_eq_true_2 by exact Hu. rewrite last_cons.
    destruct (last _); [reflexivity|]. rewrite mapGet_mapSet.
    now rewrite decide_True.
  - rewrite bool_decide_eq_false_2 by exact Hu.
    destruct (last _); [reflexivity|]. rewrite mapGet_mapSet.
    now rewrite decide_False.
Qed.

Lemma altLoop_get (rows : list UpdateSibling.row) (u : jsstring) :
  forall m : list (jsstring * OfacEntity),
  mapGet u (foldl altStep m rows) = appendAka (rawAliases u rows) <$> mapGet u m.
Proof.
  unfold rawAliases.
  induction rows as [|r rows IH]; intros m.
  - simpl. destruct (mapGet u m) as [e|]; [|reflexivity].
    simpl. now rewrite appendAka_nil.
  - cbn [foldl List.filter]. rewrite IH, altStep_get.
    destruct (_ && _); [|reflexivity].
    destruct (mapGet u m) as [e|]; [|reflexivity].
    cbn [fmap option_fmap option_map List.map]. f_equal.
    unfold appendAka, pushAka. cbn [aka]. now rewrite <- app_assoc.
Qed.

Lemma addLoop_get (rows : list UpdateSibling.row) (u : jsstring) :
  forall m : list (jsstring * OfacEntity),
  mapGet u (foldl addStep m rows)
  = appendAddresses (rawAddresses u rows) <$> mapGet u m.
Proof.
  unfold rawAddresses.
  induction rows as [|r rows IH]; intros m.
  - simpl. destruct (mapGet u m) as [e|]; [|reflexivity].
    simpl. now rewrite appendAddresses_nil.
  - cbn [foldl List.filter]. rewrite IH, addStep_get.
    destruct (_ && _); [|reflexivity].
    destruct (mapGet u m) as [e|]; [|reflexivity].
    cbn [fmap option_fmap option_map List.map]. f_equal.
    unfold appendAddresses, pushAddress. cbn [addresses]. now rewrite <- app_assoc.
Qed.

Lemma entityTableOf_keys (sdnRows altRows addRows : list UpdateSibling.row) :
  let m := UpdateSibling.entityTableOf sdnRows altRows addRows in
  keys m = firstOccurrences
             (List.map (fun r => the (UpdateSibling.sdnUid r))
                (List.filter acceptedRaw sdnRows)) /\
  keyed m.
Proof.
  unfold UpdateSibling.entityTableOf. cbv zeta.
  destruct (auxLoops_keys (foldl sdnStep [] sdnRows) altRows addRows) as [-> Hk].
  split.
  - now rewrite (sdnLoop_keys sdnRows [] []).
  - apply Hk, (foldl_keeps keyed); [apply sdnStep_keyed | constructor].
Qed.

Lemma entityTableOf_get (sdnRows altRows addRows : list UpdateSibling.row)
    (u : jsstring) :
  mapGet u (UpdateSibling.entityTableOf sdnRows altRows addRows) =
  (fun r => appendAddresses (rawAddresses u addRows)
              (appendAka (rawAliases u altRows) (UpdateSibling.entityOf r)))
  <$> lastAcceptedRaw u sdnRows.
Proof.
  unfold UpdateSibling.entityTableOf.
  rewrite addLoop_get, altLoop_get, sdnLoop_get.
  now destruct (lastAcceptedRaw u sdnRows).
Qed.

Lemma dataset_length (sdnRows altRows addRows : list UpdateSibling.row) :
  (length (UpdateSibling.dataset sdnRows altRows addRows) <= length sdnRows)%nat.
Proof.
  destruct (entityTableOf_keys sdnRows altRows addRows) as [Hkeys _].
  unfold UpdateSibling.dataset, UpdateSibling.values.
  rewrite length_map, <- (length_map fst), Hkeys. unfold firstOccurrences.
  transitivity (length (List.filter acceptedRaw sdnRows)).
  - rewrite <- (length_map (fun r => UpdateSibling.the (UpdateSibling.sdnUid r))).
    generalize (List.map (fun r => UpdateSibling.the (UpdateSibling.sdnUid r))
                  (List.filter acceptedRaw sdnRows)).
    intros l. generalize (@nil jsstring).
    induction l as [|y l IH]; intros seen; simpl; [lia|].
    destruct (bool_decide (y ∈ seen)); simpl; [specialize (IH seen) |
      specialize (IH (y :: seen))]; lia.
  - clear. induction sdnRows as [|r rows IH]; simpl; [lia|].
    destruct (acceptedRaw r); simpl; lia.
Qed.

Lemma mapSet_Forall (P : jsstring * OfacEntity -> Prop) (k : jsstring)
    (v : OfacEntity) (m : list (jsstring * OfacEntity)) :
  P (k, v) -> Forall P m -> Forall P (UpdateSibling.mapSet k v m).
Proof.
  intros Hv. induction 1 as [|[k' v'] t Hk Ht IH]; simpl.
  - repeat constructor. exact Hv.
  - destruct (decide (k' = k)); constructor; auto.
Qed.

(** Without auxiliary rows, no entity has an alias or an address. *)
Lemma dataset_primary_only (sdnRows : list UpdateSibling.row) :
  Forall (fun e => aka e = [] /\ addresses e = [])
    (UpdateSibling.dataset sdnRows [] []).
Proof.
  unfold UpdateSibling.dataset, UpdateSibling.values,
    UpdateSibling.entityTableOf. cbn [foldl].
  apply Forall_map.
  apply (foldl_keeps
           (Forall (fun kv : jsstring * OfacEntity =>
                      aka (snd kv) = [] /\ addresses (snd kv) = [])));
    [|constructor].
  intros m r Hm. rewrite sdnStep_accepted. destruct (acceptedRaw r); [|exact Hm].
  apply mapSet_Forall; [split; reflexivity | exact Hm].
Qed.

End SiblingLoops.

(** X18.  The dataset of the update function that keeps its entities in a
    [Map] never holds a uid twice.  Its uids are the uids of the accepted
    rows of SDN.CSV (the rows with a uid and a name), each once, in the
    order of their first occurrence; an alias or address table never adds
    or removes an entity, and there are at most as many entities as
    rows. *)
Theorem sibling_dataset_unique_uids
    (sdnRows altRows addRows : list UpdateSibling.row) :
  let dataset := UpdateSibling.dataset sdnRows altRows addRows in
  List.map uid dataset
  = firstOccurrences
      (List.map (fun r => UpdateSibling.the (UpdateSibling.sdnUid r))
         (List.filter acceptedRaw sdnRows)) /\
  NoDup (List.map uid dataset) /\
  (forall u, u ∈ List.map uid dataset <->
             exists r, r ∈ sdnRows /\ acceptedRaw r = true /\
                       UpdateSibling.the (UpdateSibling.sdnUid r) = u) /\
  (length dataset <= length sdnRows)%nat.
Proof.
  intros dataset.
  destruct (entityTableOf_keys sdnRows altRows addRows) as [Hkeys Hkeyed].
  assert (List.map uid dataset
          = firstOccurrences
              (List.map (fun r => UpdateSibling.the (UpdateSibling.sdnUid r))
                 (List.filter acceptedRaw sdnRows))) as Huids.
  { subst dataset. unfold UpdateSibling.dataset.
    now rewrite keyed_values, Hkeys. }
  split; [exact Huids|]. split; [|split].
  - rewrite Huids. apply firstOccurrences_from_NoDup.
  - intros u. rewrite Huids. unfold firstOccurrences.
    rewrite firstOccurrences_from_elem.
    change (List.map ?f ?l) with (f <$> l). rewrite list_elem_of_fmap.
    split.
    + intros [(r & -> & Hr) _]. apply list_elem_of_In, filter_In in Hr as [Hr Ha].
      exists r. rewrite list_elem_of_In. auto.
    + intros (r & Hr & Ha & <-). split; [|apply not_elem_of_nil].
      exists r. split; [reflexivity|].
      apply list_elem_of_In, filter_In. rewrite <- list_elem_of_In. auto.
  - apply dataset_length.
Qed.

(** X19.  What an entity of that dataset holds.  An entity is in the
    dataset exactly when it is, for some uid, the object built from the
    last accepted row of SDN.CSV with that uid (a later row with the uid
    of an earlier one replaces it) followed by the alias names of the
    rows of ALT.CSV with that uid and a name, in row order, and by one
    address record for every row of ADD.CSV with that uid, in row order -
    also for a row that has neither address nor city nor country. *)
Theorem sibling_entity_contents
    (sdnRows altRows addRows : list UpdateSibling.row) (e : OfacEntity) :
  e ∈ UpdateSibling.dataset sdnRows altRows addRows <->
  exists u r,
    lastAcceptedRaw u sdnRows = Some r /\
    e = appendAddresses (rawAddresses u addRows)
          (appendAka (rawAliases u altRows) (UpdateSibling.entityOf r)).
Proof.
  destruct (entityTableOf_keys sdnRows altRows addRows) as [Hkeys _].
  assert (NoDup (List.map fst
                   (UpdateSibling.entityTableOf sdnRows altRows addRows))) as Hnd.
  { rewrite Hkeys. apply firstOccurrences_from_NoDup. }
  unfold UpdateSibling.dataset, UpdateSibling.values.
  change (List.map ?f ?l) with (f <$> l). rewrite list_elem_of_fmap. split.
  - intros ([u e'] & -> & Hin). apply (mapGet_elem _ _ _ Hnd) in Hin.
    rewrite entityTableOf_get in Hin.
    destruct (lastAcceptedRaw u sdnRows) as [r|] eqn:Hr; [|discriminate].
    injection Hin as <-. eauto.
  - intros (u & r & Hr & ->). eexists (u, _). split; [reflexivity|].
    apply (mapGet_elem _ _ _ Hnd). now rewrite entityTableOf_get, Hr.
Qed.
Section SiblingHandler.

Variable fetch : jsstring -> Update.FetchResult.
Variable textRejection : jsstring.
Variable csvParseSync : jsstring -> result (list UpdateSibling.row).
Variable gzipSync : buffer -> buffer.
Variable utf8Encode : jsstring -> buffer.
Variable sha256 : jsstring -> jsstring.

Local Abbreviation handler :=
  (UpdateSibling.handler fetch textRejection csvParseSync gzipSync utf8Encode
     sha256).
Local Abbreviation fetchText := (UpdateSibling.fetchText fetch textRejection).

Lemma sibling_fetchText_fails (url : jsstring) :
  fetchFails (fetch url) = true -> exists m, fetchText url = Throw m.
Proof.
  unfold fetchFails, UpdateSibling.fetchText.
  destruct (fetch url) as [m|ok status statusText text]; [eauto|].
  intros ->. eauto.
Qed.

(** X20.  This version of the update function gets by with the primary
    table alone: when SDN.CSV is fetched and parsed and the fetches of
    ALT.CSV and of ADD.CSV both fail, the run still answers with
    metadata and writes both keys (the writes to the store taken to
    succeed); the dataset is the encoding of the
    entities of SDN.CSV, none of which has an alias or an address, and
    the metadata counts no alias and no address rows and holds [null]
    for the two hashes. *)
Theorem sibling_tolerates_missing_auxiliary (now : jsstring)
    (store : UpdateSibling.Store) (sdnCsv : jsstring)
    (sdnRows : list UpdateSibling.row) :
  fetchText Update.sdnUrl = Return sdnCsv ->
  csvParseSync sdnCsv = Return sdnRows ->
  fetchFails (fetch Update.altUrl) = true ->
  fetchFails (fetch Update.addUrl) = true ->
  let dataset := UpdateSibling.dataset sdnRows [] [] in
  exists gz meta,
    handler now store
    = (UpdateSibling.Responded meta,
       {| UpdateSibling.dataset_json_gz := Some gz;
          UpdateSibling.meta_json := Some meta |}) /\
    encode gzipSync utf8Encode dataset = Some gz /\
    Forall (fun e => aka e = [] /\ addresses e = []) dataset /\
    UpdateSibling.count_sdnRows meta = length sdnRows /\
    UpdateSibling.count_entities meta = length dataset /\
    UpdateSibling.count_altRows meta = 0%nat /\
    UpdateSibling.count_addRows meta = 0%nat /\
    UpdateSibling.altSha256 meta = None /\
    UpdateSibling.addSha256 meta = None.
Proof.
  intros Hsdn Hrows Halt Hadd dataset.
  destruct (sibling_fetchText_fails _ Halt) as [ma Hma].
  destruct (sibling_fetchText_fails _ Hadd) as [md Hmd].
  destruct (stringify_entities dataset) as [text Htext].
  unfold UpdateSibling.handler. rewrite Hsdn, Hma, Hmd.
  cbn [UpdateSibling.catchEmpty UpdateSibling.parseOptional nonEmpty].
  unfold UpdateSibling.parseCsv. rewrite Hrows. cbn [mbind result_bind].
  fold dataset. rewrite Htext.
  eexists _, _. split; [reflexivity|]. unfold encode. rewrite Htext.
  split; [reflexivity|]. split; [apply dataset_primary_only|].
  repeat split.
Qed.

(** X21.  The same function has no [try], and still a failure of a fetch
    or of a parse never leaves half a dataset behind, these all being
    done before the first write: with writes to the store that succeed,
    either its promise rejects and the store is the one the run started
    with - which is what happens when the fetch of SDN.CSV fails - or it
    answers with the metadata and the store holds a dataset and exactly
    that metadata, whose entity count is at most its count of primary
    rows. *)
Theorem sibling_all_or_nothing (now : jsstring) (store : UpdateSibling.Store) :
  let out := fst (handler now store) in
  let store' := snd (handler now store) in
  ((exists m, out = UpdateSibling.Rejected m) /\ store' = store \/
   exists gz meta,
     out = UpdateSibling.Responded meta /\
     store' = {| UpdateSibling.dataset_json_gz := Some gz;
                 UpdateSibling.meta_json := Some meta |} /\
     (UpdateSibling.count_entities meta <= UpdateSibling.count_sdnRows meta)%nat) /\
  (fetchFails (fetch Update.sdnUrl) = true ->
   (exists m, out = UpdateSibling.Rejected m) /\ store' = store).
Proof.
  cbv zeta. split.
  - unfold UpdateSibling.handler.
    destruct (fetchText Update.sdnUrl) as [sdnCsv|m]; [|left; eauto].
    destruct (UpdateSibling.parseCsv csvParseSync sdnCsv) as [r1|m];
      [|left; eauto].
    cbn [mbind result_bind].
    destruct (UpdateSibling.parseOptional csvParseSync
                (UpdateSibling.catchEmpty (fetchText Update.altUrl))) as [r2|m];
      [|left; eauto].
    cbn [mbind result_bind].
    destruct (UpdateSibling.parseOptional csvParseSync
                (UpdateSibling.catchEmpty (fetchText Update.addUrl))) as [r3|m];
      [|left; eauto].
    cbn [mbind result_bind]. cbv zeta.
    destruct (stringify_entities (UpdateSibling.dataset r1 r2 r3)) as [text ->].
    right. eexists _, _. split; [reflexivity|]. split; [reflexivity|].
    apply dataset_length.
  - intros Hf. destruct (sibling_fetchText_fails _ Hf) as [m Hm].
    unfold UpdateSibling.handler. rewrite Hm. eauto.
Qed.

End SiblingHandler.

(** X20, at a concrete input: the host has SDN.CSV only, with three rows
    of which two carry the uid 7; the run stores two entities. *)
Lemma sibling_tolerates_missing_auxiliary_witness :
  exists gz meta,
    UpdateSibling.handler MoreSamples.fetchOnlySdn [] MoreSamples.csvRaw
      Samples.storeSync Samples.unitsEncode Samples.noHash [] 
      {| UpdateSibling.dataset_json_gz := None; UpdateSibling.meta_json := None |}
    = (UpdateSibling.Responded meta,
       {| UpdateSibling.dataset_json_gz := Some gz;
          UpdateSibling.meta_json := Some meta |}) /\
    UpdateSibling.count_sdnRows meta = 3%nat /\
    UpdateSibling.count_entities meta = 2%nat /\
    UpdateSibling.altSha256 meta = None.
Proof.
  destruct (sibling_tolerates_missing_auxiliary MoreSamples.fetchOnlySdn []
              MoreSamples.csvRaw Samples.storeSync Samples.unitsEncode
              Samples.noHash []
              {| UpdateSibling.dataset_json_gz := None;
                 UpdateSibling.meta_json := None |}
              (u16 "SDN") MoreSamples.rawSdnRows
              eq_refl eq_refl eq_refl eq_refl)
    as (gz & meta & Hrun & _ & _ & Hrows & Hcount & _ & _ & Halt & _).
  exists gz, meta. split; [exact Hrun|]. split; [exact Hrows|].
  split; [|exact Halt]. rewrite Hcount. vm_compute. reflexivity.
Defined.
(* ===================================================================== *)
(** * The single-table update function *)
(* ===================================================================== *)

Section SingleTable.

Variable fetch : jsstring -> Update.FetchResult.
Variable records : jsstring -> result (list (list jsstring)).
Variable objects : list jsstring -> list (list jsstring) -> list row.
Variable toLowerUnicode : jsstring -> jsstring.
Variable gzipSync : buffer -> buffer.
Variable gunzipSync : buffer -> option buffer.
Variable utf8Encode : jsstring -> buffer.
Variable utf8Decode : buffer -> jsstring.
Variable sha256 : jsstring -> jsstring.
Variable byteLength : jsstring -> N.

Hypothesis gunzip_gzip : forall b, gunzipSync (gzipSync b) = Some b.
Hypothesis utf8_lossless :
  forall s, isWellFormed s = true -> utf8Decode (utf8Encode s) = s.

Local Abbreviation handler :=
  (UpdateSingle.handler fetch (CsvParse.parse records objects) toLowerUnicode
     gzipSync utf8Encode sha256 byteLength).


End SingleTable.


(* ===================================================================== *)
(** * The number of search results *)
(* ===================================================================== *)

Section SearchCount.

Variable gunzipSync : buffer -> option buffer.
Variable utf8Decode : buffer -> jsstring.
Variable fuseSearch : list OfacEntity -> jsstring -> jsnum -> list FuseResult.
Variable numberOther : jsstring -> jsnum.


End SearchCount.

(* ===================================================================== *)
(** * The two writes of the update function *)
(* ===================================================================== *)

Section WritesFacts.

Variable fetch : jsstring -> Update.FetchResult.
Variable csvParseSync : (jsstring -> jsstring) -> jsstring -> result (list row).
Variable toLowerUnicode : jsstring -> jsstring.
Variable gzipSync : buffer -> buffer.
Variable gunzipSync : buffer -> option buffer.
Variable utf8Encode : jsstring -> buffer.
Variable utf8Decode : buffer -> jsstring.
Variable sha256 : jsstring -> jsstring.

Hypothesis gunzip_gzip : forall b, gunzipSync (gzipSync b) = Some b.
Hypothesis utf8_lossless :
  forall s, isWellFormed s = true -> utf8Decode (utf8Encode s) = s.

Local Abbreviation readTables := (readTables fetch csvParseSync toLowerUnicode).

(** X24.  The two writes of an update are not one transaction, and the
    read path shows it.  For a run that is not in debug mode and whose
    fetches and parses succeed: if the store rejects the dataset, the
    run answers 500 and the store is as before; but if the store takes
    the dataset and then rejects the metadata, the run answers 500 with
    the message of that write although the dataset has been replaced -
    from then on the metadata function answers as it did before the run
    (with the metadata of an earlier run, or that there is no dataset
    yet), while a lookup on a cold instance is answered from the
    collection of this run. *)
Theorem update_writes_not_atomic (req : Update.Request) (now : jsstring)
    (store : Store) (t : Tables) (setDataset : buffer -> option jsstring)
    (setMeta : Meta -> option jsstring) :
  readTables = Return t ->
  Update.debug req <> Some (u16 "1") ->
  let run := UpdateWrites.handler fetch csvParseSync toLowerUnicode gzipSync
               utf8Encode sha256 setDataset setMeta in
  let x := collection (sdnRows t) (altRows t) (addRows t) in
  exists gz,
    encode gzipSync utf8Encode x = Some gz /\
    (forall m, setDataset gz = Some m ->
       run req now store = (Response 500 (ErrorBody m), store)) /\
    (forall m,
       setDataset gz = None -> setMeta (metaOf sha256 now t) = Some m ->
       exists store',
         run req now store = (Response 500 (ErrorBody m), store') /\
         dataset_json_gz store' = Some gz /\
         MetaFn.handler store' = MetaFn.handler store /\
         forall c u at_,
           Entity.handler gunzipSync utf8Decode (Some (c :: u)) at_ store' None
           = (match lastWithUid (c :: u) x with
              | Some e => Response 200 (EntityBody e)
              | None => Response 404 (NotFoundBody (c :: u))
              end,
              Some {| Entity.loadedAt := at_;
                      Entity.byId := Entity.mapById x |},
              [StoreGet "dataset.json.gz"])).
Proof.
  intros Ht Hd run x. subst run.
  destruct (decode_encode gzipSync gunzipSync utf8Encode utf8Decode
              gunzip_gzip utf8_lossless x) as (gz & Henc & Hdec).
  exists gz. split; [exact Henc|].
  split.
  - intros m Hset. rewrite handlerW_readTables, Ht.
    rewrite decide_False by exact Hd. fold x. now rewrite Henc, Hset.
  - intros m Hset Hmeta. eexists. split.
    + rewrite handlerW_readTables, Ht.
      rewrite decide_False by exact Hd. fold x.
      rewrite Henc, Hset, Hmeta. reflexivity.
    + split; [reflexivity|]. split; [reflexivity|].
      intros c u at_. unfold Entity.handler, Entity.loadById.
      cbn [dataset_json_gz]. rewrite Hdec, mapById_lookup.
      now destruct (lastWithUid (c :: u) x).
Qed.

End WritesFacts.

(** X24, at a concrete input: the host delivers three empty tables, the
    CSV reader is the library as [parseCSV] calls it, and the store,
    empty so far, takes the dataset and rejects the metadata.  The run
    answers 500; afterwards a lookup is answered from the new, empty
    dataset with "Not found", while the metadata function still answers
    that there is no dataset yet. *)
Lemma update_writes_not_atomic_witness :
  exists store',
    UpdateWrites.handler MoreSamples.fetchEmptyTables
      (CsvParse.parse MoreSamples.plainRecords MoreSamples.plainObjects)
      Samples.caseless Samples.storeSync Samples.unitsEncode Samples.noHash
      MoreSamples.acceptWrite MoreSamples.rejectWrite
      MoreSamples.plainRequest [] emptyStore
    = (Response 500 (ErrorBody (u16 "The blob store is unavailable")), store') /\
    isNoDataYet (fst (MetaFn.handler store')) = true /\
    fst (fst (Entity.handler Samples.unstoreSync Samples.unitsDecode
                (Some (u16 "123")) 0%Z store' None))
    = Response 404 (NotFoundBody (u16 "123")).
Proof.
  destruct (update_writes_not_atomic MoreSamples.fetchEmptyTables
              (CsvParse.parse MoreSamples.plainRecords MoreSamples.plainObjects)
              Samples.caseless Samples.storeSync Samples.unstoreSync
              Samples.unitsEncode Samples.unitsDecode Samples.noHash
              (fun b => eq_refl) (fun s _ => eq_refl)
              MoreSamples.plainRequest [] emptyStore MoreSamples.emptyTables
              MoreSamples.acceptWrite MoreSamples.rejectWrite
              eq_refl ltac:(discriminate))
    as (gz & Henc & _ & Hrej).
  destruct (Hrej (u16 "The blob store is unavailable") eq_refl eq_refl)
    as (store' & Hrun & _ & Hmeta & Hlookup).
  exists store'. split; [exact Hrun|]. split.
  - rewrite Hmeta. reflexivity.
  - exact (f_equal (fun p => fst (fst p)) (Hlookup 0x31 (u16 "23") 0%Z)).
Defined.
